(** * Order lifecycle of the food-delivery backend

    A shallow embedding of the order model ([models/Order.js]), of the
    order routes (POST /api/orders, PUT /api/orders/:id/status,
    PUT /api/orders/:id/cancel) and of the payment routes
    (create-intent, confirm, refund, webhook), followed by the properties
    of pricing, of the status state machine and of payment
    reconciliation.

    Conventions of the embedding:
    - a JavaScript [Number] holding money is an exact rational ([Q]);
      rounding to cents ([Math.round]) is written out.  The code
      computes in binary floating point, so a sum or a product of the
      model is the code's only up to the rounding of doubles; the
      properties below either compare amounts by order, or evaluate
      inputs on which the doubles are exact;
    - a Mongo ObjectId is its hexadecimal string, [equals] is string
      equality;
    - a collection is a finite map from the document id to the document;
    - [Date.now()] is an argument [now] of each handler (milliseconds);
    - a handler returns the HTTP response (status code and message)
      together with the collections as they are after the request;
    - fields of the documents that these routes neither read nor write
      (notes, promotions, feedback) are left out; the order number,
      which the routes never set, appears where [Order.create]
      validates it. *)

From Stdlib Require Import QArith Qround Lqa ZArith Lia String List.
From stdpp Require Import gmap strings.
Import ListNotations.

Local Open Scope string_scope.

(** ** JavaScript idioms *)

Module Js.

(** [x || d] on an optional number: [undefined] and [0] are falsy. *)
Definition num_or (x : option Q) (d : Q) : Q :=
  match x with
  | Some v => if Qeq_bool v 0 then d else v
  | None => d
  end.

Definition int_or (x : option Z) (d : Z) : Z :=
  match x with
  | Some v => if Z.eqb v 0 then d else v
  | None => d
  end.

(** [x || d] on a time of the request body, in milliseconds:
    [undefined] and [0] are falsy. *)
Definition date_or (x : option Z) (d : Z) : Z :=
  match x with
  | Some v => if Z.eqb v 0 then d else v
  | None => d
  end.

(** [x || d] on an optional string: [undefined] and the empty string
    are falsy. *)
Definition str_or (x : option string) (d : string) : string :=
  match x with
  | Some v => if String.eqb v EmptyString then d else v
  | None => d
  end.

(** [Math.round]: the nearest integer, halves rounded up. *)
Definition round (x : Q) : Z := Qfloor (x + (1 # 2))%Q.

(** [Math.max] on two numbers. *)
Definition max (x y : Q) : Q := if Qle_bool y x then x else y.

End Js.

(** ** Data model ([models/Order.js]) *)

Inductive OrderStatus :=
| pending | confirmed | preparing | ready_for_pickup
| out_for_delivery | delivered | cancelled | refunded.

Inductive PaymentStatus :=
| pay_pending | pay_processing | pay_completed | pay_failed | pay_refunded.

Inductive OrderType := delivery | pickup.

Inductive PaymentMethod := card | cash | paypal | wallet.

(** The role of the authenticated user ([req.user.role]). *)
Inductive Role := customer | restaurant_owner | delivery_driver | admin.

Definition status_name (s : OrderStatus) : string :=
  match s with
  | pending => "pending"
  | confirmed => "confirmed"
  | preparing => "preparing"
  | ready_for_pickup => "ready_for_pickup"
  | out_for_delivery => "out_for_delivery"
  | delivered => "delivered"
  | cancelled => "cancelled"
  | refunded => "refunded"
  end.

Definition role_name (r : Role) : string :=
  match r with
  | customer => "customer"
  | restaurant_owner => "restaurant_owner"
  | delivery_driver => "delivery_driver"
  | admin => "admin"
  end.

Definition status_eqb (a b : OrderStatus) : bool :=
  match a, b with
  | pending, pending | confirmed, confirmed | preparing, preparing
  | ready_for_pickup, ready_for_pickup | out_for_delivery, out_for_delivery
  | delivered, delivered | cancelled, cancelled | refunded, refunded => true
  | _, _ => false
  end.

Definition pstatus_eqb (a b : PaymentStatus) : bool :=
  match a, b with
  | pay_pending, pay_pending | pay_processing, pay_processing
  | pay_completed, pay_completed | pay_failed, pay_failed
  | pay_refunded, pay_refunded => true
  | _, _ => false
  end.

Definition is_admin (r : Role) : bool :=
  match r with admin => true | _ => false end.

(** [Array.prototype.includes] on a list of statuses. *)
Definition includes (l : list OrderStatus) (s : OrderStatus) : bool :=
  existsb (status_eqb s) l.

(** A selected customization as the request sends it and as the order
    stores it: the name of the customization and the names of the chosen
    options. *)
Record ReqCustomization := {
  rc_name : string;
  rc_options : list string
}.

(** [orderItemSchema] *)
Record OrderItem := {
  menuItem : string;
  name : string;
  price : Q;
  quantity : Z;
  size : option string;
  customizations : list ReqCustomization;
  item_subtotal : Q
}.

Record Pricing := {
  subtotal : Q;
  tax : Q;
  deliveryFee : Q;
  serviceFee : Q;
  discount : Q;
  tip : Q;
  total : Q
}.

Record Payment := {
  method : PaymentMethod;
  pstatus : PaymentStatus;
  transactionId : option string;
  stripePaymentIntentId : option string;
  paidAt : option Z;
  refundedAt : option Z;
  refundAmount : option Q
}.

Record Estimated := { est_timestamp : Z; estimatedTime : Z }.

Record Delivered := {
  dl_timestamp : Z;
  deliveredBy : option string;
  signature : option string;
  photo : option string
}.

Record Cancelled := {
  cn_timestamp : Z;
  reason : option string;
  cancelledBy : option string
}.

Record Tracking := {
  orderPlaced : Z;
  orderConfirmed : option Estimated;
  preparationStarted : option Estimated;
  readyForPickup : option Z;
  outForDelivery : option (Z * Z);
  trk_delivered : option Delivered;
  trk_cancelled : option Cancelled
}.

Record Order := {
  customer_id : string;
  restaurant : string;
  items : list OrderItem;
  orderType : OrderType;
  status : OrderStatus;
  deliveryAddress : option string;
  scheduledDeliveryTime : option Z;
  estimatedDeliveryTime : option Z;
  actualDeliveryTime : option Z;
  pricing : Pricing;
  payment : Payment;
  deliveryDriver : option string;
  tracking : Tracking
}.

(** Field updates, one per assignment the handlers make. *)

Definition set_status (s : OrderStatus) (o : Order) : Order :=
  {| customer_id := customer_id o; restaurant := restaurant o; items := items o;
     orderType := orderType o; status := s;
     deliveryAddress := deliveryAddress o;
     scheduledDeliveryTime := scheduledDeliveryTime o;
     estimatedDeliveryTime := estimatedDeliveryTime o;
     actualDeliveryTime := actualDeliveryTime o;
     pricing := pricing o; payment := payment o;
     deliveryDriver := deliveryDriver o; tracking := tracking o |}.

Definition set_tracking (t : Tracking) (o : Order) : Order :=
  {| customer_id := customer_id o; restaurant := restaurant o; items := items o;
     orderType := orderType o; status := status o;
     deliveryAddress := deliveryAddress o;
     scheduledDeliveryTime := scheduledDeliveryTime o;
     estimatedDeliveryTime := estimatedDeliveryTime o;
     actualDeliveryTime := actualDeliveryTime o;
     pricing := pricing o; payment := payment o;
     deliveryDriver := deliveryDriver o; tracking := t |}.

Definition set_payment (p : Payment) (o : Order) : Order :=
  {| customer_id := customer_id o; restaurant := restaurant o; items := items o;
     orderType := orderType o; status := status o;
     deliveryAddress := deliveryAddress o;
     scheduledDeliveryTime := scheduledDeliveryTime o;
     estimatedDeliveryTime := estimatedDeliveryTime o;
     actualDeliveryTime := actualDeliveryTime o;
     pricing := pricing o; payment := p;
     deliveryDriver := deliveryDriver o; tracking := tracking o |}.

Definition set_pricing (p : Pricing) (o : Order) : Order :=
  {| customer_id := customer_id o; restaurant := restaurant o; items := items o;
     orderType := orderType o; status := status o;
     deliveryAddress := deliveryAddress o;
     scheduledDeliveryTime := scheduledDeliveryTime o;
     estimatedDeliveryTime := estimatedDeliveryTime o;
     actualDeliveryTime := actualDeliveryTime o;
     pricing := p; payment := payment o;
     deliveryDriver := deliveryDriver o; tracking := tracking o |}.

Definition set_estimatedDeliveryTime (t : option Z) (o : Order) : Order :=
  {| customer_id := customer_id o; restaurant := restaurant o; items := items o;
     orderType := orderType o; status := status o;
     deliveryAddress := deliveryAddress o;
     scheduledDeliveryTime := scheduledDeliveryTime o;
     estimatedDeliveryTime := t;
     actualDeliveryTime := actualDeliveryTime o;
     pricing := pricing o; payment := payment o;
     deliveryDriver := deliveryDriver o; tracking := tracking o |}.

Definition set_actualDeliveryTime (t : option Z) (o : Order) : Order :=
  {| customer_id := customer_id o; restaurant := restaurant o; items := items o;
     orderType := orderType o; status := status o;
     deliveryAddress := deliveryAddress o;
     scheduledDeliveryTime := scheduledDeliveryTime o;
     estimatedDeliveryTime := estimatedDeliveryTime o;
     actualDeliveryTime := t;
     pricing := pricing o; payment := payment o;
     deliveryDriver := deliveryDriver o; tracking := tracking o |}.

Definition set_pstatus (s : PaymentStatus) (p : Payment) : Payment :=
  {| method := method p; pstatus := s; transactionId := transactionId p;
     stripePaymentIntentId := stripePaymentIntentId p; paidAt := paidAt p;
     refundedAt := refundedAt p; refundAmount := refundAmount p |}.

Definition set_paidAt (t : Z) (p : Payment) : Payment :=
  {| method := method p; pstatus := pstatus p; transactionId := transactionId p;
     stripePaymentIntentId := stripePaymentIntentId p; paidAt := Some t;
     refundedAt := refundedAt p; refundAmount := refundAmount p |}.

Definition set_transactionId (i : string) (p : Payment) : Payment :=
  {| method := method p; pstatus := pstatus p; transactionId := Some i;
     stripePaymentIntentId := stripePaymentIntentId p; paidAt := paidAt p;
     refundedAt := refundedAt p; refundAmount := refundAmount p |}.

Definition set_stripePaymentIntentId (i : string) (p : Payment) : Payment :=
  {| method := method p; pstatus := pstatus p; transactionId := transactionId p;
     stripePaymentIntentId := Some i; paidAt := paidAt p;
     refundedAt := refundedAt p; refundAmount := refundAmount p |}.

Definition set_refund (t : Z) (a : Q) (p : Payment) : Payment :=
  {| method := method p; pstatus := pstatus p; transactionId := transactionId p;
     stripePaymentIntentId := stripePaymentIntentId p; paidAt := paidAt p;
     refundedAt := Some t; refundAmount := Some a |}.

(** The HTTP response: status code and [message] of the JSON body. *)
Record Response := { http : nat; message : string }.

Abbreviation Orders := (gmap string Order).

(** ** Methods of the order model *)

(** The second argument of [updateStatus]; every field may be absent. *)
Record AdditionalData := {
  ad_estimatedTime : option Z;
  ad_estimatedArrival : option Z;
  ad_deliveredBy : option string;
  ad_signature : option string;
  ad_photo : option string;
  ad_reason : option string;
  ad_cancelledBy : option string
}.

(** The default [additionalData = {}]. *)
Definition no_data : AdditionalData :=
  {| ad_estimatedTime := None; ad_estimatedArrival := None;
     ad_deliveredBy := None; ad_signature := None; ad_photo := None;
     ad_reason := None; ad_cancelledBy := None |}.

Definition set_orderConfirmed (e : Estimated) (t : Tracking) : Tracking :=
  {| orderPlaced := orderPlaced t; orderConfirmed := Some e;
     preparationStarted := preparationStarted t;
     readyForPickup := readyForPickup t; outForDelivery := outForDelivery t;
     trk_delivered := trk_delivered t; trk_cancelled := trk_cancelled t |}.

Definition set_preparationStarted (e : Estimated) (t : Tracking) : Tracking :=
  {| orderPlaced := orderPlaced t; orderConfirmed := orderConfirmed t;
     preparationStarted := Some e;
     readyForPickup := readyForPickup t; outForDelivery := outForDelivery t;
     trk_delivered := trk_delivered t; trk_cancelled := trk_cancelled t |}.

Definition set_readyForPickup (ts : Z) (t : Tracking) : Tracking :=
  {| orderPlaced := orderPlaced t; orderConfirmed := orderConfirmed t;
     preparationStarted := preparationStarted t;
     readyForPickup := Some ts; outForDelivery := outForDelivery t;
     trk_delivered := trk_delivered t; trk_cancelled := trk_cancelled t |}.

Definition set_outForDelivery (ts arrival : Z) (t : Tracking) : Tracking :=
  {| orderPlaced := orderPlaced t; orderConfirmed := orderConfirmed t;
     preparationStarted := preparationStarted t;
     readyForPickup := readyForPickup t; outForDelivery := Some (ts, arrival);
     trk_delivered := trk_delivered t; trk_cancelled := trk_cancelled t |}.

Definition set_delivered (d : Delivered) (t : Tracking) : Tracking :=
  {| orderPlaced := orderPlaced t; orderConfirmed := orderConfirmed t;
     preparationStarted := preparationStarted t;
     readyForPickup := readyForPickup t; outForDelivery := outForDelivery t;
     trk_delivered := Some d; trk_cancelled := trk_cancelled t |}.

Definition set_cancelled (c : Cancelled) (t : Tracking) : Tracking :=
  {| orderPlaced := orderPlaced t; orderConfirmed := orderConfirmed t;
     preparationStarted := preparationStarted t;
     readyForPickup := readyForPickup t; outForDelivery := outForDelivery t;
     trk_delivered := trk_delivered t; trk_cancelled := Some c |}.

(** The assignments of [updateStatus] before [this.save()]: the status
    write and the [switch] on the new status, which has no case for
    [pending] and none for [refunded]. *)
Definition applyStatus (now : Z) (newStatus : OrderStatus)
    (ad : AdditionalData) (o : Order) : Order :=
  let o := set_status newStatus o in
  match newStatus with
  | confirmed =>
      let o := set_tracking (set_orderConfirmed
                 {| est_timestamp := now;
                    estimatedTime := Js.int_or (ad_estimatedTime ad) 30 |}
                 (tracking o)) o in
      match ad_estimatedTime ad with
      | Some m => if Z.eqb m 0 then o
                  else set_estimatedDeliveryTime (Some (now + m * 60000)%Z) o
      | None => o
      end
  | preparing =>
      set_tracking (set_preparationStarted
        {| est_timestamp := now;
           estimatedTime := Js.int_or (ad_estimatedTime ad) 20 |}
        (tracking o)) o
  | ready_for_pickup =>
      set_tracking (set_readyForPickup now (tracking o)) o
  | out_for_delivery =>
      set_tracking (set_outForDelivery now
        (Js.date_or (ad_estimatedArrival ad) (now + 20 * 60000)%Z)
        (tracking o)) o
  | delivered =>
      set_actualDeliveryTime (Some now)
        (set_tracking (set_delivered
           {| dl_timestamp := now; deliveredBy := ad_deliveredBy ad;
              signature := ad_signature ad; photo := ad_photo ad |}
           (tracking o)) o)
  | cancelled =>
      set_tracking (set_cancelled
        {| cn_timestamp := now; reason := ad_reason ad;
           cancelledBy := ad_cancelledBy ad |}
        (tracking o)) o
  | pending | refunded => o
  end.

(** The [enum] of [tracking.cancelled.cancelledBy]. *)
Definition cancelledBy_enum : list string :=
  ["customer"; "restaurant"; "admin"; "system"].

(** The enum validator of the schema; an absent value passes. *)
Definition cancelledBy_valid (c : option string) : bool :=
  match c with
  | None => true
  | Some s => existsb (String.eqb s) cancelledBy_enum
  end.

(** [this.save()] validates the paths that were modified.  The status
    written by [updateStatus] is always a member of the status enum, so
    the one modified path whose validator can reject is
    [tracking.cancelled.cancelledBy]; a rejected save throws and nothing
    is written. *)
Definition save_accepts (newStatus : OrderStatus) (o : Order) : bool :=
  match newStatus with
  | cancelled =>
      match trk_cancelled (tracking o) with
      | Some c => cancelledBy_valid (cancelledBy c)
      | None => true
      end
  | _ => true
  end.

(** [orderSchema.methods.updateStatus]: [Some] is the document that was
    saved, [None] a rejected save. *)
Definition updateStatus (now : Z) (newStatus : OrderStatus)
    (ad : AdditionalData) (o : Order) : option Order :=
  let o' := applyStatus now newStatus ad o in
  if save_accepts newStatus o' then Some o' else None.

(** [orderSchema.methods.calculateTotal] *)
Definition calculateTotal (o : Order) : Order :=
  let subtotal :=
    fold_left (fun acc it => (acc + item_subtotal it)%Q) (items o) (0 : Q) in
  let tax := (subtotal * (8 # 100))%Q in
  let p := pricing o in
  let total := (subtotal + tax + deliveryFee p + serviceFee p + tip p)%Q in
  let total := (total - discount p)%Q in
  set_pricing
    {| subtotal := subtotal; tax := tax; deliveryFee := deliveryFee p;
       serviceFee := serviceFee p; discount := discount p; tip := tip p;
       total := Js.max total 0 |} o.

(** The virtual [canBeCancelled]. *)
Definition canBeCancelled (o : Order) : bool :=
  includes [pending; confirmed] (status o).

(** ** Catalog and restaurant, as the order route reads them *)

Record MenuOption := { opt_name : string; opt_price : Q }.

Record MenuCustomization := {
  cust_name : string;
  cust_options : list MenuOption
}.

Record MenuSize := { size_name : string; size_price : Q }.

Record MenuItem := {
  mi_id : string;
  mi_name : string;
  mi_price : Q;
  isAvailable : bool;
  sizes : list MenuSize;
  mi_customizations : list MenuCustomization
}.

Record Menu := { menu_isActive : bool; menu_items : list MenuItem }.

Record Restaurant := {
  owner : string;
  isActive : bool;
  rest_deliveryFee : Q;
  rest_estimatedDeliveryTime : Z;
  totalOrders : Z;
  totalRevenue : Q
}.

(** The collections: orders and restaurants by id, the menu of a
    restaurant by the restaurant's id. *)
Record Db := {
  orders : gmap string Order;
  restaurants : gmap string Restaurant;
  menus : gmap string Menu
}.

Definition with_orders (os : gmap string Order) (db : Db) : Db :=
  {| orders := os; restaurants := restaurants db; menus := menus db |}.

Definition with_restaurants (rs : gmap string Restaurant) (db : Db) : Db :=
  {| orders := orders db; restaurants := rs; menus := menus db |}.

(** ** POST /api/orders *)

Record ReqItem := {
  ri_menuItem : string;
  ri_quantity : Z;
  ri_size : option string;
  ri_customizations : option (list ReqCustomization);
}.

(** The authenticated user and the request body.  The fields checked by
    [isIn] and [isMongoId] have the type of the accepted values. *)
Record CreateOrderReq := {
  co_user : string;
  co_restaurant : string;
  co_items : list ReqItem;
  co_orderType : OrderType;
  co_deliveryAddress : option string;
  co_scheduledDeliveryTime : option Z;
  co_payment_method : PaymentMethod;
  co_tip : option Q
}.

(** The request validators that remain: [items] has at least one
    element and every quantity is at least 1. *)
Definition create_valid (r : CreateOrderReq) : bool :=
  (1 <=? length (co_items r))%nat
  && forallb (fun i => (1 <=? ri_quantity i)%Z) (co_items r).

(** [menu.items.id(id)] *)
Definition menu_item (m : Menu) (id : string) : option MenuItem :=
  find (fun i => String.eqb (mi_id i) id) (menu_items m).

(** The inner [forEach]: the price of an option is added when the menu
    customization has an option of that name. *)
Definition add_option (mc : MenuCustomization) (acc : Q) (o : string) : Q :=
  match find (fun m => String.eqb (opt_name m) o) (cust_options mc) with
  | Some m => (acc + opt_price m)%Q
  | None => acc
  end.

(** One turn of the loop over [orderItem.customizations]. *)
Definition add_customization (mi : MenuItem) (acc : Q) (c : ReqCustomization) : Q :=
  match find (fun mc => String.eqb (cust_name mc) (rc_name c))
             (mi_customizations mi) with
  | Some mc => fold_left (add_option mc) (rc_options c) acc
  | None => acc
  end.

Definition customizationTotal (mi : MenuItem) (cs : option (list ReqCustomization)) : Q :=
  match cs with
  | Some l => fold_left (add_customization mi) l (0 : Q)
  | None => 0%Q
  end.

(** [itemPrice]: the price of the selected size replaces the base price
    when the item has a size of that name. *)
Definition itemPrice (mi : MenuItem) (sz : option string) : Q :=
  match sz with
  | Some n =>
      if (0 <? length (sizes mi))%nat then
        match find (fun s => String.eqb (size_name s) n) (sizes mi) with
        | Some s => size_price s
        | None => mi_price mi
        end
      else mi_price mi
  | None => mi_price mi
  end.

Definition order_item (mi : MenuItem) (ri : ReqItem) : OrderItem :=
  let p := itemPrice mi (ri_size ri) in
  {| menuItem := mi_id mi; name := mi_name mi; price := p;
     quantity := ri_quantity ri; size := ri_size ri;
     customizations := match ri_customizations ri with
                       | Some l => l
                       | None => []
                       end;
     item_subtotal :=
       ((p + customizationTotal mi (ri_customizations ri))
        * inject_Z (ri_quantity ri))%Q |}.

Definition item_not_available (id : string) : Response :=
  {| http := 400; message := "Item " ++ id ++ " is not available" |}.

(** The loop over the requested items, with its early return. *)
Fixpoint price_items (m : Menu) (l : list ReqItem)
    (orderItems : list OrderItem) (sub : Q)
    : Response + (list OrderItem * Q) :=
  match l with
  | [] => inr (orderItems, sub)
  | ri :: rest =>
      match menu_item m (ri_menuItem ri) with
      | None => inl (item_not_available (ri_menuItem ri))
      | Some mi =>
          if negb (isAvailable mi) then inl (item_not_available (ri_menuItem ri))
          else
            let oi := order_item mi ri in
            price_items m rest (orderItems ++ [oi]) (sub + item_subtotal oi)%Q
      end
  end.

(** The pricing block of the handler. *)
Definition order_pricing (sub : Q) (ty : OrderType) (fee : Q) (tp : option Q) : Pricing :=
  let tax := (sub * (8 # 100))%Q in
  let deliveryFee := match ty with delivery => fee | pickup => 0%Q end in
  let serviceFee := (sub * (2 # 100))%Q in
  let total := (sub + tax + deliveryFee + serviceFee)%Q in
  {| subtotal := sub; tax := tax; deliveryFee := deliveryFee;
     serviceFee := serviceFee; discount := 0;
     tip := Js.num_or tp 0;
     total := (total + Js.num_or tp 0)%Q |}.

Definition new_tracking (now : Z) : Tracking :=
  {| orderPlaced := now; orderConfirmed := None; preparationStarted := None;
     readyForPickup := None; outForDelivery := None;
     trk_delivered := None; trk_cancelled := None |}.

(** [orderData], with the fields it leaves out at the defaults of the
    schema (status pending, the placement stamped, no driver).  It has
    no order number. *)
Definition orderData (now : Z) (r : CreateOrderReq) (rest : Restaurant)
    (orderItems : list OrderItem) (sub : Q) : Order :=
  {| customer_id := co_user r;
     restaurant := co_restaurant r;
     items := orderItems;
     orderType := co_orderType r;
     status := pending;
     deliveryAddress := match co_orderType r with
                        | delivery => co_deliveryAddress r
                        | pickup => None
                        end;
     scheduledDeliveryTime := co_scheduledDeliveryTime r;
     estimatedDeliveryTime :=
       Some (Js.date_or (co_scheduledDeliveryTime r)
               (now + rest_estimatedDeliveryTime rest * 60000)%Z);
     actualDeliveryTime := None;
     pricing := order_pricing sub (co_orderType r) (rest_deliveryFee rest) (co_tip r);
     payment := {| method := co_payment_method r; pstatus := pay_pending;
                   transactionId := None; stripePaymentIntentId := None;
                   paidAt := None; refundedAt := None; refundAmount := None |};
     deliveryDriver := None;
     tracking := new_tracking now |}.

Definition bump_restaurant (amount : Q) (r : Restaurant) : Restaurant :=
  {| owner := owner r; isActive := isActive r;
     rest_deliveryFee := rest_deliveryFee r;
     rest_estimatedDeliveryTime := rest_estimatedDeliveryTime r;
     totalOrders := (totalOrders r + 1)%Z;
     totalRevenue := (totalRevenue r + amount)%Q |}.

Definition server_error : Response := {| http := 500; message := "Server error" |}.

(** [Order.create(data)]: the collection after the call, [None] when
    the call throws.  Mongoose validates a new document before it runs
    the [pre('save')] hooks.  The schema marks [orderNumber] as
    [required], and the only code that sets it is the [pre('save')]
    hook of the model, which runs after validation: a document is
    accepted only when the data itself carries an order number.
    [orderNumber] is the value of that key in [data], [newId] the
    ObjectId of the new document. *)
Definition Order_create (newId : string) (orderNumber : option string)
    (data : Order) (os : Orders) : option Orders :=
  match orderNumber with
  | None => None
  | Some _ =>
      match os !! newId with
      | Some _ => None
      | None => Some (<[newId := data]> os)
      end
  end.

(** [res.json] of a body whose [data] is an order with its [restaurant]
    populated by a selection of fields.  Serialising the order
    serialises the restaurant document with its virtuals (the schema
    sets [toJSON: { virtuals: true }]), and the getter of [mainImage]
    calls [this.images.find] on the [images] array that the selection
    left out: a TypeError inside the [try], which the [catch] answers
    with the 500, after whatever the handler has saved.  When the
    restaurant document is gone, [populate] leaves [null] and the
    response is sent. *)
Definition json_populated (db : Db) (o : Order) (resp : Response) : Response :=
  match restaurants db !! restaurant o with
  | Some _ => server_error
  | None => resp
  end.

(** The handler up to the call of [Order.create]: the response of an
    early return, or the [orderData] it has built. *)
Definition create_order_data (now : Z) (r : CreateOrderReq) (db : Db)
    : Response + Order :=
  if negb (create_valid r) then
    inl {| http := 400; message := "Validation failed" |}
  else
    match restaurants db !! co_restaurant r with
    | None => inl {| http := 404; message := "Restaurant not found or inactive" |}
    | Some rest =>
        if negb (isActive rest) then
          inl {| http := 404; message := "Restaurant not found or inactive" |}
        else
          match menus db !! co_restaurant r with
          | None => inl {| http := 404; message := "Restaurant menu not available" |}
          | Some m =>
              if negb (menu_isActive m) then
                inl {| http := 404; message := "Restaurant menu not available" |}
              else
                match price_items m (co_items r) [] 0 with
                | inl resp => inl resp
                | inr (orderItems, sub) =>
                    inr (orderData now r rest orderItems sub)
                end
          end
    end.

(** The handler.  [orderData] has no key [orderNumber], so
    [Order.create] throws and the [catch] answers with the 500; the
    code after the call (the restaurant's counters, the response with
    the populated order) is not reached.  The update of the user's order
    history that follows the restaurant's is on the user collection and
    is left out. *)
Definition create_order (now : Z) (newId : string) (r : CreateOrderReq) (db : Db)
    : Response * Db :=
  match create_order_data now r db with
  | inl resp => (resp, db)
  | inr o =>
      match Order_create newId None o (orders db) with
      | None => (server_error, db)
      | Some os =>
          let db := with_orders os db in
          let db :=
            match restaurants db !! co_restaurant r with
            | Some rest =>
                with_restaurants
                  (<[co_restaurant r := bump_restaurant (total (pricing o)) rest]>
                     (restaurants db)) db
            | None => db
            end in
          (json_populated db o
             {| http := 201; message := "Order placed successfully" |}, db)
      end
  end.

(** ** PUT /api/orders/:id/status *)

Record StatusReq := {
  su_user : string;
  su_role : Role;
  su_order : string;
  su_status : OrderStatus;
  su_estimatedTime : option Z;
  su_estimatedArrival : option Z;
  su_deliveredBy : option string;
  su_signature : option string;
  su_photo : option string;
  su_reason : option string
}.

(** [body('status').isIn([...])]: every status but [refunded]. *)
Definition status_valid (s : OrderStatus) : bool :=
  includes [pending; confirmed; preparing; ready_for_pickup;
            out_for_delivery; delivered; cancelled] s.

(** [order.restaurant.owner.equals(id)] on the populated order.  When
    the restaurant document is gone, [populate] leaves [null] and the
    property access throws: [None]. *)
Definition owner_equals (db : Db) (o : Order) (uid : string) : option bool :=
  match restaurants db !! restaurant o with
  | Some r => Some (String.eqb (owner r) uid)
  | None => None
  end.

Definition driver_equals (o : Order) (uid : string) : bool :=
  match deliveryDriver o with
  | Some d => String.eqb d uid
  | None => false
  end.

(** [isAuthorized] of the status route; [None] when computing it
    throws.  [||] evaluates its right operand only when the left one is
    false. *)
Definition status_authorized (db : Db) (o : Order) (uid : string) (role : Role)
    (target : OrderStatus) : option bool :=
  if includes [confirmed; preparing; ready_for_pickup] target then
    match owner_equals db o uid with
    | Some b => Some (b || is_admin role)
    | None => None
    end
  else if includes [out_for_delivery; delivered] target then
    Some (driver_equals o uid || is_admin role)
  else if status_eqb target cancelled then
    if String.eqb (customer_id o) uid then Some true
    else match owner_equals db o uid with
         | Some b => Some (b || is_admin role)
         | None => None
         end
  else Some false.

(** The table of the handler; it has no key [refunded], so the lookup
    gives [undefined] there. *)
Definition validTransitions (s : OrderStatus) : option (list OrderStatus) :=
  match s with
  | pending => Some [confirmed; cancelled]
  | confirmed => Some [preparing; cancelled]
  | preparing => Some [ready_for_pickup; cancelled]
  | ready_for_pickup => Some [out_for_delivery; delivered; cancelled]
  | out_for_delivery => Some [delivered; cancelled]
  | delivered => Some []
  | cancelled => Some []
  | refunded => None
  end.

Definition cannot_change (src target : OrderStatus) : Response :=
  {| http := 400;
     message := "Cannot change status from " ++ status_name src
                ++ " to " ++ status_name target |}.

Definition not_authorized_status : Response :=
  {| http := 403; message := "Not authorized to update this order status" |}.

Definition order_not_found : Response :=
  {| http := 404; message := "Order not found" |}.

Definition validation_failed : Response :=
  {| http := 400; message := "Validation failed" |}.

Definition status_data (r : StatusReq) : AdditionalData :=
  {| ad_estimatedTime := su_estimatedTime r;
     ad_estimatedArrival := su_estimatedArrival r;
     ad_deliveredBy := su_deliveredBy r;
     ad_signature := su_signature r;
     ad_photo := su_photo r;
     ad_reason := su_reason r;
     ad_cancelledBy := Some (role_name (su_role r)) |}.

(** The handler.  The order that [updateStatus] has saved is sent
    with its populated restaurant. *)
Definition update_status (now : Z) (r : StatusReq) (db : Db) : Response * Db :=
  if negb (status_valid (su_status r)) then (validation_failed, db)
  else
    match orders db !! su_order r with
    | None => (order_not_found, db)
    | Some o =>
        match status_authorized db o (su_user r) (su_role r) (su_status r) with
        | None => (server_error, db)
        | Some false => (not_authorized_status, db)
        | Some true =>
            match validTransitions (status o) with
            | None => (server_error, db)
            | Some targets =>
                if negb (includes targets (su_status r)) then
                  (cannot_change (status o) (su_status r), db)
                else
                  match updateStatus now (su_status r) (status_data r) o with
                  | None => (server_error, db)
                  | Some o' =>
                      (json_populated db o'
                         {| http := 200;
                            message := "Order status updated to "
                                       ++ status_name (su_status r) |},
                       with_orders (<[su_order r := o']> (orders db)) db)
                  end
            end
        end
    end.

(** ** PUT /api/orders/:id/cancel *)

(** [cn_req_reason] is the body's reason after the [trim] sanitizer; the
    handler never reads the validation result. *)
Record CancelReq := {
  cn_user : string;
  cn_role : Role;
  cn_order : string;
  cn_req_reason : option string
}.

(** [isAuthorized] of the cancel and refund routes. *)
Definition party_authorized (db : Db) (o : Order) (uid : string) (role : Role)
    : option bool :=
  if String.eqb (customer_id o) uid then Some true
  else match owner_equals db o uid with
       | Some b => Some (b || is_admin role)
       | None => None
       end.

(** The handler.  Here too the saved order is sent with its populated
    restaurant. *)
Definition cancel_order (now : Z) (r : CancelReq) (db : Db) : Response * Db :=
  match orders db !! cn_order r with
  | None => (order_not_found, db)
  | Some o =>
      match party_authorized db o (cn_user r) (cn_role r) with
      | None => (server_error, db)
      | Some false =>
          ({| http := 403; message := "Not authorized to cancel this order" |}, db)
      | Some true =>
          if negb (canBeCancelled o) then
            ({| http := 400; message := "Order cannot be cancelled at this stage" |}, db)
          else
            let ad :=
              {| ad_estimatedTime := None; ad_estimatedArrival := None;
                 ad_deliveredBy := None; ad_signature := None; ad_photo := None;
                 ad_reason := Some (Js.str_or (cn_req_reason r) "No reason provided");
                 ad_cancelledBy := Some (role_name (cn_role r)) |} in
            match updateStatus now cancelled ad o with
            | None => (server_error, db)
            | Some o' =>
                (json_populated db o'
                   {| http := 200; message := "Order cancelled successfully" |},
                 with_orders (<[cn_order r := o']> (orders db)) db)
            end
      end
  end.

(** ** The payment gateway *)

Inductive IntentStatus :=
| succeeded | requires_action | payment_failed | other_intent_status.

Record Intent := {
  intent_id : string;
  client_secret : string;
  intent_status : IntentStatus;
  intent_amount : Z
}.

Record Refund := { refund_id : string; refund_amount : Z }.

Inductive EventType :=
| payment_intent_succeeded | payment_intent_payment_failed | other_event.

(** A verified webhook event: its type and the id of [event.data.object]. *)
Record Event := { ev_type : EventType; ev_object : string }.

(** The calls the routes make on the Stripe client.  A call returns its
    result ([inr]) or throws an error with a message ([inl]). *)
Record Gateway := {
  (** [paymentIntents.create]: the amount in cents and the optional
      payment method *)
  paymentIntents_create : Z -> option string -> string + Intent;
  paymentIntents_retrieve : string -> string + option Intent;
  (** [refunds.create]: the intent and the amount in cents *)
  refunds_create : string -> Z -> string + Refund;
  (** [webhooks.constructEvent] with the configured secret: the raw body
      and the signature header *)
  webhooks_constructEvent : string -> string -> string + Event
}.

(** [Order.findOne({'payment.stripePaymentIntentId': id})]: a document
    whose payment carries that intent id, with its key. *)
Definition find_by_intent (os : gmap string Order) (id : string)
    : option (string * Order) :=
  find (fun kv => match stripePaymentIntentId (payment (snd kv)) with
                  | Some i => String.eqb i id
                  | None => false
                  end)
       (map_to_list os).

(** ** POST /api/payments/create-intent *)

Record IntentReq := {
  pi_user : string;
  pi_order : string;
  pi_paymentMethodId : option string
}.

(** [if (paymentMethodId)]: the payment method is attached to the intent
    when it is given and not empty. *)
Definition attached_method (pm : option string) : option string :=
  match pm with
  | Some m => if String.eqb m EmptyString then None else Some m
  | None => None
  end.

Definition payment_processing_error : Response :=
  {| http := 500; message := "Payment processing error" |}.

Definition create_intent (gw : Gateway) (r : IntentReq) (db : Db) : Response * Db :=
  match orders db !! pi_order r with
  | None => (order_not_found, db)
  | Some o =>
      if negb (String.eqb (customer_id o) (pi_user r)) then
        ({| http := 403; message := "Not authorized to pay for this order" |}, db)
      else if negb (status_eqb (status o) pending) then
        ({| http := 400; message := "Order cannot be paid at this stage" |}, db)
      else if pstatus_eqb (pstatus (payment o)) pay_completed then
        ({| http := 400; message := "Order has already been paid" |}, db)
      else
        let amount := Js.round (total (pricing o) * 100) in
        (* [order.restaurant.name] on the populated order *)
        match restaurants db !! restaurant o with
        | None => (payment_processing_error, db)
        | Some _ =>
            match paymentIntents_create gw amount
                    (attached_method (pi_paymentMethodId r)) with
            | inl _ => (payment_processing_error, db)
            | inr paymentIntent =>
                let o' := set_payment
                            (set_pstatus pay_processing
                               (set_stripePaymentIntentId (intent_id paymentIntent)
                                  (payment o))) o in
                ({| http := 200; message := EmptyString |},
                 with_orders (<[pi_order r := o']> (orders db)) db)
            end
        end
  end.

(** ** POST /api/payments/confirm *)

Record ConfirmReq := { cf_user : string; cf_paymentIntentId : string }.

Definition payment_confirmation_error : Response :=
  {| http := 500; message := "Payment confirmation error" |}.

(** The payment fields written when the gateway reports success. *)
Definition mark_paid (now : Z) (id : string) (o : Order) : Order :=
  set_payment
    (set_transactionId id (set_paidAt now (set_pstatus pay_completed (payment o)))) o.

(** The chain of tests on [paymentIntent.status] and the saves: on
    success the payment fields are written and [updateStatus('confirmed')]
    is called, whatever the status of the order; [None] is a rejected
    save. *)
Definition apply_intent (now : Z) (paymentIntent : Intent) (o : Order)
    : option Order :=
  match intent_status paymentIntent with
  | succeeded =>
      updateStatus now confirmed no_data
        (mark_paid now (intent_id paymentIntent) o)
  | requires_action =>
      Some (set_payment (set_pstatus pay_processing (payment o)) o)
  | payment_failed =>
      Some (set_payment (set_pstatus pay_failed (payment o)) o)
  | other_intent_status => Some o
  end.

Definition confirm_payment (gw : Gateway) (now : Z) (r : ConfirmReq) (db : Db)
    : Response * Db :=
  if String.eqb (cf_paymentIntentId r) EmptyString then (validation_failed, db)
  else
    match paymentIntents_retrieve gw (cf_paymentIntentId r) with
    | inl _ => (payment_confirmation_error, db)
    | inr None => ({| http := 404; message := "Payment intent not found" |}, db)
    | inr (Some paymentIntent) =>
        match find_by_intent (orders db) (cf_paymentIntentId r) with
        | None => ({| http := 404; message := "Order not found for this payment" |}, db)
        | Some (k, o) =>
            if negb (String.eqb (customer_id o) (cf_user r)) then
              ({| http := 403; message := "Not authorized to confirm this payment" |}, db)
            else
              match apply_intent now paymentIntent o with
              | None => (payment_confirmation_error, db)
              | Some o' =>
                  ({| http := 200; message := "Payment status updated" |},
                   with_orders (<[k := o']> (orders db)) db)
              end
        end
    end.

(** ** POST /api/payments/refund *)

Record RefundReq := {
  rf_user : string;
  rf_role : Role;
  rf_order : string;
  rf_amount : option Q;
  rf_reason : option string
}.

(** The validators: an amount that is given is not negative, a reason
    that is given has at most 500 characters. *)
Definition refund_valid (r : RefundReq) : bool :=
  match rf_amount r with Some a => Qle_bool 0 a | None => true end
  && match rf_reason r with Some s => (String.length s <=? 500)%nat | None => true end.

Definition refund_error : Response :=
  {| http := 500; message := "Error processing refund" |}.

(** [amount ? Math.round(amount * 100) : Math.round(total * 100)] *)
Definition refund_cents (amount : option Q) (o : Order) : Z :=
  match amount with
  | Some a => if Qeq_bool a 0 then Js.round (total (pricing o) * 100)
              else Js.round (a * 100)
  | None => Js.round (total (pricing o) * 100)
  end.

Definition has_intent (o : Order) : option string :=
  match stripePaymentIntentId (payment o) with
  | Some i => if String.eqb i EmptyString then None else Some i
  | None => None
  end.

Definition refund_order (gw : Gateway) (now : Z) (r : RefundReq) (db : Db)
    : Response * Db :=
  if negb (refund_valid r) then (validation_failed, db)
  else
    match orders db !! rf_order r with
    | None => (order_not_found, db)
    | Some o =>
        match party_authorized db o (rf_user r) (rf_role r) with
        | None => (refund_error, db)
        | Some false =>
            ({| http := 403; message := "Not authorized to refund this order" |}, db)
        | Some true =>
            if negb (pstatus_eqb (pstatus (payment o)) pay_completed) then
              ({| http := 400; message := "Order payment is not completed" |}, db)
            else
              match has_intent o with
              | None =>
                  ({| http := 400;
                      message := "No payment intent found for this order" |}, db)
              | Some intent =>
                  let refundAmount := refund_cents (rf_amount r) o in
                  match refunds_create gw intent refundAmount with
                  | inl _ => (refund_error, db)
                  | inr _ =>
                      let o1 := set_payment
                                  (set_refund now (inject_Z refundAmount / 100)
                                     (set_pstatus pay_refunded (payment o))) o in
                      let ad :=
                        {| ad_estimatedTime := None; ad_estimatedArrival := None;
                           ad_deliveredBy := None; ad_signature := None;
                           ad_photo := None;
                           ad_reason := Some (Js.str_or (rf_reason r) "Payment refunded");
                           ad_cancelledBy := Some (role_name (rf_role r)) |} in
                      match updateStatus now refunded ad o1 with
                      | None => (refund_error, db)
                      | Some o' =>
                          ({| http := 200; message := "Refund processed successfully" |},
                           with_orders (<[rf_order r := o']> (orders db)) db)
                      end
                  end
              end
        end
    end.

(** ** POST /api/payments/webhook *)

Record WebhookReq := { wh_body : string; wh_signature : string }.

Definition received : Response := {| http := 200; message := "received" |}.

(** The [payment_intent.succeeded] case on the order that was found:
    the payment fields are written, and [updateStatus('confirmed')] is
    called only when the order is still pending. *)
Definition apply_succeeded_event (now : Z) (id : string) (o : Order)
    : option Order :=
  let o1 := mark_paid now id o in
  if status_eqb (status o1) pending
  then updateStatus now confirmed no_data o1
  else Some o1.

Definition webhook (gw : Gateway) (now : Z) (r : WebhookReq) (db : Db)
    : Response * Db :=
  match webhooks_constructEvent gw (wh_body r) (wh_signature r) with
  | inl err => ({| http := 400; message := "Webhook Error: " ++ err |}, db)
  | inr event =>
      match ev_type event with
      | payment_intent_succeeded =>
          match find_by_intent (orders db) (ev_object event) with
          | Some (k, o) =>
              match apply_succeeded_event now (ev_object event) o with
              | None => ({| http := 500; message := "Webhook handler failed" |}, db)
              | Some o' =>
                  (received, with_orders (<[k := o']> (orders db)) db)
              end
          | None => (received, db)
          end
      | payment_intent_payment_failed =>
          match find_by_intent (orders db) (ev_object event) with
          | Some (k, o) =>
              (received,
               with_orders
                 (<[k := set_payment (set_pstatus pay_failed (payment o)) o]>
                    (orders db)) db)
          | None => (received, db)
          end
      | other_event => (received, db)
      end
  end.

(** ** Further methods of the order model *)

(** The virtual [orderDuration]: delivery time minus placement time. *)
Definition orderDuration (o : Order) : option Z :=
  match trk_delivered (tracking o) with
  | Some d => Some (dl_timestamp d - orderPlaced (tracking o))%Z
  | None => None
  end.

(** The virtual [estimatedTimeRemaining], in minutes: [null] without an
    estimate or once delivered, otherwise the remaining milliseconds
    divided by 60000 and rounded up, or 0 when the estimate has passed. *)
Definition estimatedTimeRemaining (now : Z) (o : Order) : option Z :=
  match estimatedDeliveryTime o with
  | Some t =>
      if status_eqb (status o) delivered then None
      else
        let remaining := (t - now)%Z in
        Some (if (0 <? remaining)%Z
              then Qceiling (inject_Z remaining / inject_Z (1000 * 60))
              else 0%Z)
  | None => None
  end.

(** ** The user collection and the role middleware *)

(** An address of the user's address book ([userSchema.addresses]). *)
Record Address := {
  addr_id : string;
  addr_type : string;
  street : string;
  city : string;
  state : string;
  zipCode : string;
  isDefault : bool
}.

(** The fields of a user document that the routes below read or write. *)
Record User := {
  u_role : Role;
  u_isActive : bool;
  u_phone : string;
  addresses : list Address;
  favoriteRestaurants : list string
}.

Definition role_eqb (a b : Role) : bool :=
  match a, b with
  | customer, customer | restaurant_owner, restaurant_owner
  | delivery_driver, delivery_driver | admin, admin => true
  | _, _ => false
  end.

(** [authorize(...roles)] after [protect]: [None] lets the request
    through, [Some] is the 403 of the middleware. *)
Definition authorize (roles : list Role) (role : Role) : option Response :=
  if existsb (role_eqb role) roles then None
  else Some {| http := 403;
               message := "User role '" ++ role_name role
                          ++ "' is not authorized to access this route" |}.

(** ** PUT /api/orders/:id/assign-driver *)

Record AssignReq := {
  as_user : string;
  as_role : Role;
  as_order : string;
  as_driverId : string
}.

Definition set_deliveryDriver (d : option string) (o : Order) : Order :=
  {| customer_id := customer_id o; restaurant := restaurant o; items := items o;
     orderType := orderType o; status := status o;
     deliveryAddress := deliveryAddress o;
     scheduledDeliveryTime := scheduledDeliveryTime o;
     estimatedDeliveryTime := estimatedDeliveryTime o;
     actualDeliveryTime := actualDeliveryTime o;
     pricing := pricing o; payment := payment o;
     deliveryDriver := d; tracking := tracking o |}.

(** [req.user.role === 'restaurant_owner' &&
    !order.restaurant.owner.equals(req.user.id)]; [None] when the
    property access throws. *)
Definition foreign_owner (db : Db) (o : Order) (uid : string) (role : Role)
    : option bool :=
  match role with
  | restaurant_owner =>
      match owner_equals db o uid with
      | Some b => Some (negb b)
      | None => None
      end
  | _ => Some false
  end.

(** The driver's phone is copied to [contactInfo.driverPhone], a field
    that is left out of the order here.  The order is saved and then
    sent with its populated restaurant. *)
Definition assign_driver (users : gmap string User) (r : AssignReq) (db : Db)
    : Response * Db :=
  match authorize [admin; restaurant_owner] (as_role r) with
  | Some resp => (resp, db)
  | None =>
      match orders db !! as_order r with
      | None => (order_not_found, db)
      | Some o =>
          match foreign_owner db o (as_user r) (as_role r) with
          | None => (server_error, db)
          | Some true =>
              ({| http := 403;
                  message := "Not authorized to assign driver for this order" |}, db)
          | Some false =>
              match users !! as_driverId r with
              | None =>
                  ({| http := 400;
                      message := "Invalid or inactive delivery driver" |}, db)
              | Some driver =>
                  if negb (role_eqb (u_role driver) delivery_driver)
                     || negb (u_isActive driver) then
                    ({| http := 400;
                        message := "Invalid or inactive delivery driver" |}, db)
                  else
                    let o' := set_deliveryDriver (Some (as_driverId r)) o in
                    (json_populated db o'
                       {| http := 200;
                          message := "Delivery driver assigned successfully" |},
                     with_orders (<[as_order r := o']> (orders db)) db)
              end
          end
      end
  end.

(** ** POST /api/orders/:id/repeat *)

Record RepeatReq := {
  rp_user : string;
  rp_order : string;
  rp_deliveryAddress : option string;
  rp_paymentMethod : option PaymentMethod
}.

(** [newOrderData] with the defaults of the schema: status pending,
    placement stamped, no estimate and no driver. *)
Definition newOrderData (now : Z) (r : RepeatReq) (originalOrder : Order) : Order :=
  {| customer_id := rp_user r;
     restaurant := restaurant originalOrder;
     items := items originalOrder;
     orderType := orderType originalOrder;
     status := pending;
     deliveryAddress := match rp_deliveryAddress r with
                        | Some a => Some a
                        | None => deliveryAddress originalOrder
                        end;
     scheduledDeliveryTime := None;
     estimatedDeliveryTime := None;
     actualDeliveryTime := None;
     pricing := pricing originalOrder;
     payment := {| method := match rp_paymentMethod r with
                             | Some m => m
                             | None => method (payment originalOrder)
                             end;
                   pstatus := pay_pending;
                   transactionId := None; stripePaymentIntentId := None;
                   paidAt := None; refundedAt := None; refundAmount := None |};
     deliveryDriver := None;
     tracking := new_tracking now |}.

(** The handler.  [newOrderData] has no key [orderNumber] either, so
    [Order.create] throws here as well. *)
Definition repeat_order (now : Z) (newId : string) (r : RepeatReq) (db : Db)
    : Response * Db :=
  match orders db !! rp_order r with
  | None => ({| http := 404; message := "Original order not found" |}, db)
  | Some originalOrder =>
      if negb (String.eqb (customer_id originalOrder) (rp_user r)) then
        ({| http := 403; message := "Not authorized to repeat this order" |}, db)
      else
        match restaurants db !! restaurant originalOrder with
        | None =>
            ({| http := 400; message := "Restaurant is no longer available" |}, db)
        | Some rest =>
            if negb (isActive rest) then
              ({| http := 400; message := "Restaurant is no longer available" |}, db)
            else
              match Order_create newId None (newOrderData now r originalOrder)
                      (orders db) with
              | None => (server_error, db)
              | Some os =>
                  ({| http := 201; message := "Order repeated successfully" |},
                   with_orders os db)
              end
        end
  end.

(** ** The address book and the favorites of a user *)

(** The handlers below work on the document of the authenticated user,
    which [protect] has found, and [user.save()] persists it when the
    validators of the modified paths accept it: the password hook of the
    user model calls [next()] first and these routes do not load the
    password. *)

Definition set_addresses (l : list Address) (u : User) : User :=
  {| u_role := u_role u; u_isActive := u_isActive u; u_phone := u_phone u;
     addresses := l; favoriteRestaurants := favoriteRestaurants u |}.

Definition set_favoriteRestaurants (l : list string) (u : User) : User :=
  {| u_role := u_role u; u_isActive := u_isActive u; u_phone := u_phone u;
     addresses := addresses u; favoriteRestaurants := l |}.

Definition set_isDefault (b : bool) (a : Address) : Address :=
  {| addr_id := addr_id a; addr_type := addr_type a; street := street a;
     city := city a; state := state a; zipCode := zipCode a; isDefault := b |}.

(** The enum of the address type. *)
Definition address_types : list string := ["home"; "work"; "other"].

Definition nonempty (s : string) : bool := negb (String.eqb s EmptyString).

(** What [user.save()] checks on an address: the type is in the enum and
    the required strings are not empty. *)
Definition address_valid (a : Address) : bool :=
  existsb (String.eqb (addr_type a)) address_types
  && nonempty (street a) && nonempty (city a)
  && nonempty (state a) && nonempty (zipCode a).

(** POST /api/users/addresses: the body.  [aa_isDefault] is the boolean
    of the body when there is one. *)
Record AddAddressReq := {
  aa_type : string;
  aa_street : string;
  aa_city : string;
  aa_state : string;
  aa_zipCode : string;
  aa_isDefault : option bool
}.

(** The request validators: the type is one of the three and the four
    strings are not empty. *)
Definition add_address_valid (r : AddAddressReq) : bool :=
  existsb (String.eqb (aa_type r)) address_types
  && nonempty (aa_street r) && nonempty (aa_city r)
  && nonempty (aa_state r) && nonempty (aa_zipCode r).

(** The handler on the user's document; [newId] is the id the new
    sub-document gets.  The new address is the default when the body says
    so or when it is the first one, and then every other address stops
    being the default. *)
Definition add_address (newId : string) (r : AddAddressReq) (u : User)
    : Response * User :=
  if negb (add_address_valid r) then (validation_failed, u)
  else
    let isDef :=
      match aa_isDefault r with Some b => b | None => false end
      || (length (addresses u) =? 0)%nat in
    let newAddress :=
      {| addr_id := newId; addr_type := aa_type r; street := aa_street r;
         city := aa_city r; state := aa_state r; zipCode := aa_zipCode r;
         isDefault := isDef |} in
    let existing :=
      if isDef then map (set_isDefault false) (addresses u) else addresses u in
    ({| http := 201; message := "Address added successfully" |},
     set_addresses (existing ++ [newAddress])%list u).

(** PUT /api/users/addresses/:addressId: the fields of the body that
    are present. *)
Record UpdateAddressReq := {
  ua_id : string;
  ua_type : option string;
  ua_street : option string;
  ua_city : option string;
  ua_state : option string;
  ua_zipCode : option string;
  ua_isDefault : option bool
}.

Definition or_keep {A} (x : option A) (old : A) : A :=
  match x with Some v => v | None => old end.

(** The loop over [allowedFields]. *)
Definition update_fields (r : UpdateAddressReq) (a : Address) : Address :=
  {| addr_id := addr_id a;
     addr_type := or_keep (ua_type r) (addr_type a);
     street := or_keep (ua_street r) (street a);
     city := or_keep (ua_city r) (city a);
     state := or_keep (ua_state r) (state a);
     zipCode := or_keep (ua_zipCode r) (zipCode a);
     isDefault := or_keep (ua_isDefault r) (isDefault a) |}.

(** The sub-document found by [addresses.id(id)] is the first with that
    id; it is the one that is changed. *)
Fixpoint change_first (id : string) (f : Address -> Address) (l : list Address)
    : list Address :=
  match l with
  | [] => []
  | a :: rest =>
      if String.eqb (addr_id a) id then f a :: rest
      else a :: change_first id f rest
  end.

Fixpoint remove_first (id : string) (l : list Address) : list Address :=
  match l with
  | [] => []
  | a :: rest =>
      if String.eqb (addr_id a) id then rest
      else a :: remove_first id rest
  end.

Definition address_not_found : Response :=
  {| http := 404; message := "Address not found" |}.

Definition update_address (r : UpdateAddressReq) (u : User) : Response * User :=
  match find (fun a => String.eqb (addr_id a) (ua_id r)) (addresses u) with
  | None => (address_not_found, u)
  | Some address =>
      let l := change_first (ua_id r) (update_fields r) (addresses u) in
      let l := match ua_isDefault r with
               | Some true =>
                   map (fun a => if String.eqb (addr_id a) (ua_id r) then a
                                 else set_isDefault false a) l
               | _ => l
               end in
      if address_valid (update_fields r address) then
        ({| http := 200; message := "Address updated successfully" |},
         set_addresses l u)
      else (server_error, u)
  end.

(** DELETE /api/users/addresses/:addressId *)
Definition delete_address (id : string) (u : User) : Response * User :=
  match find (fun a => String.eqb (addr_id a) id) (addresses u) with
  | None => (address_not_found, u)
  | Some _ =>
      ({| http := 200; message := "Address deleted successfully" |},
       set_addresses (remove_first id (addresses u)) u)
  end.

(** The virtual [defaultAddress] of the user model: the address marked
    as default, or else the first one. *)
Definition defaultAddress (u : User) : option Address :=
  match find isDefault (addresses u) with
  | Some a => Some a
  | None => head (addresses u)
  end.

(** POST /api/users/favorites/:restaurantId *)
Definition add_favorite (rid : string) (db : Db) (u : User) : Response * User :=
  match restaurants db !! rid with
  | None => ({| http := 404; message := "Restaurant not found" |}, u)
  | Some _ =>
      if existsb (String.eqb rid) (favoriteRestaurants u) then
        ({| http := 400; message := "Restaurant already in favorites" |}, u)
      else
        ({| http := 200; message := "Restaurant added to favorites" |},
         set_favoriteRestaurants (favoriteRestaurants u ++ [rid])%list u)
  end.

(** DELETE /api/users/favorites/:restaurantId *)
Definition remove_favorite (rid : string) (u : User) : Response * User :=
  ({| http := 200; message := "Restaurant removed from favorites" |},
   set_favoriteRestaurants
     (List.filter (fun id => negb (String.eqb id rid)) (favoriteRestaurants u)) u).

(** ** Fixtures: a restaurant with a two-item menu *)

Module Sample.

Definition pizza : MenuItem :=
  {| mi_id := "m1"; mi_name := "Pizza"; mi_price := 10; isAvailable := true;
     sizes := [ {| size_name := "large"; size_price := 14 |} ];
     mi_customizations :=
       [ {| cust_name := "toppings";
            cust_options := [ {| opt_name := "cheese"; opt_price := 3 # 2 |} ] |} ] |}.

Definition soup : MenuItem :=
  {| mi_id := "m2"; mi_name := "Soup"; mi_price := 4; isAvailable := false;
     sizes := []; mi_customizations := [] |}.

Definition bistro : Restaurant :=
  {| owner := "u_owner"; isActive := true; rest_deliveryFee := 3;
     rest_estimatedDeliveryTime := 30; totalOrders := 0; totalRevenue := 0 |}.

Definition db0 : Db :=
  {| orders := ∅;
     restaurants := {[ "r1" := bistro ]};
     menus := {[ "r1" := {| menu_isActive := true; menu_items := [pizza; soup] |} ]} |}.

Definition line (item : string) (q : Z) (sz : option string)
    (cs : option (list ReqCustomization)) : ReqItem :=
  {| ri_menuItem := item; ri_quantity := q; ri_size := sz;
     ri_customizations := cs |}.

Definition request (l : list ReqItem) (ty : OrderType) (addr : option string)
    (tp : option Q) : CreateOrderReq :=
  {| co_user := "u_cust"; co_restaurant := "r1"; co_items := l;
     co_orderType := ty; co_deliveryAddress := addr;
     co_scheduledDeliveryTime := None; co_payment_method := card;
     co_tip := tp |}.

(** An order of the customer [u_cust] at the restaurant [r1], total
    63.00, in a given status and payment state. *)
Definition order (s : OrderStatus) (ps : PaymentStatus) (intent : option string)
    : Order :=
  {| customer_id := "u_cust"; restaurant := "r1"; items := [];
     orderType := delivery; status := s; deliveryAddress := Some "1 Main St";
     scheduledDeliveryTime := None; estimatedDeliveryTime := None;
     actualDeliveryTime := None;
     pricing := {| subtotal := 50; tax := 4; deliveryFee := 3; serviceFee := 1;
                   discount := 0; tip := 5; total := 63 |};
     payment := {| method := card; pstatus := ps; transactionId := None;
                   stripePaymentIntentId := intent; paidAt := None;
                   refundedAt := None; refundAmount := None |};
     deliveryDriver := Some "u_driver";
     tracking := new_tracking 0 |}.

Definition db_with (o : Order) : Db :=
  with_orders {[ "o1" := o ]} db0.

(** A gateway on which every call succeeds; the intent has the given
    status. *)
Definition gateway_ok (st : IntentStatus) : Gateway :=
  {| paymentIntents_create := fun a _ =>
       inr {| intent_id := "pi_1"; client_secret := "secret";
              intent_status := st; intent_amount := a |};
     paymentIntents_retrieve := fun i =>
       inr (Some {| intent_id := i; client_secret := "secret";
                    intent_status := st; intent_amount := 6300 |});
     refunds_create := fun _ a => inr {| refund_id := "re_1"; refund_amount := a |};
     webhooks_constructEvent := fun _ _ =>
       inr {| ev_type := payment_intent_succeeded; ev_object := "pi_1" |} |}.

(** A gateway that cannot be reached. *)
Definition gateway_down : Gateway :=
  {| paymentIntents_create := fun _ _ => inl "connection refused";
     paymentIntents_retrieve := fun _ => inl "connection refused";
     refunds_create := fun _ _ => inl "connection refused";
     webhooks_constructEvent := fun _ _ => inl "connection refused" |}.

(** A user with a home address, which is the default, and a work
    address. *)
Definition home : Address :=
  {| addr_id := "a1"; addr_type := "home"; street := "1 Main St";
     city := "Springfield"; state := "IL"; zipCode := "62701";
     isDefault := true |}.

Definition office : Address :=
  {| addr_id := "a2"; addr_type := "work"; street := "9 Elm St";
     city := "Springfield"; state := "IL"; zipCode := "62702";
     isDefault := false |}.

Definition alice : User :=
  {| u_role := customer; u_isActive := true; u_phone := "555-0100";
     addresses := [home; office]; favoriteRestaurants := ["r2"] |}.

End Sample.

(** ** Vocabulary of the properties *)

(** The sum of the line subtotals, as [calculateTotal] accumulates it. *)
Definition lines_total (l : list OrderItem) : Q :=
  fold_left (fun acc it => (acc + item_subtotal it)%Q) l (0 : Q).

(** A requested item that is not on the menu or is switched off. *)
Definition unavailable (m : Menu) (ri : ReqItem) : Prop :=
  match menu_item m (ri_menuItem ri) with
  | Some mi => isAvailable mi = false
  | None => True
  end.

(** The selection of a requested line cut down to what the menu item
    offers: the size when the item has a size of that name, the
    customizations that the item has, each with the options that the
    customization has. *)
Definition known_size (mi : MenuItem) (sz : option string) : option string :=
  match sz with
  | Some n =>
      if existsb (fun s => String.eqb (size_name s) n) (sizes mi)
      then Some n else None
  | None => None
  end.

Definition known_options (mc : MenuCustomization) (os : list string) : list string :=
  List.filter
    (fun o => existsb (fun m => String.eqb (opt_name m) o) (cust_options mc)) os.

Definition known_customizations (mi : MenuItem) (cs : list ReqCustomization)
    : list ReqCustomization :=
  flat_map
    (fun c =>
       match find (fun mc => String.eqb (cust_name mc) (rc_name c))
                  (mi_customizations mi) with
       | Some mc => [ {| rc_name := rc_name c;
                         rc_options := known_options mc (rc_options c) |} ]
       | None => []
       end) cs.

Definition known_selection (mi : MenuItem) (ri : ReqItem) : ReqItem :=
  {| ri_menuItem := ri_menuItem ri; ri_quantity := ri_quantity ri;
     ri_size := known_size mi (ri_size ri);
     ri_customizations :=
       option_map (known_customizations mi) (ri_customizations ri) |}.

(** A stored line is the snapshot of an available menu item for a
    requested line. *)
Definition line_of (m : Menu) (ri : ReqItem) (it : OrderItem) : Prop :=
  exists mi, menu_item m (ri_menuItem ri) = Some mi /\
    isAvailable mi = true /\ it = order_item mi ri.


(** The transition table as the specification words it: the terminal
    statuses, [refunded] among them, have no target. *)
Definition spec_table (s : OrderStatus) : list OrderStatus :=
  match s with
  | pending => [confirmed; cancelled]
  | confirmed => [preparing; cancelled]
  | preparing => [ready_for_pickup; cancelled]
  | ready_for_pickup => [out_for_delivery; delivered; cancelled]
  | out_for_delivery => [delivered; cancelled]
  | delivered | cancelled | refunded => []
  end.

(** Who may request a target status, as the specification words it:
    the restaurant owner or an admin for the kitchen statuses, the
    assigned driver or an admin for the delivery statuses, the customer,
    the restaurant owner or an admin for a cancellation. *)
Definition spec_allowed (o : Order) (rest : Restaurant) (uid : string)
    (role : Role) (target : OrderStatus) : bool :=
  match target with
  | confirmed | preparing | ready_for_pickup =>
      String.eqb (owner rest) uid || is_admin role
  | out_for_delivery | delivered =>
      driver_equals o uid || is_admin role
  | cancelled =>
      String.eqb (customer_id o) uid || String.eqb (owner rest) uid
      || is_admin role
  | pending | refunded => false
  end.

(** The cancelled sub-record of an order, when there is one, names who
    cancelled with a member of the schema's enum. *)
Definition cancelledBy_ok (o : Order) : bool :=
  match trk_cancelled (tracking o) with
  | None => true
  | Some c =>
      match cancelledBy c with
      | Some s => existsb (String.eqb s) cancelledBy_enum
      | None => false
      end
  end.

Definition db_inv (db : Db) : Prop :=
  forall k o, orders db !! k = Some o -> cancelledBy_ok o = true.

(** The condition under which the cancel route saves a cancellation:
    the order exists, the requester is a party to it, the order is
    pending or confirmed, and the requester's role is one the enum of
    [cancelledBy] has. *)
Definition cancel_saves (r : CancelReq) (db : Db) (o : Order) : Prop :=
  orders db !! cn_order r = Some o /\
  party_authorized db o (cn_user r) (cn_role r) = Some true /\
  canBeCancelled o = true /\
  (cn_role r = customer \/ cn_role r = admin).

(** The condition under which the assign-driver route saves: the order
    exists, the requester is an admin or the owner of the order's
    restaurant, and the driver exists, is a delivery driver and is
    active. *)
Definition assign_saves (users : gmap string User) (r : AssignReq) (db : Db)
    (o : Order) : Prop :=
  orders db !! as_order r = Some o /\
  (as_role r = admin \/
   (as_role r = restaurant_owner /\
    exists rest, restaurants db !! restaurant o = Some rest /\
                 owner rest = as_user r)) /\
  exists drv, users !! as_driverId r = Some drv /\
    u_role drv = delivery_driver /\ u_isActive drv = true.

(** The same refund request with another amount. *)
Definition with_amount (a : option Q) (r : RefundReq) : RefundReq :=
  {| rf_user := rf_user r; rf_role := rf_role r; rf_order := rf_order r;
     rf_amount := a; rf_reason := rf_reason r |}.

(** One request served: the collections before and after. *)
Inductive step : Db -> Db -> Prop :=
| step_create now id r db :
    step db (snd (create_order now id r db))
| step_status now r db :
    step db (snd (update_status now r db))
| step_cancel now r db :
    step db (snd (cancel_order now r db))
| step_intent gw r db :
    step db (snd (create_intent gw r db))
| step_confirm gw now r db :
    step db (snd (confirm_payment gw now r db))
| step_refund gw now r db :
    step db (snd (refund_order gw now r db))
| step_webhook gw now r db :
    step db (snd (webhook gw now r db)).

(** The stage of a status in the life of an order; the three terminal
    statuses share the last stage. *)
Definition rank (s : OrderStatus) : nat :=
  match s with
  | pending => 0
  | confirmed => 1
  | preparing => 2
  | ready_for_pickup => 3
  | out_for_delivery => 4
  | delivered | cancelled | refunded => 5
  end.

(** The timestamp that the tracking sub-record holds for a status;
    there is no sub-record for [refunded]. *)
Definition tracking_stamp (s : OrderStatus) (o : Order) : option Z :=
  match s with
  | pending => Some (orderPlaced (tracking o))
  | confirmed => option_map est_timestamp (orderConfirmed (tracking o))
  | preparing => option_map est_timestamp (preparationStarted (tracking o))
  | ready_for_pickup => readyForPickup (tracking o)
  | out_for_delivery => option_map fst (outForDelivery (tracking o))
  | delivered => option_map dl_timestamp (trk_delivered (tracking o))
  | cancelled => option_map cn_timestamp (trk_cancelled (tracking o))
  | refunded => None
  end.

(** The status an order is in has its timestamp, and a delivered order
    has its delivery time. *)
Definition tracking_wf (o : Order) : Prop :=
  (status o <> refunded -> is_Some (tracking_stamp (status o) o)) /\
  (status o = delivered -> is_Some (actualDeliveryTime o)).

(** The payment sub-record is coherent: a completed payment has its
    time and transaction, a payment past [pending] has its intent on
    record, a refunded payment has its refund data and belongs to a
    refunded order. *)
Definition payment_wf (o : Order) : Prop :=
  let p := payment o in
  (pstatus p = pay_completed -> is_Some (paidAt p) /\ is_Some (transactionId p)) /\
  (pstatus p <> pay_pending -> is_Some (stripePaymentIntentId p)) /\
  (pstatus p = pay_refunded ->
     status o = refunded /\ is_Some (refundedAt p) /\ is_Some (refundAmount p)).

Definition all_orders (P : Order -> Prop) (db : Db) : Prop :=
  forall k o, orders db !! k = Some o -> P o.

(** One request served by any of the modelled order and payment routes. *)
Inductive route_step : Db -> Db -> Prop :=
| route_base db db' : step db db' -> route_step db db'
| route_assign users r db :
    route_step db (snd (assign_driver users r db))
| route_repeat now id r db :
    route_step db (snd (repeat_order now id r db)).

(** No price on the menu is negative. *)
Definition item_nonneg (mi : MenuItem) : Prop :=
  (0 <= mi_price mi)%Q /\
  Forall (fun s => (0 <= size_price s)%Q) (sizes mi) /\
  Forall (fun c => Forall (fun x => (0 <= opt_price x)%Q) (cust_options c))
         (mi_customizations mi).

Definition menu_nonneg (m : Menu) : Prop := Forall item_nonneg (menu_items m).

Definition with_menus (ms : gmap string Menu) (db : Db) : Db :=
  {| orders := orders db; restaurants := restaurants db; menus := ms |}.

(** The number of addresses marked as default. *)
Definition defaults (l : list Address) : nat :=
  length (List.filter isDefault l).

(** The address book is well formed: the ids are distinct and at most
    one address is the default. *)
Definition book_wf (u : User) : Prop :=
  NoDup (map addr_id (addresses u)) /\ defaults (addresses u) <= 1.

(** * Properties *)

(** ** Pricing at order creation *)

Section Pricing.

Local Open Scope Q_scope.

Lemma fold_subtotal_shift (l : list OrderItem) (a : Q) :
  fold_left (fun acc it => acc + item_subtotal it) l a == a + lines_total l.
Proof.
  unfold lines_total. revert a.
  induction l as [|x l IH]; intros a; simpl.
  - lra.
  - rewrite (IH (a + item_subtotal x)), (IH (0 + item_subtotal x)). lra.
Qed.

Lemma lines_total_app (l1 l2 : list OrderItem) :
  lines_total (l1 ++ l2) == lines_total l1 + lines_total l2.
Proof.
  unfold lines_total at 1. rewrite fold_left_app.
  rewrite fold_subtotal_shift. reflexivity.
Qed.

(** The loop keeps [subtotal] equal to the sum of the lines pushed so
    far. *)
Lemma price_items_subtotal (m : Menu) (l : list ReqItem) :
  forall acc sub its sub',
    sub == lines_total acc ->
    price_items m l acc sub = inr (its, sub') ->
    sub' == lines_total its.
Proof.
  induction l as [|ri l IH]; intros acc sub its sub' Hsub H; simpl in H.
  - injection H as <- <-. exact Hsub.
  - destruct (menu_item m (ri_menuItem ri)) as [mi|]; [|discriminate].
    destruct (isAvailable mi); simpl in H; [|discriminate].
    eapply IH; [|exact H].
    rewrite lines_total_app, Hsub. unfold lines_total at 3. simpl. lra.
Qed.

(** The loop fails only with the 400 that names an item. *)
Lemma price_items_inl (m : Menu) (l : list ReqItem) :
  forall acc sub resp,
    price_items m l acc sub = inl resp ->
    exists ri, In ri l /\ resp = item_not_available (ri_menuItem ri).
Proof.
  induction l as [|ri l IH]; intros acc sub resp H; simpl in H; [discriminate|].
  destruct (menu_item m (ri_menuItem ri)) as [mi|].
  - destruct (isAvailable mi); simpl in H.
    + destruct (IH _ _ _ H) as (x & Hin & ->). exists x. split; [right|]; auto.
    + injection H as <-. exists ri. split; [left|]; auto.
  - injection H as <-. exists ri. split; [left|]; auto.
Qed.

(** What the handler has checked and computed when it reaches
    [Order.create]. *)
Lemma create_order_data_inr now r db o :
  create_order_data now r db = inr o ->
  exists rest m its sub,
    create_valid r = true /\
    restaurants db !! co_restaurant r = Some rest /\ isActive rest = true /\
    menus db !! co_restaurant r = Some m /\ menu_isActive m = true /\
    price_items m (co_items r) [] 0 = inr (its, sub) /\
    o = orderData now r rest its sub.
Proof.
  unfold create_order_data. intros H.
  destruct (create_valid r) eqn:Hv; simpl in H; [|discriminate].
  destruct (restaurants db !! co_restaurant r) as [rest|] eqn:Hr; [|discriminate].
  destruct (isActive rest) eqn:Ha; simpl in H; [|discriminate].
  destruct (menus db !! co_restaurant r) as [m|] eqn:Hm; [|discriminate].
  destruct (menu_isActive m) eqn:Hma; simpl in H; [|discriminate].
  destruct (price_items m (co_items r) [] 0) as [resp|[its sub]] eqn:Hp;
    [discriminate|].
  injection H as <-. exists rest, m, its, sub. repeat split; assumption.
Qed.

(** Creation stores nothing and never answers 201: the handler ends in
    one of its early returns or in the 500 that follows the rejected
    [Order.create]. *)
Lemma create_order_outcome now id r db :
  create_order now id r db =
  match create_order_data now r db with
  | inl resp => (resp, db)
  | inr _ => (server_error, db)
  end.
Proof.
  unfold create_order. destruct (create_order_data now r db); reflexivity.
Qed.

(** Repeating an order stores nothing either. *)
Lemma repeat_order_unchanged now id r db :
  snd (repeat_order now id r db) = db.
Proof.
  unfold repeat_order.
  change (Order_create id None) with (fun (_ : Order) (_ : Orders) => @None Orders).
  repeat case_match; reflexivity.
Qed.

(** The breakdown in the data handed to [Order.create], in the exact
    arithmetic of the model: the subtotal is the sum of the lines, the
    rates are 8% and 2%, the delivery fee is the restaurant's for a
    delivery, the discount is 0 and the total is the sum of the parts.
    The total is not floored. *)
Lemma create_order_breakdown now r db o :
  create_order_data now r db = inr o ->
  exists rest,
    restaurants db !! co_restaurant r = Some rest /\
    let p := pricing o in
    subtotal p == lines_total (items o) /\
    tax p == subtotal p * (8 # 100) /\
    serviceFee p == subtotal p * (2 # 100) /\
    deliveryFee p = match co_orderType r with
                    | delivery => rest_deliveryFee rest
                    | pickup => 0
                    end /\
    discount p = 0 /\
    tip p = Js.num_or (co_tip r) 0 /\
    total p == subtotal p + tax p + deliveryFee p + serviceFee p + tip p - discount p.
Proof.
  intros H. destruct (create_order_data_inr _ _ _ _ H)
    as (rest & m & its & sub & _ & Hr & _ & _ & _ & Hp & ->).
  exists rest.
  repeat split; try assumption; simpl; try reflexivity.
  - eapply price_items_subtotal; [|exact Hp]. reflexivity.
  - lra.
Qed.

End Pricing.

Section PricingScenarios.

Local Open Scope Q_scope.

(** The spec's scenario: subtotal 50.00, tip 5.00, delivery fee 3.00
    give tax 4.00, service fee 1.00 and total 63.00. *)
Example pricing_scenario :
  let p := order_pricing 50 delivery 3 (Some 5) in
  tax p == 4 /\ serviceFee p == 1 /\ deliveryFee p == 3 /\ discount p == 0 /\
  total p == 63.
Proof. vm_compute. repeat split. Qed.

Lemma max_zero_nonneg (x : Q) : 0 <= x -> Js.max x 0 == x.
Proof.
  intros H. unfold Js.max.
  destruct (Qle_bool 0 x) eqn:E; [reflexivity|].
  apply Qle_bool_iff in H. congruence.
Qed.

(** With amounts that are not negative the floor changes nothing, and
    the total of the handler is the floored total. *)
Lemma order_pricing_floor_nonneg (sub fee : Q) (ty : OrderType) (tp : option Q) :
  0 <= sub -> 0 <= fee -> 0 <= Js.num_or tp 0 ->
  let p := order_pricing sub ty fee tp in
  total p ==
    Js.max (subtotal p + tax p + deliveryFee p + serviceFee p + tip p - discount p) 0.
Proof.
  intros Hs Hf Ht p. rewrite max_zero_nonneg.
  - subst p. simpl. lra.
  - subst p. simpl. destruct ty; lra.
Qed.

(** C1 (the code departs from the claim).  A creation request whose
    [tip] is -100 passes the request validators, which do not look at
    the tip.  For one pizza at 10.00 for delivery (fee 3.00) the
    handler computes 10 + 0.80 + 3 + 0.20 - 100 = -86 and hands that
    total to [Order.create]: it adds the parts and does not floor the
    sum at 0, which the model's own [calculateTotal] does on the same
    data.  (All the amounts here are exact in binary floating point.)
    The request then ends as every request that reaches [Order.create]
    does, in the 500 with nothing stored. *)
Theorem create_order_total_not_floored :
  let r := Sample.request [Sample.line "m1" 1 None None] delivery
             (Some "1 Main St") (Some (-100 # 1)) in
  create_valid r = true /\
  (exists o, create_order_data 1000 r Sample.db0 = inr o /\
     let p := pricing o in
     tax p == subtotal p * (8 # 100) /\
     serviceFee p == subtotal p * (2 # 100) /\
     total p == -86 # 1 /\
     ~ total p ==
         Js.max (subtotal p + tax p + deliveryFee p + serviceFee p + tip p - discount p) 0 /\
     total (pricing (calculateTotal o)) == 0) /\
  create_order 1000 "o1" r Sample.db0 = (server_error, Sample.db0).
Proof.
  intros r.
  split; [vm_compute; reflexivity|]. split.
  - eexists. split; [vm_compute; reflexivity|].
    vm_compute. repeat split; intros H; discriminate H.
  - vm_compute. reflexivity.
Qed.

End PricingScenarios.

(** ** Item checks and selections at order creation *)

Section Selections.

Lemma price_items_unavailable (m : Menu) (l : list ReqItem) :
  Exists (unavailable m) l ->
  exists ri, In ri l /\ unavailable m ri /\
    forall acc sub,
      price_items m l acc sub = inl (item_not_available (ri_menuItem ri)).
Proof.
  induction l as [|x l IH]; intros H.
  - inversion H.
  - destruct (menu_item m (ri_menuItem x)) as [mi|] eqn:Em.
    + destruct (isAvailable mi) eqn:Ea.
      * assert (Hl : Exists (unavailable m) l).
        { inversion H as [? ? Hx|]; subst; [|assumption].
          unfold unavailable in Hx. rewrite Em in Hx. congruence. }
        destruct (IH Hl) as (ri & Hin & Hun & Hp).
        exists ri. split; [right; exact Hin|]. split; [exact Hun|].
        intros acc sub. simpl. rewrite Em, Ea. simpl. apply Hp.
      * exists x. split; [left; reflexivity|]. split.
        -- unfold unavailable. rewrite Em. exact Ea.
        -- intros acc sub. simpl. rewrite Em, Ea. reflexivity.
    + exists x. split; [left; reflexivity|]. split.
      * unfold unavailable. rewrite Em. exact I.
      * intros acc sub. simpl. rewrite Em. reflexivity.
Qed.

Lemma price_items_available (m : Menu) (l : list ReqItem) :
  Forall (fun ri => ~ unavailable m ri) l ->
  forall acc sub, exists its s, price_items m l acc sub = inr (its, s).
Proof.
  induction 1 as [|x l Hx _ IH]; intros acc sub; simpl.
  - eauto.
  - unfold unavailable in Hx.
    destruct (menu_item m (ri_menuItem x)) as [mi|]; [|tauto].
    destruct (isAvailable mi); [|congruence]. simpl. apply IH.
Qed.

(** Past the validators and the lookups, the handler is the pricing
    loop followed by the construction of [orderData]. *)
Lemma create_order_data_priced now r db rest m :
  create_valid r = true ->
  restaurants db !! co_restaurant r = Some rest -> isActive rest = true ->
  menus db !! co_restaurant r = Some m -> menu_isActive m = true ->
  create_order_data now r db =
  match price_items m (co_items r) [] 0 with
  | inl resp => inl resp
  | inr (orderItems, sub) => inr (orderData now r rest orderItems sub)
  end.
Proof.
  intros Hv Hr Ha Hm Hma.
  unfold create_order_data. rewrite Hv, Hr, Ha, Hm, Hma. reflexivity.
Qed.

Lemma price_items_lines (m : Menu) (l : list ReqItem) :
  forall acc sub its sub',
    price_items m l acc sub = inr (its, sub') ->
    exists new, its = (acc ++ new)%list /\ Forall2 (line_of m) l new.
Proof.
  induction l as [|ri l IH]; intros acc sub its sub' H; simpl in H.
  - injection H as <- _. exists []. split; [symmetry; apply app_nil_r|constructor].
  - destruct (menu_item m (ri_menuItem ri)) as [mi|] eqn:Em; [|discriminate].
    destruct (isAvailable mi) eqn:Ea; simpl in H; [|discriminate].
    destruct (IH _ _ _ _ H) as (new & -> & Hnew).
    exists (order_item mi ri :: new). split.
    + rewrite <- app_assoc. reflexivity.
    + constructor; [|exact Hnew]. exists mi. auto.
Qed.

Lemma existsb_find {A} (f : A -> bool) (l : list A) :
  existsb f l = match find f l with Some _ => true | None => false end.
Proof.
  induction l as [|x l IH]; simpl; [reflexivity|].
  destruct (f x); simpl; [reflexivity|exact IH].
Qed.

(** A size that the item does not have is priced as no size. *)
Lemma itemPrice_known mi sz : itemPrice mi sz = itemPrice mi (known_size mi sz).
Proof.
  unfold itemPrice, known_size. destruct sz as [n|]; [|reflexivity].
  rewrite existsb_find.
  destruct (find (fun s => String.eqb (size_name s) n) (sizes mi)) as [s|] eqn:E.
  - rewrite E. reflexivity.
  - destruct (0 <? length (sizes mi))%nat; reflexivity.
Qed.

(** An option that the customization does not have adds nothing. *)
Lemma fold_add_option_known mc os :
  forall acc,
    fold_left (add_option mc) os acc
    = fold_left (add_option mc) (known_options mc os) acc.
Proof.
  induction os as [|o os IH]; intros acc; [reflexivity|].
  assert (Hk : known_options mc (o :: os)
               = if existsb (fun m => String.eqb (opt_name m) o) (cust_options mc)
                 then o :: known_options mc os else known_options mc os)
    by reflexivity.
  rewrite Hk, existsb_find.
  destruct (find (fun m => String.eqb (opt_name m) o) (cust_options mc))
    as [x|] eqn:E; cbn [fold_left].
  - apply IH.
  - replace (add_option mc acc o) with acc
      by (unfold add_option; rewrite E; reflexivity).
    apply IH.
Qed.

(** A customization that the item does not have adds nothing. *)
Lemma fold_add_customization_known mi cs :
  forall acc,
    fold_left (add_customization mi) cs acc
    = fold_left (add_customization mi) (known_customizations mi cs) acc.
Proof.
  induction cs as [|c cs IH]; intros acc; [reflexivity|].
  unfold known_customizations. cbn [flat_map].
  fold (known_customizations mi cs).
  rewrite fold_left_app. cbn [fold_left]. rewrite IH. f_equal.
  unfold add_customization at 1.
  destruct (find (fun mc => String.eqb (cust_name mc) (rc_name c))
              (mi_customizations mi)) as [mc|] eqn:E; cbn [fold_left].
  - unfold add_customization. cbn [rc_name rc_options]. rewrite E.
    apply fold_add_option_known.
  - reflexivity.
Qed.

(** The price and the subtotal of a line are those of the line without
    the parts of its selection that the item does not have. *)
Lemma order_item_known mi ri :
  price (order_item mi ri) = price (order_item mi (known_selection mi ri)) /\
  item_subtotal (order_item mi ri)
  = item_subtotal (order_item mi (known_selection mi ri)).
Proof.
  unfold order_item, known_selection. simpl.
  rewrite <- itemPrice_known.
  assert (Hc : customizationTotal mi (ri_customizations ri)
               = customizationTotal mi
                   (option_map (known_customizations mi) (ri_customizations ri))).
  { unfold customizationTotal. destruct (ri_customizations ri) as [l|]; simpl.
    - apply fold_add_customization_known.
    - reflexivity. }
  rewrite <- Hc. split; reflexivity.
Qed.

(** C8, counterexample.  Two pizzas in a size the item does not have
    ("xxl"), with a topping that does not exist ("truffle") and a
    customization that does not exist ("crust").  Pricing does not
    fail: the handler builds its order data with the line at the base
    price, 2 x 10.00, and goes on to [Order.create].  The request is
    answered exactly as the same request without any selection is: with
    the 500 "Server error" that follows [Order.create], not with a
    failure that names the selection. *)
Lemma create_order_unknown_selection_priced :
  let sel := Some [ {| rc_name := "toppings"; rc_options := ["truffle"] |};
                    {| rc_name := "crust"; rc_options := ["thin"] |} ] in
  let r := Sample.request [Sample.line "m1" 2 (Some "xxl") sel] pickup None None in
  let plain := Sample.request [Sample.line "m1" 2 None None] pickup None None in
  (exists o it, create_order_data 1000 r Sample.db0 = inr o /\ items o = [it] /\
     size it = Some "xxl" /\ (price it == 10)%Q /\ (item_subtotal it == 20)%Q /\
     (subtotal (pricing o) == 20)%Q) /\
  create_order 1000 "o1" r Sample.db0 = (server_error, Sample.db0) /\
  create_order 1000 "o1" r Sample.db0 = create_order 1000 "o1" plain Sample.db0.
Proof.
  intros sel r plain. split; [|split].
  - do 2 eexists. split; [vm_compute; reflexivity|]. split; [reflexivity|].
    split; [reflexivity|]. vm_compute. repeat split; reflexivity.
  - vm_compute. reflexivity.
  - vm_compute. reflexivity.
Qed.

(** C8, as the code has it.  For a valid request to an active
    restaurant with an active menu: if some requested item is missing
    from the menu or unavailable, the request fails with the 400 that
    names such an item and nothing is written; if every requested item
    is available, pricing succeeds whatever sizes and customizations
    the lines name, and the handler builds its order data with one
    line per requested line.  A line is priced silently without the
    parts of its selection that the item does not have: its unit price
    and its subtotal are those of the same line with the unknown size,
    customizations and options removed. *)
Theorem create_order_item_checks now id r db rest m :
  create_valid r = true ->
  restaurants db !! co_restaurant r = Some rest -> isActive rest = true ->
  menus db !! co_restaurant r = Some m -> menu_isActive m = true ->
  (Exists (unavailable m) (co_items r) ->
     exists ri, In ri (co_items r) /\ unavailable m ri /\
       create_order now id r db = (item_not_available (ri_menuItem ri), db)) /\
  (Forall (fun ri => ~ unavailable m ri) (co_items r) ->
     exists o, create_order_data now r db = inr o /\
       Forall2 (line_of m) (co_items r) (items o)) /\
  (forall mi ri,
     price (order_item mi ri) = price (order_item mi (known_selection mi ri)) /\
     item_subtotal (order_item mi ri)
     = item_subtotal (order_item mi (known_selection mi ri))).
Proof.
  intros Hv Hr Ha Hm Hma.
  pose proof (create_order_data_priced now r db rest m Hv Hr Ha Hm Hma) as Hhead.
  split; [|split].
  - intros Hex. destruct (price_items_unavailable _ _ Hex) as (ri & Hin & Hun & Hp).
    exists ri. repeat split; try assumption.
    rewrite create_order_outcome, Hhead, Hp. reflexivity.
  - intros Hall. rewrite Hhead.
    destruct (price_items_available _ _ Hall [] 0%Q) as (its & s & Hp).
    rewrite Hp. eexists. split; [reflexivity|]. simpl.
    destruct (price_items_lines _ _ _ _ _ _ Hp) as (new & -> & Hl). exact Hl.
  - apply order_item_known.
Qed.

End Selections.

(** Pricing a line that names a size and a customization the pizza does
    not have. *)
Lemma create_order_item_checks_witness :
  let r := Sample.request
             [Sample.line "m1" 2 (Some "xxl")
                (Some [ {| rc_name := "crust"; rc_options := ["thin"] |} ])]
             pickup None None in
  exists o, create_order_data 1000 r Sample.db0 = inr o /\
    Forall2 (line_of {| menu_isActive := true;
                        menu_items := [Sample.pizza; Sample.soup] |})
      (co_items r) (items o).
Proof.
  intros r.
  apply (create_order_item_checks 1000 "o1" r Sample.db0 Sample.bistro
           {| menu_isActive := true; menu_items := [Sample.pizza; Sample.soup] |});
    try reflexivity.
  constructor; [|constructor].
  unfold unavailable. vm_compute. discriminate.
Defined.

(** ** The delivery address at order creation *)

Section Address.




End Address.


(** ** The status route: authorization and the transition table *)

Section StatusRoute.

Lemma includes_In (l : list OrderStatus) (s : OrderStatus) :
  includes l s = true <-> In s l.
Proof.
  unfold includes. rewrite existsb_exists. split.
  - intros (x & Hin & Hx). destruct s, x; try discriminate; exact Hin.
  - intros Hin. exists s. split; [exact Hin|]. destruct s; reflexivity.
Qed.

(** Where the table of the handler is defined it is the table of the
    specification. *)
Lemma validTransitions_spec (s : OrderStatus) :
  s <> refunded -> validTransitions s = Some (spec_table s).
Proof. destruct s; intros H; try reflexivity. congruence. Qed.

(** The computed [isAuthorized] is the specification's rule when the
    order's restaurant is there to be populated. *)
Lemma status_authorized_spec db o rest uid role target :
  restaurants db !! restaurant o = Some rest ->
  status_authorized db o uid role target
  = Some (spec_allowed o rest uid role target).
Proof.
  intros Hr. unfold status_authorized, owner_equals. rewrite Hr.
  destruct target; simpl; try reflexivity.
  destruct (String.eqb (customer_id o) uid); reflexivity.
Qed.

(** An authorized request reaches the table. *)
Lemma update_status_authorized now r db o :
  status_valid (su_status r) = true ->
  orders db !! su_order r = Some o ->
  status_authorized db o (su_user r) (su_role r) (su_status r) = Some true ->
  update_status now r db =
  match validTransitions (status o) with
  | None => (server_error, db)
  | Some targets =>
      if negb (includes targets (su_status r)) then
        (cannot_change (status o) (su_status r), db)
      else
        match updateStatus now (su_status r) (status_data r) o with
        | None => (server_error, db)
        | Some o' =>
            (json_populated db o'
               {| http := 200;
                  message := "Order status updated to "
                             ++ status_name (su_status r) |},
             with_orders (<[su_order r := o']> (orders db)) db)
        end
  end.
Proof.
  intros Hv Ho Ha. unfold update_status. rewrite Hv, Ho, Ha. reflexivity.
Qed.

(** A status update is answered with 200, or changes the collection,
    only along an edge of the table. *)
Lemma update_status_legal_only now r db o :
  orders db !! su_order r = Some o ->
  http (fst (update_status now r db)) = 200%nat \/
  snd (update_status now r db) <> db ->
  In (su_status r) (spec_table (status o)).
Proof.
  intros Ho H. unfold update_status in H. rewrite Ho in H.
  destruct (negb (status_valid (su_status r)));
    [destruct H as [H|H]; [discriminate|contradiction]|].
  destruct (status_authorized db o (su_user r) (su_role r) (su_status r))
    as [[|]|]; try (destruct H as [H|H]; [discriminate|contradiction]).
  destruct (validTransitions (status o)) as [targets|] eqn:Et;
    [|destruct H as [H|H]; [discriminate|contradiction]].
  destruct (includes targets (su_status r)) eqn:Ei; simpl in H;
    [|destruct H as [H|H]; [discriminate|contradiction]].
  apply includes_In.
  destruct (status o); simpl in Et; inversion Et; subst; exact Ei.
Qed.

(** From every status but [refunded], an authorized request for a
    target outside the table is refused with the 400 that names the
    source and the target, and nothing is written. *)
Lemma update_status_illegal now r db o :
  status_valid (su_status r) = true ->
  orders db !! su_order r = Some o ->
  status_authorized db o (su_user r) (su_role r) (su_status r) = Some true ->
  status o <> refunded ->
  ~ In (su_status r) (spec_table (status o)) ->
  update_status now r db = (cannot_change (status o) (su_status r), db).
Proof.
  intros Hv Ho Ha Hs Hn.
  rewrite (update_status_authorized now r db o Hv Ho Ha).
  rewrite (validTransitions_spec _ Hs).
  destruct (includes (spec_table (status o)) (su_status r)) eqn:E.
  - apply includes_In in E. contradiction.
  - reflexivity.
Qed.

(** The spec's scenario, which the code satisfies: [delivered] to
    [preparing] is refused for every role, the restaurant owner and an
    admin included. *)
Example delivered_to_preparing_refused (role : Role) :
  let r := {| su_user := "u_owner"; su_role := role; su_order := "o1";
              su_status := preparing; su_estimatedTime := None;
              su_estimatedArrival := None; su_deliveredBy := None;
              su_signature := None; su_photo := None; su_reason := None |} in
  let db := Sample.db_with (Sample.order delivered pay_completed (Some "pi_1")) in
  update_status 5 r db = (cannot_change delivered preparing, db) /\
  message (cannot_change delivered preparing)
    = "Cannot change status from delivered to preparing".
Proof. destruct role; vm_compute; split; reflexivity. Qed.

(** C4 (the code departs from the claim).  An admin asks to move a
    refunded order to [confirmed].  The table of the handler has the
    keys [delivered] and [cancelled] with no targets but no key
    [refunded]; the lookup yields [undefined], [includes] throws, and
    the request ends in the 500 "Server error" of the [catch] instead of
    the 400 that names the source and the target.  The order is left
    as it was. *)
Theorem update_status_from_refunded :
  let r := {| su_user := "u_admin"; su_role := admin; su_order := "o1";
              su_status := confirmed; su_estimatedTime := None;
              su_estimatedArrival := None; su_deliveredBy := None;
              su_signature := None; su_photo := None; su_reason := None |} in
  let db := Sample.db_with (Sample.order refunded pay_refunded (Some "pi_1")) in
  status_authorized db (Sample.order refunded pay_refunded (Some "pi_1"))
    "u_admin" admin confirmed = Some true /\
  ~ In confirmed (spec_table refunded) /\
  update_status 5 r db = (server_error, db) /\
  server_error <> cannot_change refunded confirmed.
Proof.
  vm_compute. repeat split.
  - intros [].
  - discriminate.
Qed.

(** C5.  Authorization comes before the table.  For a request with an
    accepted target on an existing order whose restaurant is on
    record: when the actor is not allowed the target (the restaurant
    owner or an admin for confirmed, preparing, ready_for_pickup; the
    assigned driver or an admin for out_for_delivery, delivered; the
    customer, the restaurant owner or an admin for cancelled) the
    answer is the 403 and nothing is written, whatever the current
    status of the order and whether or not the table has the edge;
    when the actor is allowed, the answer is not the 403. *)
Theorem authorization_before_transition now r db o rest :
  status_valid (su_status r) = true ->
  orders db !! su_order r = Some o ->
  restaurants db !! restaurant o = Some rest ->
  (spec_allowed o rest (su_user r) (su_role r) (su_status r) = false ->
     update_status now r db = (not_authorized_status, db)) /\
  (spec_allowed o rest (su_user r) (su_role r) (su_status r) = true ->
     http (fst (update_status now r db)) <> 403%nat).
Proof.
  intros Hv Ho Hr.
  pose proof (status_authorized_spec db o rest (su_user r) (su_role r)
                (su_status r) Hr) as Ha.
  split; intros Hal; rewrite Hal in Ha.
  - unfold update_status. rewrite Hv, Ho, Ha. reflexivity.
  - rewrite (update_status_authorized now r db o Hv Ho Ha).
    unfold json_populated. repeat case_match; simpl; discriminate.
Qed.

End StatusRoute.

(** The customer of a pending order asks for [confirmed], an edge of the
    table: the answer is the 403. *)
Lemma authorization_before_transition_witness :
  let r := {| su_user := "u_cust"; su_role := customer; su_order := "o1";
              su_status := confirmed; su_estimatedTime := None;
              su_estimatedArrival := None; su_deliveredBy := None;
              su_signature := None; su_photo := None; su_reason := None |} in
  let db := Sample.db_with (Sample.order pending pay_pending None) in
  In confirmed (spec_table pending) /\
  update_status 5 r db = (not_authorized_status, db).
Proof.
  intros r db. split; [left; reflexivity|].
  apply (authorization_before_transition 5 r db
           (Sample.order pending pay_pending None) Sample.bistro);
    vm_compute; reflexivity.
Defined.

(** ** The enum of [cancelledBy] *)

Section CancelledBy.

Lemma find_by_intent_lookup (os : gmap string Order) id k o :
  find_by_intent os id = Some (k, o) -> os !! k = Some o.
Proof.
  unfold find_by_intent. intros H.
  apply find_some in H as [Hin _].
  apply list_elem_of_In in Hin.
  apply elem_of_map_to_list in Hin. exact Hin.
Qed.

(** Cancelling saves exactly when the enum has the given name. *)
Lemma updateStatus_cancelled now ad o :
  updateStatus now cancelled ad o =
  if cancelledBy_valid (ad_cancelledBy ad)
  then Some (applyStatus now cancelled ad o) else None.
Proof. reflexivity. Qed.

Lemma role_name_not_in_enum (ro : Role) :
  ro = restaurant_owner \/ ro = delivery_driver ->
  cancelledBy_valid (Some (role_name ro)) = false.
Proof. intros [-> | ->]; reflexivity. Qed.

(** Only a cancellation writes the cancelled sub-record. *)
Lemma applyStatus_keeps_cancelled now s ad o :
  s <> cancelled ->
  trk_cancelled (tracking (applyStatus now s ad o)) = trk_cancelled (tracking o).
Proof.
  intros Hs. destruct s; try congruence; unfold applyStatus; simpl;
    repeat case_match; reflexivity.
Qed.

Lemma updateStatus_other now s ad o :
  s <> cancelled -> updateStatus now s ad o = Some (applyStatus now s ad o).
Proof. intros Hs. destruct s; try congruence; reflexivity. Qed.

(** [updateStatus] keeps the cancelled sub-record well formed when the
    caller names who cancels. *)
Lemma updateStatus_cancelledBy_ok now s ad o o' :
  (s = cancelled -> exists who, ad_cancelledBy ad = Some who) ->
  updateStatus now s ad o = Some o' ->
  cancelledBy_ok o = true -> cancelledBy_ok o' = true.
Proof.
  intros Hwho H Hok.
  assert (Hs : s = cancelled \/ s <> cancelled)
    by (destruct s; (left; reflexivity) || (right; discriminate)).
  destruct Hs as [-> | Hs].
  - rewrite updateStatus_cancelled in H.
    destruct (Hwho eq_refl) as [who Hw]. rewrite Hw in H.
    destruct (cancelledBy_valid (Some who)) eqn:E; [|discriminate].
    injection H as <-. unfold cancelledBy_ok. simpl. rewrite Hw. exact E.
  - rewrite (updateStatus_other _ _ _ _ Hs) in H. injection H as <-.
    unfold cancelledBy_ok.
    rewrite (applyStatus_keeps_cancelled _ _ _ _ Hs). exact Hok.
Qed.

Lemma db_inv_insert db k o :
  db_inv db -> cancelledBy_ok o = true ->
  db_inv (with_orders (<[k := o]> (orders db)) db).
Proof.
  intros Hdb Ho k' o'. simpl. rewrite lookup_insert.
  case_decide; intros Hl; [congruence | eauto].
Qed.

Lemma set_payment_ok p o : cancelledBy_ok (set_payment p o) = cancelledBy_ok o.
Proof. reflexivity. Qed.

Ltac keep_inv :=
  match goal with
  | H : db_inv ?db |- db_inv ?db => exact H
  | |- db_inv (with_orders (<[_ := _]> _) _) => apply db_inv_insert; [assumption|]
  end.

Lemma create_order_inv now id r db :
  db_inv db -> db_inv (snd (create_order now id r db)).
Proof.
  intros Hdb. rewrite create_order_outcome.
  destruct (create_order_data now r db); exact Hdb.
Qed.

Lemma update_status_inv now r db :
  db_inv db -> db_inv (snd (update_status now r db)).
Proof.
  intros Hdb. unfold update_status.
  repeat case_match; simpl; try keep_inv.
  eapply updateStatus_cancelledBy_ok; [|eassumption|eauto].
  intros _. eexists. reflexivity.
Qed.

Lemma cancel_order_inv now r db :
  db_inv db -> db_inv (snd (cancel_order now r db)).
Proof.
  intros Hdb. unfold cancel_order.
  repeat case_match; simpl; try keep_inv.
  eapply updateStatus_cancelledBy_ok; [|eassumption|eauto].
  intros _. eexists. reflexivity.
Qed.

Lemma create_intent_inv gw r db :
  db_inv db -> db_inv (snd (create_intent gw r db)).
Proof.
  intros Hdb. unfold create_intent.
  repeat case_match; simpl; try keep_inv.
  rewrite set_payment_ok. eauto.
Qed.

Lemma confirm_payment_inv gw now r db :
  db_inv db -> db_inv (snd (confirm_payment gw now r db)).
Proof.
  intros Hdb. unfold confirm_payment, apply_intent.
  repeat case_match; simpl; try keep_inv; simplify_eq;
    match goal with
    | Hf : find_by_intent _ _ = Some _ |- _ =>
        apply find_by_intent_lookup in Hf; apply Hdb in Hf
    end;
    try (rewrite ?set_payment_ok; assumption).
  eapply updateStatus_cancelledBy_ok; [|eassumption|].
  - discriminate.
  - unfold mark_paid. rewrite set_payment_ok. assumption.
Qed.

Lemma refund_order_inv gw now r db :
  db_inv db -> db_inv (snd (refund_order gw now r db)).
Proof.
  intros Hdb. unfold refund_order.
  repeat case_match; simpl; try keep_inv.
  eapply updateStatus_cancelledBy_ok; [|eassumption|].
  - discriminate.
  - rewrite set_payment_ok. eauto.
Qed.

Lemma webhook_inv gw now r db :
  db_inv db -> db_inv (snd (webhook gw now r db)).
Proof.
  intros Hdb. unfold webhook, apply_succeeded_event.
  repeat case_match; simpl; try keep_inv; simplify_eq;
    match goal with
    | Hf : find_by_intent _ _ = Some _ |- _ =>
        apply find_by_intent_lookup in Hf; apply Hdb in Hf
    end;
    try (unfold mark_paid; rewrite ?set_payment_ok; assumption).
  eapply updateStatus_cancelledBy_ok; [|eassumption|].
  - discriminate.
  - unfold mark_paid. rewrite set_payment_ok. assumption.
Qed.

Lemma step_inv db db' : db_inv db -> step db db' -> db_inv db'.
Proof.
  intros Hdb Hs. destruct Hs;
    auto using create_order_inv, update_status_inv, cancel_order_inv,
      create_intent_inv, confirm_payment_inv, refund_order_inv, webhook_inv.
Qed.

(** Every state the routes reach from a collection without orders has
    only well-formed cancelled sub-records. *)
Lemma rtc_step_inv db0 db : db_inv db0 -> rtc step db0 db -> db_inv db.
Proof.
  intros H0 Hr. induction Hr as [|x y z Hxy _ IH]; [exact H0|].
  apply IH. eapply step_inv; eauto.
Qed.

Lemma reachable_inv db0 db :
  orders db0 = ∅ -> rtc step db0 db -> db_inv db.
Proof.
  intros H0. apply rtc_step_inv.
  intros k o. rewrite H0, lookup_empty. discriminate.
Qed.

End CancelledBy.

Section CancelledByClaim.

(** A cancellation that is answered with 200 has stored the role of
    the requester, as a string, in [cancelledBy]. *)
Lemma cancel_order_writes_role now r db :
  http (fst (cancel_order now r db)) = 200%nat ->
  exists o' c,
    orders (snd (cancel_order now r db)) !! cn_order r = Some o' /\
    trk_cancelled (tracking o') = Some c /\
    cancelledBy c = Some (role_name (cn_role r)).
Proof.
  unfold cancel_order. intros H.
  repeat case_match; simpl in H; try discriminate.
  match goal with
  | Hu : updateStatus _ cancelled _ _ = Some _ |- _ =>
      rewrite updateStatus_cancelled in Hu;
      match type of Hu with
      | (if ?c then _ else _) = _ => destruct c; [|discriminate]
      end;
      injection Hu as <-
  end.
  do 2 eexists. simpl. rewrite lookup_insert_eq.
  repeat split; reflexivity.
Qed.

Lemma cancel_order_role_rejected now r db :
  cn_role r = restaurant_owner \/ cn_role r = delivery_driver ->
  snd (cancel_order now r db) = db /\
  http (fst (cancel_order now r db)) <> 200%nat.
Proof.
  intros Hro. unfold cancel_order.
  repeat case_match; simpl; try (split; [reflexivity|discriminate]).
  match goal with
  | Hu : updateStatus _ cancelled _ _ = Some _ |- _ =>
      rewrite updateStatus_cancelled in Hu; cbn [ad_cancelledBy status_data] in Hu;
      rewrite (role_name_not_in_enum _ Hro) in Hu; discriminate
  end.
Qed.

Lemma update_status_role_rejected now r db :
  su_status r = cancelled ->
  su_role r = restaurant_owner \/ su_role r = delivery_driver ->
  snd (update_status now r db) = db /\
  http (fst (update_status now r db)) <> 200%nat.
Proof.
  intros Hs Hro. unfold update_status. rewrite Hs.
  repeat case_match; simpl; try (split; [reflexivity|discriminate]).
  match goal with
  | Hu : updateStatus _ cancelled _ _ = Some _ |- _ =>
      rewrite updateStatus_cancelled in Hu; cbn [ad_cancelledBy status_data] in Hu;
      rewrite (role_name_not_in_enum _ Hro) in Hu; discriminate
  end.
Qed.

(** C10.  Every request keeps the collection such that a cancelled
    sub-record names one of customer, restaurant, admin, system.  A
    cancellation that succeeds stores the requester's role name as it
    is.  Hence a request to cancel made with the role restaurant_owner
    or delivery_driver, on the cancel route or on the status route,
    writes nothing and is not answered with 200; the owner of the
    restaurant cancelling a cancellable order gets the 500. *)
Theorem cancelledBy_enum_invariant :
  (forall db db', db_inv db -> step db db' -> db_inv db') /\
  (forall now r db,
     http (fst (cancel_order now r db)) = 200%nat ->
     exists o' c,
       orders (snd (cancel_order now r db)) !! cn_order r = Some o' /\
       trk_cancelled (tracking o') = Some c /\
       cancelledBy c = Some (role_name (cn_role r))) /\
  (forall now r db,
     cn_role r = restaurant_owner \/ cn_role r = delivery_driver ->
     snd (cancel_order now r db) = db /\
     http (fst (cancel_order now r db)) <> 200%nat) /\
  (forall now r db,
     su_status r = cancelled ->
     su_role r = restaurant_owner \/ su_role r = delivery_driver ->
     snd (update_status now r db) = db /\
     http (fst (update_status now r db)) <> 200%nat) /\
  (forall now r db o rest,
     orders db !! cn_order r = Some o ->
     restaurants db !! restaurant o = Some rest ->
     owner rest = cn_user r ->
     cn_role r = restaurant_owner ->
     canBeCancelled o = true ->
     cancel_order now r db = (server_error, db)).
Proof.
  split; [exact step_inv|].
  split; [exact cancel_order_writes_role|].
  split; [exact cancel_order_role_rejected|].
  split; [exact update_status_role_rejected|].
  intros now r db o rest Ho Hr Hown Hro Hc.
  unfold cancel_order, party_authorized, owner_equals.
  rewrite Ho, Hr, Hown, String.eqb_refl, Hc. simpl negb. cbv iota.
  rewrite updateStatus_cancelled. cbn [ad_cancelledBy].
  rewrite (role_name_not_in_enum (cn_role r) (or_introl Hro)).
  destruct (String.eqb (customer_id o) (cn_user r)); reflexivity.
Qed.

End CancelledByClaim.

(** The owner of the restaurant cancels a pending order on the cancel
    route: the save is rejected. *)
Lemma cancelledBy_enum_invariant_witness :
  let r := {| cn_user := "u_owner"; cn_role := restaurant_owner;
              cn_order := "o1"; cn_req_reason := Some "out of dough" |} in
  let db := Sample.db_with (Sample.order pending pay_pending None) in
  cancel_order 5 r db = (server_error, db).
Proof.
  intros r db.
  apply (proj2 (proj2 (proj2 (proj2 cancelledBy_enum_invariant))) 5%Z r db
           (Sample.order pending pay_pending None) Sample.bistro);
    vm_compute; reflexivity.
Defined.

(** ** Payment reconciliation *)

Section Reconciliation.

(** What the confirm route does to the order for each reported
    status.  Success completes the payment, stamps [paidAt] and sets
    the status to [confirmed] from every status. *)
Lemma apply_intent_effect now intent o :
  match intent_status intent with
  | succeeded =>
      exists o', apply_intent now intent o = Some o' /\
        pstatus (payment o') = pay_completed /\
        paidAt (payment o') = Some now /\
        status o' = confirmed
  | requires_action =>
      exists o', apply_intent now intent o = Some o' /\
        pstatus (payment o') = pay_processing /\ status o' = status o
  | payment_failed =>
      exists o', apply_intent now intent o = Some o' /\
        pstatus (payment o') = pay_failed /\ status o' = status o
  | other_intent_status => apply_intent now intent o = Some o
  end.
Proof.
  unfold apply_intent. destruct (intent_status intent).
  - eexists. split; [reflexivity|]. repeat split.
  - eexists. split; [reflexivity|]. repeat split.
  - eexists. split; [reflexivity|]. repeat split.
  - reflexivity.
Qed.

(** What the webhook does on success: the payment is completed and
    stamped; a pending order becomes confirmed, any other keeps its
    status. *)
Lemma apply_succeeded_event_effect now id o :
  exists o', apply_succeeded_event now id o = Some o' /\
    pstatus (payment o') = pay_completed /\
    paidAt (payment o') = Some now /\
    status o' = (if status_eqb (status o) pending then confirmed else status o).
Proof.
  unfold apply_succeeded_event.
  change (status (mark_paid now id o)) with (status o).
  destruct (status_eqb (status o) pending);
    eexists; (split; [reflexivity|]); repeat split.
Qed.

Lemma confirm_payment_found gw now r db intent k o :
  cf_paymentIntentId r <> EmptyString ->
  paymentIntents_retrieve gw (cf_paymentIntentId r) = inr (Some intent) ->
  find_by_intent (orders db) (cf_paymentIntentId r) = Some (k, o) ->
  customer_id o = cf_user r ->
  confirm_payment gw now r db =
  match apply_intent now intent o with
  | None => (payment_confirmation_error, db)
  | Some o' =>
      ({| http := 200; message := "Payment status updated" |},
       with_orders (<[k := o']> (orders db)) db)
  end.
Proof.
  intros Hid Hg Hf Hc. unfold confirm_payment.
  apply String.eqb_neq in Hid. rewrite Hid, Hg, Hf, Hc, String.eqb_refl.
  reflexivity.
Qed.

Lemma webhook_succeeded_found gw now r db ev k o :
  webhooks_constructEvent gw (wh_body r) (wh_signature r) = inr ev ->
  ev_type ev = payment_intent_succeeded ->
  find_by_intent (orders db) (ev_object ev) = Some (k, o) ->
  webhook gw now r db =
  match apply_succeeded_event now (ev_object ev) o with
  | None => ({| http := 500; message := "Webhook handler failed" |}, db)
  | Some o' => (received, with_orders (<[k := o']> (orders db)) db)
  end.
Proof.
  intros Hg Ht Hf. unfold webhook. rewrite Hg, Ht, Hf. reflexivity.
Qed.

(** C2 (the code departs from the claim).  The customer of an order
    that is being prepared confirms a payment the gateway reports as
    succeeded.  The payment becomes completed and [paidAt] is stamped,
    but the confirm route calls [updateStatus('confirmed')] without
    looking at the status, and the order goes back from [preparing] to
    [confirmed].  The webhook, on the same order and the same event,
    tests [order.status === 'pending'] and keeps [preparing]. *)
Theorem confirm_payment_resets_status :
  let o := Sample.order preparing pay_processing (Some "pi_1") in
  let db := Sample.db_with o in
  let gw := Sample.gateway_ok succeeded in
  let res := confirm_payment gw 7 {| cf_user := "u_cust";
                                     cf_paymentIntentId := "pi_1" |} db in
  let hook := webhook gw 7 {| wh_body := "{}"; wh_signature := "sig" |} db in
  http (fst res) = 200%nat /\
  (exists o', orders (snd res) !! "o1" = Some o' /\
     pstatus (payment o') = pay_completed /\
     paidAt (payment o') = Some 7%Z /\
     status o' = confirmed /\ status o' <> status o) /\
  (exists o', orders (snd hook) !! "o1" = Some o' /\
     pstatus (payment o') = pay_completed /\
     status o' = preparing).
Proof.
  intros o db gw res hook.
  split; [vm_compute; reflexivity|]. split.
  - eexists. split; [vm_compute; reflexivity|].
    repeat split. discriminate.
  - eexists. split; [vm_compute; reflexivity|]. repeat split.
Qed.

(** C6.  Reconciling a success is idempotent on the payment status and
    the order status.  On an order whose payment is completed and
    whose status is confirmed, a [payment_intent.succeeded] event and a
    repeated confirm call both succeed and store an order whose
    payment is completed and whose status is confirmed.  ([paidAt] is
    stamped again, and the confirm route stamps the confirmation time
    again.) *)
Theorem payment_success_idempotent gw now db k o :
  pstatus (payment o) = pay_completed ->
  status o = confirmed ->
  (forall r ev,
     webhooks_constructEvent gw (wh_body r) (wh_signature r) = inr ev ->
     ev_type ev = payment_intent_succeeded ->
     find_by_intent (orders db) (ev_object ev) = Some (k, o) ->
     exists o',
       webhook gw now r db
         = (received, with_orders (<[k := o']> (orders db)) db) /\
       pstatus (payment o') = pay_completed /\ status o' = confirmed /\
       tracking o' = tracking o) /\
  (forall r intent,
     cf_paymentIntentId r <> EmptyString ->
     paymentIntents_retrieve gw (cf_paymentIntentId r) = inr (Some intent) ->
     intent_status intent = succeeded ->
     find_by_intent (orders db) (cf_paymentIntentId r) = Some (k, o) ->
     customer_id o = cf_user r ->
     exists o',
       confirm_payment gw now r db
         = ({| http := 200; message := "Payment status updated" |},
            with_orders (<[k := o']> (orders db)) db) /\
       pstatus (payment o') = pay_completed /\ status o' = confirmed).
Proof.
  intros Hp Hs. split.
  - intros r ev Hg Ht Hf.
    rewrite (webhook_succeeded_found gw now r db ev k o Hg Ht Hf).
    unfold apply_succeeded_event.
    change (status (mark_paid now (ev_object ev) o)) with (status o).
    rewrite Hs. simpl. eexists. split; [reflexivity|].
    repeat split. exact Hs.
  - intros r intent Hid Hg Hi Hf Hc.
    rewrite (confirm_payment_found gw now r db intent k o Hid Hg Hf Hc).
    unfold apply_intent. rewrite Hi. simpl.
    eexists. split; [reflexivity|]. repeat split.
Qed.

End Reconciliation.

(** The webhook reports success for a pending order, then the same event
    again: confirmed and completed after the first, and after the
    second. *)
Lemma payment_success_idempotent_witness :
  let gw := Sample.gateway_ok succeeded in
  let r := {| wh_body := "{}"; wh_signature := "sig" |} in
  let db1 := snd (webhook gw 7 r
                    (Sample.db_with (Sample.order pending pay_processing (Some "pi_1")))) in
  (exists o1, orders db1 !! "o1" = Some o1 /\
     pstatus (payment o1) = pay_completed /\ status o1 = confirmed) /\
  (exists o2, webhook gw 9 r db1
              = (received, with_orders (<[ "o1" := o2 ]> (orders db1)) db1) /\
     pstatus (payment o2) = pay_completed /\ status o2 = confirmed).
Proof.
  intros gw r db1. split.
  - eexists. split; [vm_compute; reflexivity|]. split; reflexivity.
  - destruct (proj1 (payment_success_idempotent gw 9 db1 "o1"
        (applyStatus 7 confirmed no_data
           (mark_paid 7 "pi_1" (Sample.order pending pay_processing (Some "pi_1"))))
        eq_refl eq_refl) r
        {| ev_type := payment_intent_succeeded; ev_object := "pi_1" |}
        eq_refl eq_refl ltac:(vm_compute; reflexivity))
      as (o2 & Hw & Hp & Hs & _).
    exists o2. split; [exact Hw|]. split; assumption.
Defined.

(** ** Refunds *)

Section Refunds.

Local Open Scope Q_scope.

Lemma refund_order_reaches gw now r db o intent :
  refund_valid r = true ->
  orders db !! rf_order r = Some o ->
  party_authorized db o (rf_user r) (rf_role r) = Some true ->
  pstatus (payment o) = pay_completed ->
  has_intent o = Some intent ->
  refund_order gw now r db =
  match refunds_create gw intent (refund_cents (rf_amount r) o) with
  | inl _ => (refund_error, db)
  | inr _ =>
      ({| http := 200; message := "Refund processed successfully" |},
       with_orders
         (<[rf_order r :=
              applyStatus now refunded
                {| ad_estimatedTime := None; ad_estimatedArrival := None;
                   ad_deliveredBy := None; ad_signature := None;
                   ad_photo := None;
                   ad_reason := Some (Js.str_or (rf_reason r) "Payment refunded");
                   ad_cancelledBy := Some (role_name (rf_role r)) |}
                (set_payment
                   (set_refund now
                      (inject_Z (refund_cents (rf_amount r) o) / 100)
                      (set_pstatus pay_refunded (payment o))) o)]>
            (orders db)) db)
  end.
Proof.
  intros Hv Ho Ha Hp Hi. unfold refund_order.
  rewrite Hv, Ho, Ha, Hp, Hi. simpl.
  destruct (refunds_create gw intent (refund_cents (rf_amount r) o)); reflexivity.
Qed.

(** The part of the refund that the code carries out, from every
    order status: the payment becomes refunded with [refundedAt] and
    [refundAmount] stamped, the amount being the total rounded to cents
    when none is given, and the order becomes refunded.  The tracking
    sub-record is the one the order had. *)
Lemma refund_order_effect gw now r db o intent rf :
  refund_valid r = true ->
  orders db !! rf_order r = Some o ->
  party_authorized db o (rf_user r) (rf_role r) = Some true ->
  pstatus (payment o) = pay_completed ->
  has_intent o = Some intent ->
  refunds_create gw intent (refund_cents (rf_amount r) o) = inr rf ->
  http (fst (refund_order gw now r db)) = 200%nat /\
  exists o', orders (snd (refund_order gw now r db)) !! rf_order r = Some o' /\
    status o' = refunded /\
    pstatus (payment o') = pay_refunded /\
    refundedAt (payment o') = Some now /\
    refundAmount (payment o')
      = Some (inject_Z (refund_cents (rf_amount r) o) / 100) /\
    (rf_amount r = None ->
     refund_cents (rf_amount r) o = Js.round (total (pricing o) * 100)) /\
    tracking o' = tracking o.
Proof.
  intros Hv Ho Ha Hp Hi Hg.
  rewrite (refund_order_reaches gw now r db o intent Hv Ho Ha Hp Hi), Hg.
  split; [reflexivity|]. eexists. simpl. rewrite lookup_insert_eq.
  split; [reflexivity|]. repeat split.
  intros ->. reflexivity.
Qed.

(** C3 (the code departs from the claim).  An admin refunds a
    delivered order whose payment of 63.00 is completed, giving the
    reason "cold food" and no amount.  The refund is the full 63.00,
    the payment becomes refunded with [refundedAt] and [refundAmount]
    stamped and the order becomes refunded.  The route passes the
    reason and the role to [updateStatus], whose [switch] has no case
    for [refunded]: the tracking sub-record is left as it was, and
    neither the reason nor the role is stored. *)
Theorem refund_order_drops_reason :
  let o := Sample.order delivered pay_completed (Some "pi_1") in
  let db := Sample.db_with o in
  let r := {| rf_user := "u_admin"; rf_role := admin; rf_order := "o1";
              rf_amount := None; rf_reason := Some "cold food" |} in
  let res := refund_order (Sample.gateway_ok succeeded) 7 r db in
  http (fst res) = 200%nat /\
  exists o', orders (snd res) !! "o1" = Some o' /\
    status o' = refunded /\
    pstatus (payment o') = pay_refunded /\
    refundedAt (payment o') = Some 7%Z /\
    (exists a, refundAmount (payment o') = Some a /\ a == total (pricing o)) /\
    tracking o' = tracking o /\
    trk_cancelled (tracking o') = None.
Proof.
  intros o db r res.
  split; [vm_compute; reflexivity|].
  eexists. split; [vm_compute; reflexivity|].
  repeat split. eexists. split; reflexivity.
Qed.

End Refunds.

(** ** Gateway failures *)

Section GatewayFailure.

(** C7.  When the call to the gateway fails, the route answers with
    its 500 (payment processing error, payment confirmation error,
    error processing refund) and the collections are what they were:
    in the three routes the call comes before every write. *)
Theorem gateway_failure_no_write gw now db :
  (forall r o e,
     orders db !! pi_order r = Some o ->
     customer_id o = pi_user r ->
     status o = pending ->
     pstatus (payment o) <> pay_completed ->
     is_Some (restaurants db !! restaurant o) ->
     paymentIntents_create gw (Js.round (total (pricing o) * 100))
       (attached_method (pi_paymentMethodId r)) = inl e ->
     create_intent gw r db = (payment_processing_error, db)) /\
  (forall r e,
     cf_paymentIntentId r <> EmptyString ->
     paymentIntents_retrieve gw (cf_paymentIntentId r) = inl e ->
     confirm_payment gw now r db = (payment_confirmation_error, db)) /\
  (forall r o intent e,
     refund_valid r = true ->
     orders db !! rf_order r = Some o ->
     party_authorized db o (rf_user r) (rf_role r) = Some true ->
     pstatus (payment o) = pay_completed ->
     has_intent o = Some intent ->
     refunds_create gw intent (refund_cents (rf_amount r) o) = inl e ->
     refund_order gw now r db = (refund_error, db)).
Proof.
  repeat split.
  - intros r o e Ho Hc Hs Hp [rest Hr] Hg. unfold create_intent.
    rewrite Ho, Hc, String.eqb_refl, Hs, Hr, Hg. simpl.
    destruct (pstatus (payment o)); try reflexivity. congruence.
  - intros r e Hid Hg. unfold confirm_payment.
    apply String.eqb_neq in Hid. rewrite Hid, Hg. reflexivity.
  - intros r o intent e Hv Ho Ha Hp Hi Hg.
    rewrite (refund_order_reaches gw now r db o intent Hv Ho Ha Hp Hi), Hg.
    reflexivity.
Qed.

(** Whatever the request, a gateway that fails on every call leaves
    the collections as they were. *)
Lemma gateway_down_no_write gw now db :
  (forall a pm, exists e, paymentIntents_create gw a pm = inl e) ->
  (forall i, exists e, paymentIntents_retrieve gw i = inl e) ->
  (forall i a, exists e, refunds_create gw i a = inl e) ->
  (forall r, snd (create_intent gw r db) = db) /\
  (forall r, snd (confirm_payment gw now r db) = db) /\
  (forall r, snd (refund_order gw now r db) = db).
Proof.
  intros Hc Hr Hf. repeat split; intros r.
  - unfold create_intent. repeat case_match; try reflexivity.
    match goal with
    | H : paymentIntents_create gw ?a ?pm = inr _ |- _ =>
        destruct (Hc a pm) as [e He]; congruence
    end.
  - unfold confirm_payment.
    destruct (Hr (cf_paymentIntentId r)) as [e ->].
    destruct (String.eqb (cf_paymentIntentId r) EmptyString); reflexivity.
  - unfold refund_order. repeat case_match; try reflexivity.
    match goal with
    | H : refunds_create gw ?i ?a = inr _ |- _ =>
        destruct (Hf i a) as [e He]; congruence
    end.
Qed.

End GatewayFailure.

(** The gateway cannot be reached: creating an intent for a pending
    order, confirming an intent and refunding a paid order all answer
    with the 500 of the route and write nothing. *)
Lemma gateway_failure_no_write_witness :
  let gw := Sample.gateway_down in
  let pend := Sample.db_with (Sample.order pending pay_pending None) in
  let paid := Sample.db_with (Sample.order delivered pay_completed (Some "pi_1")) in
  create_intent gw {| pi_user := "u_cust"; pi_order := "o1";
                      pi_paymentMethodId := None |} pend
    = (payment_processing_error, pend) /\
  confirm_payment gw 7 {| cf_user := "u_cust"; cf_paymentIntentId := "pi_1" |} paid
    = (payment_confirmation_error, paid) /\
  refund_order gw 7 {| rf_user := "u_cust"; rf_role := customer; rf_order := "o1";
                       rf_amount := None; rf_reason := None |} paid
    = (refund_error, paid).
Proof.
  intros gw pend paid. split; [|split].
  - apply (proj1 (gateway_failure_no_write gw 7 pend) _
             (Sample.order pending pay_pending None) "connection refused");
      try (vm_compute; reflexivity).
    + discriminate.
    + exists Sample.bistro. vm_compute. reflexivity.
  - apply (proj1 (proj2 (gateway_failure_no_write gw 7 paid)) _ "connection refused").
    + discriminate.
    + reflexivity.
  - apply (proj2 (proj2 (gateway_failure_no_write gw 7 paid)) _
             (Sample.order delivered pay_completed (Some "pi_1")) "pi_1"
             "connection refused");
      vm_compute; reflexivity.
Defined.

(** * Further properties *)

(** ** The order model *)

Section OrderModel.

Local Open Scope Z_scope.

(** The writes of [updateStatus], field by field. *)
Lemma updateStatus_effect now s ad o o' :
  updateStatus now s ad o = Some o' ->
  status o' = s /\
  (s <> pending -> s <> refunded -> tracking_stamp s o' = Some now) /\
  (forall s', s' <> s -> tracking_stamp s' o' = tracking_stamp s' o) /\
  (s = delivered -> actualDeliveryTime o' = Some now) /\
  (s <> delivered -> actualDeliveryTime o' = actualDeliveryTime o) /\
  customer_id o' = customer_id o /\ restaurant o' = restaurant o /\
  items o' = items o /\ pricing o' = pricing o /\ payment o' = payment o /\
  deliveryDriver o' = deliveryDriver o.
Proof.
  intros H.
  assert (Ho : o' = applyStatus now s ad o).
  { unfold updateStatus in H.
    destruct (save_accepts s (applyStatus now s ad o)); congruence. }
  subst o'. clear H.
  destruct s; unfold applyStatus; simpl;
    try (destruct (ad_estimatedTime ad) as [m|]; [destruct (m =? 0)|]; simpl);
    repeat split; try congruence;
    try (intros s' Hs'; destruct s'; simpl; congruence).
Qed.

(** X1.  A saved [updateStatus] sets the status, stamps the tracking
    record of the new status with the current time (there is none for
    pending and refunded), leaves the stamps of all other statuses and
    the customer, restaurant, items, pricing, payment and driver as
    they were, and sets the delivery time when the order is delivered. *)
Theorem updateStatus_stamps now s ad o o' :
  updateStatus now s ad o = Some o' ->
  status o' = s /\
  (s <> pending -> s <> refunded -> tracking_stamp s o' = Some now) /\
  (forall s', s' <> s -> tracking_stamp s' o' = tracking_stamp s' o) /\
  (s = delivered -> actualDeliveryTime o' = Some now) /\
  customer_id o' = customer_id o /\ restaurant o' = restaurant o /\
  items o' = items o /\ pricing o' = pricing o /\ payment o' = payment o /\
  deliveryDriver o' = deliveryDriver o.
Proof.
  intros H.
  destruct (updateStatus_effect now s ad o o' H)
    as (H1 & H2 & H3 & H4 & _ & H5).
  repeat split; try assumption; apply H5.
Qed.

Lemma updateStatus_tracking_wf now s ad o o' :
  updateStatus now s ad o = Some o' -> tracking_wf o'.
Proof.
  intros H.
  destruct (updateStatus_effect now s ad o o' H)
    as (Hs & Hst & _ & Hd & _).
  split.
  - rewrite Hs. intros Hr.
    assert (Hp : s = pending \/ s <> pending)
      by (destruct s; (left; reflexivity) || (right; discriminate)).
    destruct Hp as [->|Hp]; [simpl; eauto|].
    rewrite (Hst Hp Hr). eauto.
  - rewrite Hs. intros ->. rewrite (Hd eq_refl). eauto.
Qed.

(** X3.  [calculateTotal] never yields a negative total, whatever the
    discount and the tip; it recomputes the subtotal, the tax and the
    total only, leaving the delivery fee, the service fee, the tip, the
    discount, the line items and the rest of the order as they were;
    and computing the total twice gives what computing it once
    gives. *)
Theorem calculateTotal_floor o :
  let o' := calculateTotal o in
  (0 <= total (pricing o'))%Q /\
  items o' = items o /\
  deliveryFee (pricing o') = deliveryFee (pricing o) /\
  serviceFee (pricing o') = serviceFee (pricing o) /\
  tip (pricing o') = tip (pricing o) /\
  discount (pricing o') = discount (pricing o) /\
  status o' = status o /\ payment o' = payment o /\ tracking o' = tracking o /\
  calculateTotal o' = o'.
Proof.
  intros o'. subst o'. split; [|repeat split].
  unfold calculateTotal. simpl. unfold Js.max.
  match goal with
  | |- (0 <= if Qle_bool 0 ?x then _ else _)%Q =>
      destruct (Qle_bool 0 x) eqn:E; [apply Qle_bool_iff in E; exact E | lra]
  end.
Qed.

(** X4.  The remaining time is never negative, is absent exactly when
    there is no estimate or the order is delivered, is 0 once the
    estimate has passed, and otherwise is the number of minutes [m] with
    [(m - 1) * 60000 < remaining <= m * 60000]. *)
Theorem estimatedTimeRemaining_bounds now o :
  (estimatedTimeRemaining now o = None <->
     estimatedDeliveryTime o = None \/ status o = delivered) /\
  (forall m, estimatedTimeRemaining now o = Some m ->
     exists t, estimatedDeliveryTime o = Some t /\
       0 <= m /\
       (t - now <= 0 -> m = 0) /\
       (0 < t - now -> (m - 1) * 60000 < t - now <= m * 60000)).
Proof.
  unfold estimatedTimeRemaining. split.
  - destruct (estimatedDeliveryTime o) as [t|]; [|tauto].
    destruct (status o); simpl; split; intros H;
      try discriminate; try reflexivity; auto;
      destruct H as [H|H]; discriminate.
  - intros m H. destruct (estimatedDeliveryTime o) as [t|]; [|discriminate].
    destruct (status_eqb (status o) delivered); [discriminate|].
    exists t. split; [reflexivity|].
    injection H as <-.
    destruct (Z.ltb_spec 0 (t - now)) as [Hpos|Hneg].
    + set (r := t - now) in *.
      pose proof (Qle_ceiling (inject_Z r / inject_Z (1000 * 60))) as Hle.
      pose proof (Qceiling_lt (inject_Z r / inject_Z (1000 * 60))) as Hlt.
      set (m := Qceiling (inject_Z r / inject_Z (1000 * 60))) in *.
      unfold Qle in Hle. unfold Qlt in Hlt. simpl in Hle, Hlt.
      repeat split; try lia.
    + repeat split; lia.
Qed.

End OrderModel.

Lemma updateStatus_stamps_witness :
  exists o',
    updateStatus 9 delivered no_data (Sample.order out_for_delivery pay_completed None)
      = Some o' /\
    status o' = delivered /\ tracking_stamp delivered o' = Some 9%Z /\
    orderDuration o' = Some 9%Z.
Proof.
  eexists. split; [reflexivity|].
  destruct (updateStatus_stamps 9 delivered no_data
              (Sample.order out_for_delivery pay_completed None) _ eq_refl)
    as (Hs & Hst & _).
  split; [exact Hs|]. split; [apply Hst; discriminate|]. reflexivity.
Defined.

(** A discount larger than the sum of the other parts: the total is
    not negative. *)
Lemma calculateTotal_floor_witness :
  let o := set_pricing
             {| subtotal := 0; tax := 0; deliveryFee := 3; serviceFee := 1;
                discount := 100; tip := 5; total := 0 |}
             (Sample.order pending pay_pending None) in
  (0 <= total (pricing (calculateTotal o)))%Q /\
  discount (pricing (calculateTotal o)) = 100%Q.
Proof.
  intros o.
  destruct (calculateTotal_floor o) as (H0 & _ & _ & _ & _ & Hd & _).
  split; [exact H0|exact Hd].
Defined.

Lemma estimatedTimeRemaining_bounds_witness :
  estimatedTimeRemaining 0
    (set_estimatedDeliveryTime (Some 90001%Z) (Sample.order preparing pay_pending None))
  = Some 2%Z /\ ((2 - 1) * 60000 < 90001 - 0 <= 2 * 60000)%Z.
Proof.
  split; [reflexivity|].
  destruct (proj2 (estimatedTimeRemaining_bounds 0
      (set_estimatedDeliveryTime (Some 90001%Z) (Sample.order preparing pay_pending None)))
      2%Z eq_refl) as (t & Ht & _ & _ & Hb).
  injection Ht as <-. apply Hb. lia.
Defined.

(** ** The status and cancel routes *)

Section StatusProgress.

(** The answer of a handler that sends the populated order: the 500 when
    the restaurant is on record, the handler's own answer otherwise. *)
Lemma json_populated_cases db o resp :
  (exists rest, restaurants db !! restaurant o = Some rest /\
     json_populated db o resp = server_error) \/
  (restaurants db !! restaurant o = None /\ json_populated db o resp = resp).
Proof.
  unfold json_populated.
  destruct (restaurants db !! restaurant o) as [rest|]; [left|right]; eauto.
Qed.

(** The two outcomes of the status route: a refusal or a failure that
    leaves the collection as it was, or a saved transition along an
    edge of the table, after which the populated order is sent. *)
Lemma update_status_cases now r db :
  (snd (update_status now r db) = db /\
   http (fst (update_status now r db)) <> 200%nat) \/
  (exists o o',
     orders db !! su_order r = Some o /\
     status_authorized db o (su_user r) (su_role r) (su_status r) = Some true /\
     In (su_status r) (spec_table (status o)) /\
     updateStatus now (su_status r) (status_data r) o = Some o' /\
     update_status now r db
     = (json_populated db o'
          {| http := 200;
             message := "Order status updated to " ++ status_name (su_status r) |},
        with_orders (<[su_order r := o']> (orders db)) db)).
Proof.
  unfold update_status.
  destruct (status_valid (su_status r)); simpl;
    [|left; split; [reflexivity|discriminate]].
  destruct (orders db !! su_order r) as [o|] eqn:Ho;
    [|left; split; [reflexivity|discriminate]].
  destruct (status_authorized db o (su_user r) (su_role r) (su_status r))
    as [[|]|] eqn:Ha; try (left; split; [reflexivity|discriminate]).
  destruct (validTransitions (status o)) as [targets|] eqn:Et;
    [|left; split; [reflexivity|discriminate]].
  destruct (includes targets (su_status r)) eqn:Ei; simpl;
    [|left; split; [reflexivity|discriminate]].
  destruct (updateStatus now (su_status r) (status_data r) o) as [o'|] eqn:Hu;
    [|left; split; [reflexivity|discriminate]].
  right. exists o, o'.
  split; [assumption || reflexivity|]. split; [assumption || reflexivity|].
  split; [|split; assumption || reflexivity].
  apply includes_In.
  destruct (status o); simpl in Et; inversion Et; subst; exact Ei.
Qed.

(** The refusals of the status route, the answers 400, 403 and 404,
    write nothing. *)
Lemma update_status_refused now r db :
  http (fst (update_status now r db)) <> 200%nat ->
  http (fst (update_status now r db)) <> 500%nat ->
  snd (update_status now r db) = db.
Proof.
  intros H2 H5.
  destruct (update_status_cases now r db)
    as [[Hd _] | (o & o' & _ & _ & _ & _ & He)]; [exact Hd|].
  rewrite He in H2, H5. simpl in H2, H5.
  destruct (json_populated_cases db o'
              {| http := 200;
                 message := "Order status updated to "
                            ++ status_name (su_status r) |})
    as [(rest & _ & Hj) | (_ & Hj)]; rewrite Hj in *; simpl in *; congruence.
Qed.

Lemma spec_table_rank s t : In t (spec_table s) -> rank s < rank t.
Proof. destruct s, t; simpl; intros H; try lia; intuition discriminate. Qed.

(** X5.  The status route only moves an order forward: after a request
    the stored order is the one before, or it has the requested status,
    which lies at a strictly later stage than the status the order had.
    An order that is delivered, cancelled or refunded is never changed
    by this route. *)
Theorem update_status_progress now r db o :
  orders db !! su_order r = Some o ->
  (forall o', orders (snd (update_status now r db)) !! su_order r = Some o' ->
     o' = o \/
     (status o' = su_status r /\ rank (status o) < rank (status o'))) /\
  (rank (status o) = 5 ->
     snd (update_status now r db) = db /\
     http (fst (update_status now r db)) <> 200%nat).
Proof.
  intros Ho.
  destruct (update_status_cases now r db)
    as [[Hd Hn] | (o0 & o1 & Ho0 & _ & Hin & Hu & He)].
  - split; [|auto].
    intros o' Ho'. rewrite Hd, Ho in Ho'. left. congruence.
  - rewrite Ho in Ho0. injection Ho0 as <-.
    apply spec_table_rank in Hin.
    destruct (updateStatus_effect now _ _ _ _ Hu) as (Hs & _).
    split.
    + intros o' Ho'. rewrite He in Ho'. simpl in Ho'.
      rewrite lookup_insert_eq in Ho'. injection Ho' as <-. right.
      split; [exact Hs|]. rewrite Hs. exact Hin.
    + intros Hr. destruct (su_status r); simpl in Hin; lia.
Qed.

(** X6.  The refusals of the status route (400, 403, 404) write
    nothing, and the route answers 200 only for an order whose
    restaurant is gone: when the restaurant is on record, a transition
    that was saved is answered with the 500.  The route never touches
    the restaurants, the menus or any other order, and leaves the
    customer, the items, the pricing, the payment and the driver of the
    order it updates as they were. *)
Theorem update_status_frame now r db :
  let res := update_status now r db in
  (http (fst res) <> 200%nat -> http (fst res) <> 500%nat -> snd res = db) /\
  (forall o rest,
     orders db !! su_order r = Some o ->
     restaurants db !! restaurant o = Some rest ->
     http (fst res) <> 200%nat) /\
  restaurants (snd res) = restaurants db /\
  menus (snd res) = menus db /\
  (forall k, k <> su_order r -> orders (snd res) !! k = orders db !! k) /\
  (forall o o',
     orders db !! su_order r = Some o ->
     orders (snd res) !! su_order r = Some o' ->
     customer_id o' = customer_id o /\ restaurant o' = restaurant o /\
     items o' = items o /\ pricing o' = pricing o /\ payment o' = payment o /\
     deliveryDriver o' = deliveryDriver o).
Proof.
  intros res. subst res.
  split; [apply update_status_refused|].
  destruct (update_status_cases now r db)
    as [[Hd Hn] | (o0 & o1 & Ho0 & _ & _ & Hu & He)].
  - rewrite Hd. repeat split; try reflexivity; try (intros; congruence).
  - destruct (updateStatus_effect now _ _ _ _ Hu)
      as (_ & _ & _ & _ & _ & Hc & Hr & Hi & Hp & Hpay & Hdr).
    rewrite He. simpl. split; [|split; [reflexivity|split; [reflexivity|split]]].
    + intros o rest Ho Hrest. rewrite Ho0 in Ho. injection Ho as <-.
      unfold json_populated. rewrite Hr, Hrest. discriminate.
    + intros k Hk. apply lookup_insert_ne. congruence.
    + intros o o' Ho Ho'. rewrite lookup_insert_eq in Ho'. rewrite Ho0 in Ho.
      injection Ho as <-. injection Ho' as <-.
      repeat split; assumption.
Qed.

End StatusProgress.

(** The owner moves a confirmed order to preparing: the order is stored
    as preparing, a later stage. *)
Lemma update_status_progress_witness :
  let r := {| su_user := "u_owner"; su_role := restaurant_owner; su_order := "o1";
              su_status := preparing; su_estimatedTime := Some 15%Z;
              su_estimatedArrival := None; su_deliveredBy := None;
              su_signature := None; su_photo := None; su_reason := None |} in
  let db := Sample.db_with (Sample.order confirmed pay_completed (Some "pi_1")) in
  exists o', orders (snd (update_status 5 r db)) !! "o1" = Some o' /\
    status o' = preparing /\ rank confirmed < rank (status o').
Proof.
  intros r db.
  assert (Hl : exists o', orders (snd (update_status 5 r db)) !! "o1" = Some o' /\
                 status o' = preparing)
    by (eexists; split; [vm_compute; reflexivity|reflexivity]).
  destruct Hl as (o' & Ho' & Hs).
  exists o'. split; [exact Ho'|]. split; [exact Hs|].
  destruct (proj1 (update_status_progress 5 r db
                     (Sample.order confirmed pay_completed (Some "pi_1"))
                     ltac:(vm_compute; reflexivity)) o' Ho') as [He | [_ Hr]].
  - rewrite He in Hs. discriminate.
  - exact Hr.
Defined.

(** A customer asks for [delivered]: the 403, and nothing is written. *)
Lemma update_status_frame_witness :
  let r := {| su_user := "u_cust"; su_role := customer; su_order := "o1";
              su_status := delivered; su_estimatedTime := None;
              su_estimatedArrival := None; su_deliveredBy := None;
              su_signature := None; su_photo := None; su_reason := None |} in
  let db := Sample.db_with (Sample.order out_for_delivery pay_completed (Some "pi_1")) in
  snd (update_status 5 r db) = db.
Proof.
  intros r db.
  apply (proj1 (update_status_frame 5 r db)); vm_compute; discriminate.
Defined.

Section StatusEdges.

(** X7.  The validator of the status route accepts the target
    [pending], but no branch of the authorization grants it: such a
    request on an existing order is answered with the 403 for every
    user and every role, the admin included, and writes nothing. *)
Theorem update_status_to_pending now r db o :
  su_status r = pending ->
  orders db !! su_order r = Some o ->
  status_valid (su_status r) = true /\
  update_status now r db = (not_authorized_status, db).
Proof.
  intros Hs Ho. unfold update_status. rewrite Hs, Ho. split; reflexivity.
Qed.

(** The cancel route only performs a transition that the table of the
    status route has. *)
Lemma canBeCancelled_legal o :
  canBeCancelled o = true -> In cancelled (spec_table (status o)).
Proof.
  unfold canBeCancelled. destruct (status o); simpl; intros H;
    try discriminate; auto.
Qed.

(** X8.  The two ways to cancel disagree once the kitchen has started.
    For the customer of an order that is being prepared, is ready or is
    out for delivery, the cancel route refuses with the 400 and writes
    nothing, while the status route with target [cancelled] stores the
    order as cancelled, with the time, the given reason and "customer"
    in its cancelled record; its answer is then the 500 when the
    restaurant is on record. *)
Theorem cancel_routes_disagree now db id o uid why :
  orders db !! id = Some o ->
  customer_id o = uid ->
  status o = preparing \/ status o = ready_for_pickup \/ status o = out_for_delivery ->
  cancel_order now {| cn_user := uid; cn_role := customer; cn_order := id;
                      cn_req_reason := why |} db
    = ({| http := 400; message := "Order cannot be cancelled at this stage" |}, db) /\
  let res := update_status now
               {| su_user := uid; su_role := customer; su_order := id;
                  su_status := cancelled; su_estimatedTime := None;
                  su_estimatedArrival := None; su_deliveredBy := None;
                  su_signature := None; su_photo := None; su_reason := why |} db in
  (exists o', orders (snd res) !! id = Some o' /\
     status o' = cancelled /\
     trk_cancelled (tracking o')
       = Some {| cn_timestamp := now; reason := why; cancelledBy := Some "customer" |}) /\
  (forall rest, restaurants db !! restaurant o = Some rest -> fst res = server_error).
Proof.
  intros Ho Hc Hs. split.
  - unfold cancel_order, party_authorized. simpl. rewrite Ho, Hc, String.eqb_refl.
    unfold canBeCancelled. destruct Hs as [-> | [-> | ->]]; reflexivity.
  - unfold update_status, status_authorized. simpl.
    rewrite Ho, Hc, String.eqb_refl.
    destruct Hs as [Hs | [Hs | Hs]]; rewrite Hs; simpl;
      (split; [eexists; rewrite lookup_insert_eq;
               (split; [reflexivity|]); split; reflexivity
              | intros rest Hr; unfold json_populated; simpl; rewrite Hr;
                reflexivity]).
Qed.

(** X9.  The cancel route stores a cancellation exactly when the order
    exists, the requester is the customer, the restaurant owner or an
    admin, the order is pending or confirmed, and the requester's role
    is customer or admin.  It then stores the order as cancelled with
    the current time, the reason ("No reason provided" when none or an
    empty one is given) and the role, and answers with the 500 when the
    restaurant is on record and with 200 when it is gone.  In every
    other case it writes nothing and does not answer 200. *)
Theorem cancel_order_effect now r db :
  let res := cancel_order now r db in
  (forall o, cancel_saves r db o ->
     exists o',
       snd res = with_orders (<[cn_order r := o']> (orders db)) db /\
       status o' = cancelled /\
       trk_cancelled (tracking o')
         = Some {| cn_timestamp := now;
                   reason := Some (Js.str_or (cn_req_reason r) "No reason provided");
                   cancelledBy := Some (role_name (cn_role r)) |} /\
       (forall rest, restaurants db !! restaurant o = Some rest ->
          fst res = server_error) /\
       (restaurants db !! restaurant o = None -> http (fst res) = 200%nat)) /\
  ((forall o, ~ cancel_saves r db o) ->
     snd res = db /\ http (fst res) <> 200%nat).
Proof.
  unfold cancel_saves. cbv zeta. unfold cancel_order.
  destruct (orders db !! cn_order r) as [o|] eqn:Ho.
  2:{ split; [intros o (Hx & _); discriminate|].
      intros _. split; [reflexivity|discriminate]. }
  destruct (party_authorized db o (cn_user r) (cn_role r)) as [[|]|] eqn:Ha.
  2,3: split; [intros o0 (Hx & Hy & _); injection Hx as <-; congruence
              | intros _; split; [reflexivity|discriminate]].
  destruct (canBeCancelled o) eqn:Hc; simpl.
  2:{ split; [intros o0 (Hx & _ & Hy & _); injection Hx as <-; congruence|].
      intros _. split; [reflexivity|discriminate]. }
  rewrite updateStatus_cancelled. cbn [ad_cancelledBy].
  destruct (cn_role r) eqn:Hr; simpl.
  - split.
    + intros o0 (Hx & _). injection Hx as <-. eexists.
      split; [reflexivity|]. split; [reflexivity|]. split; [reflexivity|].
      unfold json_populated. simpl. split.
      * intros rest Hrest. rewrite Hrest. reflexivity.
      * intros Hrest. rewrite Hrest. reflexivity.
    + intros Hn. exfalso. apply (Hn o). auto.
  - split; [intros o0 (_ & _ & _ & [Hx|Hx]); discriminate|].
    intros _. split; [reflexivity|discriminate].
  - split; [intros o0 (_ & _ & _ & [Hx|Hx]); discriminate|].
    intros _. split; [reflexivity|discriminate].
  - split.
    + intros o0 (Hx & _). injection Hx as <-. eexists.
      split; [reflexivity|]. split; [reflexivity|]. split; [reflexivity|].
      unfold json_populated. simpl. split.
      * intros rest Hrest. rewrite Hrest. reflexivity.
      * intros Hrest. rewrite Hrest. reflexivity.
    + intros Hn. exfalso. apply (Hn o). auto.
Qed.

End StatusEdges.

Lemma update_status_to_pending_witness :
  let r := {| su_user := "u_admin"; su_role := admin; su_order := "o1";
              su_status := pending; su_estimatedTime := None;
              su_estimatedArrival := None; su_deliveredBy := None;
              su_signature := None; su_photo := None; su_reason := None |} in
  let db := Sample.db_with (Sample.order confirmed pay_pending None) in
  update_status 5 r db = (not_authorized_status, db).
Proof.
  intros r db.
  apply (update_status_to_pending 5 r db (Sample.order confirmed pay_pending None)).
  - reflexivity.
  - vm_compute. reflexivity.
Defined.

(** The customer of an order that is being prepared: the cancel route
    refuses. *)
Lemma cancel_routes_disagree_witness :
  let db := Sample.db_with (Sample.order preparing pay_pending None) in
  cancel_order 5 {| cn_user := "u_cust"; cn_role := customer; cn_order := "o1";
                    cn_req_reason := Some "too slow" |} db
  = ({| http := 400; message := "Order cannot be cancelled at this stage" |}, db).
Proof.
  intros db.
  apply (cancel_routes_disagree 5 db "o1" (Sample.order preparing pay_pending None)
           "u_cust" (Some "too slow")).
  - vm_compute. reflexivity.
  - reflexivity.
  - left. reflexivity.
Defined.

(** The customer cancels a confirmed order whose restaurant is on
    record: the cancellation is stored and the answer is the 500. *)
Lemma cancel_order_effect_witness :
  let r := {| cn_user := "u_cust"; cn_role := customer; cn_order := "o1";
              cn_req_reason := None |} in
  let db := Sample.db_with (Sample.order confirmed pay_pending None) in
  exists o',
    snd (cancel_order 5 r db) = with_orders (<[ "o1" := o' ]> (orders db)) db /\
    status o' = cancelled /\
    trk_cancelled (tracking o')
      = Some {| cn_timestamp := 5; reason := Some "No reason provided";
                cancelledBy := Some "customer" |} /\
    fst (cancel_order 5 r db) = server_error.
Proof.
  intros r db.
  destruct (proj1 (cancel_order_effect 5 r db)
              (Sample.order confirmed pay_pending None))
    as (o' & Hs & Hst & Ht & Hresp & _).
  - split; [vm_compute; reflexivity|]. split; [vm_compute; reflexivity|].
    split; [reflexivity|]. left. reflexivity.
  - exists o'. split; [exact Hs|]. split; [exact Hst|]. split; [exact Ht|].
    apply (Hresp Sample.bistro). vm_compute. reflexivity.
Defined.

(** ** Order creation *)

Section Creation.

Local Open Scope Q_scope.

(** The early returns of the creation handler are 400s and 404s. *)
Lemma create_order_data_inl now r db resp :
  create_order_data now r db = inl resp ->
  http resp = 400%nat \/ http resp = 404%nat.
Proof.
  unfold create_order_data. intros H.
  repeat case_match; simplify_eq; simpl; auto.
  match goal with
  | Hp : price_items _ _ _ _ = inl _ |- _ =>
      destruct (price_items_inl _ _ _ _ _ Hp) as (x & _ & ->)
  end.
  left. reflexivity.
Qed.

Lemma line_of_available m l its :
  Forall2 (line_of m) l its -> Forall (fun ri => ~ unavailable m ri) l.
Proof.
  induction 1 as [|ri it l l' (mi & Hmi & Ha & _) _ IH]; constructor; [|exact IH].
  unfold unavailable. rewrite Hmi. congruence.
Qed.

(** X10.  Order creation never stores anything and never answers 201.
    A request is turned down by a check of the handler with a 400 or a
    404, or it passes them all, and then it is answered with the 500:
    that happens exactly when the request is valid, the restaurant and
    its menu are on record and active, and every requested item is on
    the menu and available. *)
Theorem create_order_writes now id r db :
  let res := create_order now id r db in
  snd res = db /\
  http (fst res) <> 201%nat /\
  (http (fst res) = 500%nat <->
   create_valid r = true /\
   exists rest m,
     restaurants db !! co_restaurant r = Some rest /\ isActive rest = true /\
     menus db !! co_restaurant r = Some m /\ menu_isActive m = true /\
     Forall (fun ri => ~ unavailable m ri) (co_items r)).
Proof.
  intros res. subst res. rewrite create_order_outcome.
  destruct (create_order_data now r db) as [resp|o] eqn:Hd; simpl.
  - split; [reflexivity|].
    destruct (create_order_data_inl _ _ _ _ Hd) as [Hc|Hc]; rewrite Hc.
    + split; [discriminate|]. split; [discriminate|].
      intros (Hv & rest & m & Hr & Ha & Hm & Hma & Hall).
      rewrite (create_order_data_priced now r db rest m Hv Hr Ha Hm Hma) in Hd.
      destruct (price_items_available _ _ Hall [] 0) as (its & sub & Hp).
      rewrite Hp in Hd. discriminate.
    + split; [discriminate|]. split; [discriminate|].
      intros (Hv & rest & m & Hr & Ha & Hm & Hma & Hall).
      rewrite (create_order_data_priced now r db rest m Hv Hr Ha Hm Hma) in Hd.
      destruct (price_items_available _ _ Hall [] 0) as (its & sub & Hp).
      rewrite Hp in Hd. discriminate.
  - split; [reflexivity|]. split; [discriminate|]. split; [|reflexivity].
    intros _.
    destruct (create_order_data_inr _ _ _ _ Hd)
      as (rest & m & its & sub & Hv & Hr & Ha & Hm & Hma & Hp & _).
    split; [exact Hv|]. exists rest, m. repeat split; try assumption.
    destruct (price_items_lines _ _ _ _ _ _ Hp) as (new & _ & Hl).
    eapply line_of_available. exact Hl.
Qed.

(** The lines of the data handed to [Order.create]. *)
Lemma create_order_data_lines now r db o :
  create_order_data now r db = inr o ->
  exists m,
    menus db !! co_restaurant r = Some m /\
    Forall2 (line_of m) (co_items r) (items o) /\
    Forall (fun it => (1 <= quantity it)%Z) (items o).
Proof.
  intros H.
  destruct (create_order_data_inr _ _ _ _ H)
    as (rest & m & its & sub & Hv & _ & _ & Hm & _ & Hp & ->).
  exists m. simpl.
  destruct (price_items_lines _ _ _ _ _ _ Hp) as (new & -> & Hl). simpl.
  split; [exact Hm|]. split; [exact Hl|].
  unfold create_valid in Hv. apply andb_prop in Hv as [_ Hq].
  rewrite forallb_forall in Hq.
  clear Hp H. induction Hl as [|ri it l l' (mi & Hmi & Ha & ->) Hl IH];
    [constructor|].
  constructor.
  - simpl. apply Z.leb_le. apply Hq. left. reflexivity.
  - apply IH. intros x Hx. apply Hq. right. exact Hx.
Qed.

Lemma line_of_fields m ri it :
  line_of m ri it ->
  menuItem it = ri_menuItem ri /\ quantity it = ri_quantity ri /\
  size it = ri_size ri.
Proof.
  intros (mi & Hmi & _ & ->). simpl.
  apply find_some in Hmi as [_ Heq]. apply String.eqb_eq in Heq.
  rewrite Heq. auto.
Qed.

(** X11.  The order data that the handler hands to [Order.create] has
    one line per requested line, in the order of the request: each is
    the snapshot of an available menu item (its id, name and unit
    price) with the requested quantity, size and customizations.  There
    is at least one line and every quantity is at least 1. *)
Theorem create_order_lines now r db o :
  create_order_data now r db = inr o ->
  exists m,
    menus db !! co_restaurant r = Some m /\
    Forall2 (line_of m) (co_items r) (items o) /\
    map menuItem (items o) = map ri_menuItem (co_items r) /\
    map quantity (items o) = map ri_quantity (co_items r) /\
    map size (items o) = map ri_size (co_items r) /\
    items o <> [] /\
    Forall (fun it => (1 <= quantity it)%Z) (items o).
Proof.
  intros H.
  destruct (create_order_data_lines now r db o H) as (m & Hm & Hl & Hq).
  destruct (create_order_data_inr _ _ _ _ H) as (_ & _ & _ & _ & Hv & _).
  exists m. split; [exact Hm|]. split; [exact Hl|].
  assert (Hmaps : map menuItem (items o) = map ri_menuItem (co_items r) /\
                  map quantity (items o) = map ri_quantity (co_items r) /\
                  map size (items o) = map ri_size (co_items r)).
  { clear -Hl. induction Hl as [|ri it l l' Hx _ IH]; [auto|].
    destruct IH as (I1 & I2 & I3).
    destruct (line_of_fields _ _ _ Hx) as (F1 & F2 & F3).
    simpl. rewrite I1, I2, I3, F1, F2, F3. auto. }
  destruct Hmaps as (I1 & I2 & I3).
  repeat split; try assumption.
  intros Hnil. rewrite Hnil in Hl. inversion Hl as [Hn|].
  unfold create_valid in Hv. rewrite <- Hn in Hv. discriminate.
Qed.

End Creation.

(** A valid request for an available pizza passes every check and is
    answered with the 500. *)
Lemma create_order_writes_witness :
  let r := Sample.request [Sample.line "m1" 1 None None] pickup None None in
  http (fst (create_order 1000 "o1" r Sample.db0)) = 500%nat.
Proof.
  intros r.
  apply (proj2 (proj2 (proj2 (create_order_writes 1000 "o1" r Sample.db0)))).
  split; [reflexivity|].
  exists Sample.bistro,
    {| menu_isActive := true; menu_items := [Sample.pizza; Sample.soup] |}.
  repeat split; try (vm_compute; reflexivity).
  constructor; [|constructor].
  unfold unavailable. vm_compute. discriminate.
Defined.

Lemma create_order_lines_witness :
  let r := Sample.request
             [Sample.line "m1" 2 (Some "large") None; Sample.line "m1" 1 None None]
             delivery (Some "1 Main St") None in
  exists o m,
    create_order_data 1000 r Sample.db0 = inr o /\
    menus Sample.db0 !! "r1" = Some m /\
    Forall2 (line_of m) (co_items r) (items o) /\
    map menuItem (items o) = ["m1"; "m1"] /\
    map quantity (items o) = [2%Z; 1%Z] /\
    map size (items o) = [Some "large"; None] /\
    items o <> [] /\
    Forall (fun it => (1 <= quantity it)%Z) (items o).
Proof.
  intros r.
  assert (Hd : exists o, create_order_data 1000 r Sample.db0 = inr o)
    by (eexists; vm_compute; reflexivity).
  destruct Hd as (o & Hd).
  destruct (create_order_lines 1000 r Sample.db0 o Hd) as (m & H).
  exists o, m. split; [exact Hd|exact H].
Defined.

Section NonNegative.

Local Open Scope Q_scope.

Lemma add_option_mono mc acc o :
  Forall (fun x => 0 <= opt_price x) (cust_options mc) ->
  acc <= add_option mc acc o.
Proof.
  intros Hm. unfold add_option.
  destruct (find _ (cust_options mc)) as [x|] eqn:E; [|lra].
  apply find_some in E as [Hin _].
  rewrite List.Forall_forall in Hm. specialize (Hm x Hin). simpl in Hm. lra.
Qed.

Lemma fold_add_option_mono mc os :
  Forall (fun x => 0 <= opt_price x) (cust_options mc) ->
  forall acc, acc <= fold_left (add_option mc) os acc.
Proof.
  intros Hm. induction os as [|o os IH]; intros acc; simpl; [lra|].
  pose proof (add_option_mono mc acc o Hm). pose proof (IH (add_option mc acc o)).
  lra.
Qed.

Lemma add_customization_mono mi acc c :
  item_nonneg mi -> acc <= add_customization mi acc c.
Proof.
  intros (_ & _ & Hc). unfold add_customization.
  destruct (find _ (mi_customizations mi)) as [mc|] eqn:E; [|lra].
  apply find_some in E as [Hin _].
  rewrite List.Forall_forall in Hc. apply fold_add_option_mono. apply Hc. exact Hin.
Qed.

Lemma customizationTotal_nonneg mi cs :
  item_nonneg mi -> 0 <= customizationTotal mi cs.
Proof.
  intros Hn. destruct cs as [l|]; simpl; [|lra].
  assert (H : forall acc, acc <= fold_left (add_customization mi) l acc).
  { induction l as [|c l IH]; intros acc; simpl; [lra|].
    pose proof (add_customization_mono mi acc c Hn).
    pose proof (IH (add_customization mi acc c)). lra. }
  apply H.
Qed.

Lemma itemPrice_nonneg mi sz : item_nonneg mi -> 0 <= itemPrice mi sz.
Proof.
  intros (Hp & Hs & _). unfold itemPrice.
  destruct sz as [n|]; [|exact Hp].
  destruct (0 <? length (sizes mi))%nat; [|exact Hp].
  destruct (find _ (sizes mi)) as [s|] eqn:E; [|exact Hp].
  apply find_some in E as [Hin _].
  rewrite List.Forall_forall in Hs. exact (Hs s Hin).
Qed.

Lemma order_item_nonneg mi ri :
  item_nonneg mi -> (0 <= ri_quantity ri)%Z -> 0 <= item_subtotal (order_item mi ri).
Proof.
  intros Hn Hq. simpl. apply Qmult_le_0_compat.
  - pose proof (itemPrice_nonneg mi (ri_size ri) Hn).
    pose proof (customizationTotal_nonneg mi (ri_customizations ri) Hn). lra.
  - unfold Qle. simpl. lia.
Qed.

Lemma lines_total_nonneg l :
  Forall (fun it => 0 <= item_subtotal it) l -> 0 <= lines_total l.
Proof.
  induction 1 as [|x l Hx _ IH].
  - unfold lines_total. simpl. lra.
  - change (x :: l) with ([x] ++ l)%list. rewrite lines_total_app.
    unfold lines_total at 1. simpl. lra.
Qed.

(** X12.  With a menu that has no negative price, a delivery fee that
    is not negative and a tip that is absent or not negative, the
    pricing that the handler hands to [Order.create] has no negative
    part, and its total is not negative and at least the subtotal. *)
Theorem create_order_total_nonneg now r db o :
  create_order_data now r db = inr o ->
  (forall m, menus db !! co_restaurant r = Some m -> menu_nonneg m) ->
  (forall rest, restaurants db !! co_restaurant r = Some rest ->
     0 <= rest_deliveryFee rest) ->
  match co_tip r with Some t => 0 <= t | None => True end ->
  let p := pricing o in
  0 <= subtotal p /\ 0 <= tax p /\ 0 <= serviceFee p /\
  0 <= deliveryFee p /\ 0 <= tip p /\
  subtotal p <= total p /\ 0 <= total p.
Proof.
  intros H Hmenu Hfee Htip.
  destruct (create_order_data_lines now r db o H) as (m & Hm & Hl & Hq1).
  destruct (create_order_breakdown now r db o H)
    as (rest & Hr & Hsub & Htax & Hsf & Hdf & Hdisc & Htp & Htot).
  cbv zeta in *.
  assert (Hs : 0 <= subtotal (pricing o)).
  { rewrite Hsub. apply lines_total_nonneg.
    specialize (Hmenu m Hm). unfold menu_nonneg in Hmenu.
    rewrite List.Forall_forall in Hmenu.
    clear -Hl Hmenu Hq1.
    induction Hl as [|ri it l l' (mi & Hmi & _ & ->) _ IH]; [constructor|].
    inversion Hq1 as [|? ? Hq0 Hq']; subst.
    constructor; [|apply IH; exact Hq'].
    apply order_item_nonneg.
    - apply Hmenu. apply find_some in Hmi as [Hin _]. exact Hin.
    - simpl in Hq0. lia. }
  assert (Hf : 0 <= deliveryFee (pricing o)).
  { rewrite Hdf. destruct (co_orderType r); [apply (Hfee rest Hr)|lra]. }
  assert (Ht : 0 <= tip (pricing o)).
  { rewrite Htp. unfold Js.num_or. destruct (co_tip r) as [t|]; [|lra].
    destruct (Qeq_bool t 0); [lra|exact Htip]. }
  assert (Hd : discount (pricing o) == 0) by (rewrite Hdisc; reflexivity).
  repeat split; lra.
Qed.

End NonNegative.

Lemma create_order_total_nonneg_witness :
  let r := Sample.request [Sample.line "m1" 5 None None] delivery
             (Some "1 Main St") (Some 5%Q) in
  exists o, create_order_data 1000 r Sample.db0 = inr o /\
    (0 <= subtotal (pricing o))%Q /\ (subtotal (pricing o) <= total (pricing o))%Q.
Proof.
  intros r.
  assert (Hd : exists o, create_order_data 1000 r Sample.db0 = inr o)
    by (eexists; vm_compute; reflexivity).
  destruct Hd as (o & Hd).
  destruct (create_order_total_nonneg 1000 r Sample.db0 o Hd)
    as (H1 & _ & _ & _ & _ & H2 & _).
  - intros m Hm. vm_compute in Hm. injection Hm as <-.
    repeat constructor; simpl; unfold Qle; simpl; lia.
  - intros rest Hr. vm_compute in Hr. injection Hr as <-. unfold Qle. simpl. lia.
  - unfold Qle. simpl. lia.
  - exists o. auto.
Defined.

(** ** Repeating an order and assigning a driver *)

Section RepeatAssign.

(** X13.  Repeating an order never stores anything and never answers
    201.  The request is turned down with the 404, the 403 or the 400
    of the handler, or it passes its checks and is answered with the
    500: that happens exactly when the original exists, the requester
    is its customer and its restaurant is on record and active,
    whatever the status of the original. *)
Theorem repeat_order_outcome now id r db :
  let res := repeat_order now id r db in
  snd res = db /\
  http (fst res) <> 201%nat /\
  (fst res = server_error <->
   exists orig rest,
     orders db !! rp_order r = Some orig /\ customer_id orig = rp_user r /\
     restaurants db !! restaurant orig = Some rest /\ isActive rest = true).
Proof.
  intros res. subst res. split; [apply repeat_order_unchanged|].
  unfold repeat_order.
  destruct (orders db !! rp_order r) as [orig|] eqn:Ho.
  2:{ simpl. split; [discriminate|]. split; [discriminate|].
      intros (x & y & Hx & _). discriminate. }
  destruct (String.eqb (customer_id orig) (rp_user r)) eqn:Hc; simpl.
  2:{ split; [discriminate|]. split; [discriminate|].
      intros (x & y & Hx & Hy & _). injection Hx as <-.
      apply String.eqb_neq in Hc. contradiction. }
  apply String.eqb_eq in Hc.
  destruct (restaurants db !! restaurant orig) as [rest|] eqn:Hr.
  2:{ simpl. split; [discriminate|]. split; [discriminate|].
      intros (x & y & Hx & _ & Hy & _). injection Hx as <-. congruence. }
  destruct (isActive rest) eqn:Ha; simpl.
  2:{ split; [discriminate|]. split; [discriminate|].
      intros (x & y & Hx & _ & Hy & Hz). injection Hx as <-. congruence. }
  split; [discriminate|]. split; [|reflexivity].
  intros _. exists orig, rest. auto.
Qed.

(** X14.  The assign-driver route saves exactly when the order exists,
    the requester is an admin or the restaurant owner whose restaurant
    the order belongs to, and the driver exists, has the role
    delivery_driver and is active.  The order then names that driver
    and keeps its status, tracking, payment and pricing; from then on
    the status route grants that driver the targets out_for_delivery
    and delivered, and grants them to no other driver.  The answer is
    the 500 when the restaurant is on record and 200 when it is gone.
    In every other case the route writes nothing and does not answer
    200. *)
Theorem assign_driver_effect users r db :
  let res := assign_driver users r db in
  (forall o, assign_saves users r db o ->
     exists o',
       snd res = with_orders (<[as_order r := o']> (orders db)) db /\
       deliveryDriver o' = Some (as_driverId r) /\
       status o' = status o /\ tracking o' = tracking o /\
       payment o' = payment o /\ pricing o' = pricing o /\
       (forall role,
          status_authorized (snd res) o' (as_driverId r) role out_for_delivery
          = Some true /\
          status_authorized (snd res) o' (as_driverId r) role delivered
          = Some true) /\
       (forall d, d <> as_driverId r ->
          status_authorized (snd res) o' d delivery_driver delivered
          = Some false) /\
       (forall rest, restaurants db !! restaurant o = Some rest ->
          fst res = server_error) /\
       (restaurants db !! restaurant o = None -> http (fst res) = 200%nat)) /\
  ((forall o, ~ assign_saves users r db o) ->
     snd res = db /\ http (fst res) <> 200%nat).
Proof.
  intros res. subst res.
  assert (Hsaved : forall o drv,
            orders db !! as_order r = Some o ->
            foreign_owner db o (as_user r) (as_role r) = Some false ->
            existsb (role_eqb (as_role r)) [admin; restaurant_owner] = true ->
            users !! as_driverId r = Some drv ->
            u_role drv = delivery_driver -> u_isActive drv = true ->
            exists o',
              snd (assign_driver users r db)
              = with_orders (<[as_order r := o']> (orders db)) db /\
              deliveryDriver o' = Some (as_driverId r) /\
              status o' = status o /\ tracking o' = tracking o /\
              payment o' = payment o /\ pricing o' = pricing o /\
              (forall role,
                 status_authorized (snd (assign_driver users r db)) o'
                   (as_driverId r) role out_for_delivery = Some true /\
                 status_authorized (snd (assign_driver users r db)) o'
                   (as_driverId r) role delivered = Some true) /\
              (forall d, d <> as_driverId r ->
                 status_authorized (snd (assign_driver users r db)) o' d
                   delivery_driver delivered = Some false) /\
              (forall rest, restaurants db !! restaurant o = Some rest ->
                 fst (assign_driver users r db) = server_error) /\
              (restaurants db !! restaurant o = None ->
                 http (fst (assign_driver users r db)) = 200%nat)).
  { intros o drv Ho Hf Hau Hd Hdr Hda.
    unfold assign_driver, authorize. rewrite Hau, Ho, Hf, Hd, Hdr, Hda. simpl.
    eexists. split; [reflexivity|]. repeat split.
    - unfold status_authorized, driver_equals. simpl.
      rewrite String.eqb_refl. reflexivity.
    - unfold status_authorized, driver_equals. simpl.
      rewrite String.eqb_refl. reflexivity.
    - intros d Hne. unfold status_authorized, driver_equals. simpl.
      apply not_eq_sym in Hne. apply String.eqb_neq in Hne. rewrite Hne.
      reflexivity.
    - intros rest Hrest. unfold json_populated. simpl. rewrite Hrest. reflexivity.
    - intros Hrest. unfold json_populated. simpl. rewrite Hrest. reflexivity. }
  split.
  - intros o (Ho & Hrole & drv & Hd & Hdr & Hda).
    apply (Hsaved o drv); try assumption.
    + destruct Hrole as [Hro | (Hro & rest & Hrest & Hown)];
        unfold foreign_owner, owner_equals; rewrite Hro; [reflexivity|].
      rewrite Hrest, Hown, String.eqb_refl. reflexivity.
    + destruct Hrole as [Hro | (Hro & _)]; rewrite Hro; reflexivity.
  - intros Hn. unfold assign_saves in Hn.
    unfold assign_driver, authorize, foreign_owner, owner_equals.
    destruct (as_role r) eqn:Hro; simpl;
      try (split; [reflexivity|discriminate]).
    + destruct (orders db !! as_order r) as [o|] eqn:Ho; simpl;
        [|split; [reflexivity|discriminate]].
      destruct (restaurants db !! restaurant o) as [rest|] eqn:Hr; simpl;
        [|split; [reflexivity|discriminate]].
      destruct (String.eqb (owner rest) (as_user r)) eqn:He; simpl;
        [|split; [reflexivity|discriminate]].
      apply String.eqb_eq in He.
      destruct (users !! as_driverId r) as [drv|] eqn:Hd; simpl;
        [|split; [reflexivity|discriminate]].
      destruct (u_role drv) eqn:Hdr; destruct (u_isActive drv) eqn:Hda; simpl;
        try (split; [reflexivity|discriminate]).
      exfalso. apply (Hn o). split; [reflexivity|]. split.
      * right. split; [reflexivity|]. exists rest. auto.
      * exists drv. auto.
    + destruct (orders db !! as_order r) as [o|] eqn:Ho; simpl;
        [|split; [reflexivity|discriminate]].
      destruct (users !! as_driverId r) as [drv|] eqn:Hd; simpl;
        [|split; [reflexivity|discriminate]].
      destruct (u_role drv) eqn:Hdr; destruct (u_isActive drv) eqn:Hda; simpl;
        try (split; [reflexivity|discriminate]).
      exfalso. apply (Hn o). split; [reflexivity|]. split.
      * left. reflexivity.
      * exists drv. auto.
Qed.

End RepeatAssign.

(** Repeating a cancelled order of one's own at an active restaurant:
    the 500. *)
Lemma repeat_order_outcome_witness :
  let db := Sample.db_with (Sample.order cancelled pay_failed (Some "pi_1")) in
  let r := {| rp_user := "u_cust"; rp_order := "o1";
              rp_deliveryAddress := None; rp_paymentMethod := Some cash |} in
  fst (repeat_order 20 "o2" r db) = server_error.
Proof.
  intros db r.
  apply (proj2 (proj2 (proj2 (repeat_order_outcome 20 "o2" r db)))).
  exists (Sample.order cancelled pay_failed (Some "pi_1")), Sample.bistro.
  repeat split; vm_compute; reflexivity.
Defined.

(** The owner of the restaurant assigns an active driver: the driver is
    stored and the answer is the 500. *)
Lemma assign_driver_effect_witness :
  let users : gmap string User :=
    {[ "u_driver2" := {| u_role := delivery_driver; u_isActive := true;
                          u_phone := "555-0102"; addresses := [];
                          favoriteRestaurants := [] |} ]} in
  let db := Sample.db_with (Sample.order ready_for_pickup pay_completed (Some "pi_1")) in
  let r := {| as_user := "u_owner"; as_role := restaurant_owner;
              as_order := "o1"; as_driverId := "u_driver2" |} in
  exists o',
    snd (assign_driver users r db) = with_orders (<[ "o1" := o' ]> (orders db)) db /\
    deliveryDriver o' = Some "u_driver2" /\
    fst (assign_driver users r db) = server_error.
Proof.
  intros users db r.
  destruct (proj1 (assign_driver_effect users r db)
              (Sample.order ready_for_pickup pay_completed (Some "pi_1")))
    as (o' & Hs & Hd & _ & _ & _ & _ & _ & _ & Hresp & _).
  - split; [vm_compute; reflexivity|]. split.
    + right. split; [reflexivity|]. exists Sample.bistro.
      split; [vm_compute; reflexivity|reflexivity].
    + eexists. split; [vm_compute; reflexivity|]. split; reflexivity.
  - exists o'. split; [exact Hs|]. split; [exact Hd|].
    apply (Hresp Sample.bistro). vm_compute. reflexivity.
Defined.

(** ** Invariants of the stored orders *)

Lemma all_orders_insert (P : Order -> Prop) db k o :
  all_orders P db -> P o -> all_orders P (with_orders (<[k := o]> (orders db)) db).
Proof.
  intros Hdb Ho k' o'. simpl. rewrite lookup_insert.
  case_decide; intros Hl; [injection Hl as <-; exact Ho | eauto].
Qed.

Lemma find_by_intent_intent (os : gmap string Order) id k o :
  find_by_intent os id = Some (k, o) ->
  stripePaymentIntentId (payment o) = Some id.
Proof.
  unfold find_by_intent. intros H.
  apply find_some in H as [_ Hp]. simpl in Hp.
  destruct (stripePaymentIntentId (payment o)) as [i|]; [|discriminate].
  apply String.eqb_eq in Hp. congruence.
Qed.

Lemma tracking_wf_set_payment p o : tracking_wf o -> tracking_wf (set_payment p o).
Proof. intros H. exact H. Qed.

Lemma tracking_wf_pending o : status o = pending -> tracking_wf o.
Proof.
  intros Hs. split; rewrite Hs; [simpl; eauto | discriminate].
Qed.

(** Tactics for the case analysis of a route: the collection is the
    old one, or the old one with one order replaced. *)
Ltac keep_all :=
  match goal with
  | H : all_orders ?P ?db |- all_orders ?P ?db => exact H
  | |- all_orders _ (with_orders (<[_ := _]> _) _) =>
      apply all_orders_insert; [assumption|]
  end.

Ltac from_db Hdb :=
  repeat match goal with
  | Hf : find_by_intent _ _ = Some _ |- _ =>
      let Hi := fresh "Hi" in
      pose proof (find_by_intent_intent _ _ _ _ Hf) as Hi;
      apply find_by_intent_lookup in Hf; apply Hdb in Hf
  | Hl : orders _ !! _ = Some _ |- _ => apply Hdb in Hl
  end.

Lemma step_tracking_wf db db' :
  all_orders tracking_wf db -> step db db' -> all_orders tracking_wf db'.
Proof.
  intros Hdb Hs. destruct Hs.
  - rewrite create_order_outcome.
    destruct (create_order_data now r db); exact Hdb.
  - unfold update_status. repeat case_match; simpl; try keep_all.
    eapply updateStatus_tracking_wf; eassumption.
  - unfold cancel_order. repeat case_match; simpl; try keep_all.
    eapply updateStatus_tracking_wf; eassumption.
  - unfold create_intent. repeat case_match; simpl; try keep_all.
    from_db Hdb. assumption.
  - unfold confirm_payment, apply_intent.
    repeat case_match; simpl; try keep_all; simplify_eq;
      try (eapply updateStatus_tracking_wf; eassumption);
      from_db Hdb; assumption.
  - unfold refund_order. repeat case_match; simpl; try keep_all.
    eapply updateStatus_tracking_wf; eassumption.
  - unfold webhook, apply_succeeded_event.
    repeat case_match; simpl; try keep_all; simplify_eq;
      try (eapply updateStatus_tracking_wf; eassumption);
      from_db Hdb; assumption.
Qed.

Lemma route_step_tracking_wf db db' :
  all_orders tracking_wf db -> route_step db db' -> all_orders tracking_wf db'.
Proof.
  intros Hdb Hs. destruct Hs as [db db' Hs | users r db | now id r db].
  - eapply step_tracking_wf; eassumption.
  - unfold assign_driver. repeat case_match; simpl; try keep_all.
    from_db Hdb. assumption.
  - rewrite repeat_order_unchanged. exact Hdb.
Qed.

(** X2.  Every request keeps the tracking of the stored orders
    complete: the status an order is in (other than refunded, which has
    no tracking record) has its timestamp, and a delivered order has its
    delivery time.  This holds in every state the routes reach from a
    collection without orders. *)
Theorem tracking_complete :
  (forall db db',
     all_orders tracking_wf db -> route_step db db' -> all_orders tracking_wf db') /\
  (forall db0 db,
     orders db0 = ∅ -> rtc route_step db0 db -> all_orders tracking_wf db).
Proof.
  split; [exact route_step_tracking_wf|].
  intros db0 db H0 Hr.
  assert (Hinit : all_orders tracking_wf db0).
  { intros k o. rewrite H0, lookup_empty. discriminate. }
  clear H0. induction Hr as [|x y z Hxy _ IH]; [exact Hinit|].
  apply IH. eapply route_step_tracking_wf; eassumption.
Qed.

(** The restaurant owner confirms a pending order. *)
Lemma tracking_complete_witness :
  let db := Sample.db_with (Sample.order pending pay_pending None) in
  let s := {| su_user := "u_owner"; su_role := restaurant_owner; su_order := "o1";
              su_status := confirmed; su_estimatedTime := Some 25%Z;
              su_estimatedArrival := None; su_deliveredBy := None;
              su_signature := None; su_photo := None; su_reason := None |} in
  all_orders tracking_wf (snd (update_status 2000 s db)) /\
  exists o', orders (snd (update_status 2000 s db)) !! "o1" = Some o' /\
    status o' = confirmed.
Proof.
  intros db s. split.
  - apply (proj1 tracking_complete db).
    + intros k o Hl. unfold db, Sample.db_with in Hl.
      cbn [orders with_orders] in Hl.
      apply lookup_singleton_Some in Hl as [_ <-].
      apply tracking_wf_pending. reflexivity.
    + apply route_base. apply (step_status 2000 s).
  - eexists. split; [vm_compute; reflexivity|reflexivity].
Defined.

Section PaymentInvariant.

Lemma payment_wf_pending o :
  pstatus (payment o) = pay_pending -> payment_wf o.
Proof.
  intros Hp. unfold payment_wf. rewrite Hp.
  repeat split; intros; congruence.
Qed.

(** A status change keeps the payment coherent when the order was not
    refunded before. *)
Lemma payment_wf_updateStatus now s ad o o' :
  updateStatus now s ad o = Some o' ->
  status o <> refunded -> payment_wf o -> payment_wf o'.
Proof.
  intros Hu Hs (H1 & H2 & H3).
  destruct (updateStatus_effect now s ad o o' Hu)
    as (_ & _ & _ & _ & _ & _ & _ & _ & _ & Hp & _).
  unfold payment_wf. rewrite Hp. split; [exact H1|]. split; [exact H2|].
  intros Hr. destruct (H3 Hr) as (Hx & _). contradiction.
Qed.

Lemma payment_wf_paid now id s o o' :
  is_Some (stripePaymentIntentId (payment o)) ->
  (o' = mark_paid now id o \/ updateStatus now s no_data (mark_paid now id o) = Some o') ->
  payment_wf o'.
Proof.
  intros Hi [-> | Hu].
  - unfold payment_wf. simpl.
    repeat split; intros; try congruence; try (eexists; reflexivity); eauto.
  - destruct (updateStatus_effect now s no_data _ o' Hu)
      as (_ & _ & _ & _ & _ & _ & _ & _ & _ & Hp & _).
    unfold payment_wf. rewrite Hp. simpl.
    repeat split; intros; try congruence; try (eexists; reflexivity); eauto.
Qed.

Lemma payment_wf_set_pstatus ps o :
  ps <> pay_completed -> ps <> pay_refunded ->
  is_Some (stripePaymentIntentId (payment o)) ->
  payment_wf (set_payment (set_pstatus ps (payment o)) o).
Proof.
  intros H1 H2 Hi. unfold payment_wf. simpl.
  repeat split; auto; intros; congruence.
Qed.

Lemma validTransitions_not_refunded s l :
  validTransitions s = Some l -> s <> refunded.
Proof. destruct s; simpl; congruence. Qed.

Lemma canBeCancelled_not_refunded o :
  negb (canBeCancelled o) = false -> status o <> refunded.
Proof.
  unfold canBeCancelled. destruct (status o); simpl; congruence.
Qed.

Lemma step_payment_wf db db' :
  all_orders payment_wf db -> step db db' -> all_orders payment_wf db'.
Proof.
  intros Hdb Hs. destruct Hs.
  - rewrite create_order_outcome.
    destruct (create_order_data now r db); exact Hdb.
  - unfold update_status. repeat case_match; simpl; try keep_all.
    eapply payment_wf_updateStatus; [eassumption| |eauto].
    eapply validTransitions_not_refunded; eassumption.
  - unfold cancel_order. repeat case_match; simpl; try keep_all.
    eapply payment_wf_updateStatus; [eassumption| |eauto].
    apply canBeCancelled_not_refunded; assumption.
  - unfold create_intent. repeat case_match; simpl; try keep_all.
    unfold payment_wf. simpl. repeat split; intros; try congruence; try (eexists; reflexivity); eauto.
  - unfold confirm_payment, apply_intent.
    repeat case_match; simpl; try keep_all; simplify_eq.
    + eapply payment_wf_paid; [|right; eassumption].
      erewrite find_by_intent_intent by eassumption. eauto.
    + apply payment_wf_set_pstatus; try discriminate.
      erewrite find_by_intent_intent by eassumption. eauto.
    + apply payment_wf_set_pstatus; try discriminate.
      erewrite find_by_intent_intent by eassumption. eauto.
    + from_db Hdb. assumption.
  - unfold refund_order. repeat case_match; simpl; try keep_all.
    match goal with
    | Hu : updateStatus _ refunded _ _ = Some _ |- _ =>
        destruct (updateStatus_effect _ _ _ _ _ Hu)
          as (Hst & _ & _ & _ & _ & _ & _ & _ & _ & Hp & _)
    end.
    unfold payment_wf. rewrite Hp, Hst. simpl.
    match goal with
    | Hh : has_intent ?o = Some _ |- _ =>
        unfold has_intent in Hh;
        destruct (stripePaymentIntentId (payment o)); [|discriminate]
    end.
    repeat split; intros; try congruence; try (eexists; reflexivity); eauto.
  - unfold webhook, apply_succeeded_event.
    repeat case_match; simpl; try keep_all; simplify_eq.
    + eapply payment_wf_paid; [|right; eassumption].
      erewrite find_by_intent_intent by eassumption. eauto.
    + eapply (payment_wf_paid _ _ confirmed); [|left; reflexivity].
      erewrite find_by_intent_intent by eassumption. eauto.
    + apply payment_wf_set_pstatus; try discriminate.
      erewrite find_by_intent_intent by eassumption. eauto.
Qed.

Lemma route_step_payment_wf db db' :
  all_orders payment_wf db -> route_step db db' -> all_orders payment_wf db'.
Proof.
  intros Hdb Hs. destruct Hs as [db db' Hs | users r db | now id r db].
  - eapply step_payment_wf; eassumption.
  - unfold assign_driver. repeat case_match; simpl; try keep_all.
    from_db Hdb. assumption.
  - rewrite repeat_order_unchanged. exact Hdb.
Qed.

(** X27.  Every request keeps the payment of the stored orders
    coherent: a completed payment has its payment time and transaction
    id, a payment that is no longer pending has a gateway intent on
    record, and a refunded payment has its refund time and amount and
    belongs to an order whose status is refunded.  This holds in every
    state the routes reach from a collection without orders. *)
Theorem payment_coherent :
  (forall db db',
     all_orders payment_wf db -> route_step db db' -> all_orders payment_wf db') /\
  (forall db0 db,
     orders db0 = ∅ -> rtc route_step db0 db -> all_orders payment_wf db).
Proof.
  split; [exact route_step_payment_wf|].
  intros db0 db H0 Hr.
  assert (Hinit : all_orders payment_wf db0).
  { intros k o. rewrite H0, lookup_empty. discriminate. }
  clear H0. induction Hr as [|x y z Hxy _ IH]; [exact Hinit|].
  apply IH. eapply route_step_payment_wf; eassumption.
Qed.

End PaymentInvariant.

(** An intent is created for a pending order. *)
Lemma payment_coherent_witness :
  let db := Sample.db_with (Sample.order pending pay_pending None) in
  let p := {| pi_user := "u_cust"; pi_order := "o1"; pi_paymentMethodId := None |} in
  let db1 := snd (create_intent (Sample.gateway_ok requires_action) p db) in
  all_orders payment_wf db1 /\
  exists o', orders db1 !! "o1" = Some o' /\ pstatus (payment o') = pay_processing.
Proof.
  intros db p db1. split.
  - apply (proj1 payment_coherent db).
    + intros k o Hl. unfold db, Sample.db_with in Hl.
      cbn [orders with_orders] in Hl.
      apply lookup_singleton_Some in Hl as [_ <-].
      apply payment_wf_pending. reflexivity.
    + apply route_base.
      apply (step_intent (Sample.gateway_ok requires_action) p).
  - eexists. split; [vm_compute; reflexivity|reflexivity].
Defined.

(** ** Amounts in cents *)

Section Cents.

Local Open Scope Q_scope.

Lemma round_bounds x :
  inject_Z (Js.round x) - (1 # 2) <= x /\ x < inject_Z (Js.round x) + (1 # 2).
Proof.
  unfold Js.round.
  pose proof (Qfloor_le (x + (1 # 2))) as Hle.
  pose proof (Qlt_floor (x + (1 # 2))) as Hlt.
  rewrite inject_Z_plus in Hlt.
  change (inject_Z 1) with 1 in Hlt. split; lra.
Qed.

Lemma round_unique x c :
  inject_Z c - (1 # 2) <= x -> x < inject_Z c + (1 # 2) -> Js.round x = c.
Proof.
  intros Hl Hu. destruct (round_bounds x) as [Rl Ru].
  assert (H1 : inject_Z (Js.round x) < inject_Z (c + 1)).
  { rewrite inject_Z_plus. change (inject_Z 1) with 1. lra. }
  assert (H2 : inject_Z c < inject_Z (Js.round x + 1)).
  { rewrite inject_Z_plus. change (inject_Z 1) with 1. lra. }
  rewrite <- Zlt_Qlt in H1, H2. lia.
Qed.

Lemma div_100 z : inject_Z z / 100 == inject_Z z * (1 # 100).
Proof. reflexivity. Qed.

Lemma cents_half x :
  inject_Z (Js.round (x * 100)) / 100 - x <= 1 # 200 /\
  x - inject_Z (Js.round (x * 100)) / 100 <= 1 # 200.
Proof.
  destruct (round_bounds (x * 100)) as [Rl Ru].
  rewrite div_100. split; lra.
Qed.

(** X15.  The conversion of an amount to cents, [Math.round(x * 100)],
    and back, [cents / 100], changes the amount by at most half a cent,
    changes nothing when the amount is a whole number of cents, and
    gives no negative number of cents for an amount that is not
    negative. *)
Theorem cents_rounding x :
  let c := Js.round (x * 100) in
  inject_Z c / 100 - x <= 1 # 200 /\
  x - inject_Z c / 100 <= 1 # 200 /\
  (forall z, x == inject_Z z / 100 -> c = z) /\
  (0 <= x -> (0 <= c)%Z).
Proof.
  intros c. subst c.
  destruct (round_bounds (x * 100)) as [Rl Ru].
  rewrite div_100. repeat split; try lra.
  - intros z Hz. apply round_unique; rewrite Hz, div_100; lra.
  - intros Hx.
    assert (H : inject_Z (-1) < inject_Z (Js.round (x * 100))).
    { change (inject_Z (-1)) with (-1 # 1). lra. }
    rewrite <- Zlt_Qlt in H. lia.
Qed.

End Cents.

Lemma cents_rounding_witness :
  Js.round ((6299 # 100) * 100) = 6299%Z /\ (0 <= Js.round ((6299 # 100) * 100))%Z.
Proof.
  destruct (cents_rounding (6299 # 100)) as (_ & _ & He & Hn).
  split.
  - apply He. reflexivity.
  - apply Hn. unfold Qle. simpl. lia.
Defined.

(** ** Creating an intent, paying, refunding *)

Section PaymentFlow.

Lemma create_intent_failure gw r db :
  http (fst (create_intent gw r db)) <> 200%nat ->
  snd (create_intent gw r db) = db.
Proof.
  unfold create_intent. intros H.
  repeat case_match; simpl in *; try reflexivity. congruence.
Qed.

Lemma create_intent_reaches gw r db o rest :
  orders db !! pi_order r = Some o ->
  customer_id o = pi_user r ->
  status o = pending ->
  pstatus (payment o) <> pay_completed ->
  restaurants db !! restaurant o = Some rest ->
  create_intent gw r db =
  match paymentIntents_create gw (Js.round (total (pricing o) * 100))
          (attached_method (pi_paymentMethodId r)) with
  | inl _ => (payment_processing_error, db)
  | inr paymentIntent =>
      ({| http := 200; message := EmptyString |},
       with_orders
         (<[pi_order r :=
              set_payment
                (set_pstatus pay_processing
                   (set_stripePaymentIntentId (intent_id paymentIntent) (payment o)))
                o]> (orders db)) db)
  end.
Proof.
  intros Ho Hc Hs Hp Hr. unfold create_intent.
  rewrite Ho, Hc, String.eqb_refl, Hs, Hr. simpl.
  destruct (pstatus (payment o)); try reflexivity. congruence.
Qed.

(** X16.  Creating an intent answers 200 exactly when the order exists,
    the requester is its customer, the order is pending, its payment is
    not completed, its restaurant is on record and the gateway creates
    the intent for the order's total in cents.  The order then records
    the intent id with payment status processing and is otherwise
    unchanged (status, items, pricing, tracking).  When the order is
    missing, is not the requester's, is not pending or is already paid,
    the answer does not depend on the gateway, and nothing is written. *)
Theorem create_intent_effect gw r db :
  let res := create_intent gw r db in
  (http (fst res) = 200%nat <->
   exists o rest intent,
     orders db !! pi_order r = Some o /\ customer_id o = pi_user r /\
     status o = pending /\ pstatus (payment o) <> pay_completed /\
     restaurants db !! restaurant o = Some rest /\
     paymentIntents_create gw (Js.round (total (pricing o) * 100))
       (attached_method (pi_paymentMethodId r)) = inr intent) /\
  (http (fst res) = 200%nat ->
   exists o o' intent,
     orders db !! pi_order r = Some o /\
     paymentIntents_create gw (Js.round (total (pricing o) * 100))
       (attached_method (pi_paymentMethodId r)) = inr intent /\
     snd res = with_orders (<[pi_order r := o']> (orders db)) db /\
     stripePaymentIntentId (payment o') = Some (intent_id intent) /\
     pstatus (payment o') = pay_processing /\
     paidAt (payment o') = paidAt (payment o) /\
     status o' = pending /\ items o' = items o /\ pricing o' = pricing o /\
     tracking o' = tracking o) /\
  (http (fst res) <> 200%nat -> snd res = db) /\
  (~ (exists o, orders db !! pi_order r = Some o /\ customer_id o = pi_user r /\
        status o = pending /\ pstatus (payment o) <> pay_completed) ->
   forall gw', create_intent gw' r db = res).
Proof.
  intros res. subst res.
  split; [|split; [|split; [apply create_intent_failure|]]].
  - split.
    + unfold create_intent. intros H.
      destruct (orders db !! pi_order r) as [o|] eqn:Ho; [|discriminate].
      destruct (String.eqb (customer_id o) (pi_user r)) eqn:Hc; [|discriminate].
      destruct (status o) eqn:Hs; try discriminate.
      destruct (pstatus (payment o)) eqn:Hp; try discriminate;
        simpl in H;
        (destruct (restaurants db !! restaurant o) as [rest|] eqn:Hr; [|discriminate]);
        (destruct (paymentIntents_create gw _ _) as [e|intent] eqn:Hg; [discriminate|]);
        exists o, rest, intent; apply String.eqb_eq in Hc;
        repeat split; try assumption; try reflexivity; congruence.
    + intros (o & rest & intent & Ho & Hc & Hs & Hp & Hr & Hg).
      rewrite (create_intent_reaches gw r db o rest Ho Hc Hs Hp Hr), Hg. reflexivity.
  - unfold create_intent. intros H.
    destruct (orders db !! pi_order r) as [o|] eqn:Ho; [|discriminate].
    destruct (String.eqb (customer_id o) (pi_user r)) eqn:Hc; [|discriminate].
    destruct (status o) eqn:Hs; try discriminate.
    destruct (pstatus_eqb (pstatus (payment o)) pay_completed); [discriminate|].
    simpl in H.
    destruct (restaurants db !! restaurant o) as [rest|] eqn:Hr; [|discriminate].
    destruct (paymentIntents_create gw _ _) as [e|intent] eqn:Hg; [discriminate|].
    exists o. eexists. exists intent.
    split; [reflexivity|]. split; [exact Hg|]. split; [reflexivity|].
    simpl. repeat split; auto.
  - intros Hn gw'. unfold create_intent.
    destruct (orders db !! pi_order r) as [o|] eqn:Ho; [|reflexivity].
    destruct (String.eqb (customer_id o) (pi_user r)) eqn:Hc; [|reflexivity].
    destruct (status o) eqn:Hs; try reflexivity.
    destruct (pstatus (payment o)) eqn:Hp; try reflexivity;
      exfalso; apply Hn; exists o; apply String.eqb_eq in Hc;
      repeat split; try assumption; try reflexivity; rewrite Hp; discriminate.
Qed.

End PaymentFlow.

Lemma create_intent_effect_witness :
  let db := Sample.db_with (Sample.order preparing pay_pending None) in
  let r := {| pi_user := "u_cust"; pi_order := "o1"; pi_paymentMethodId := None |} in
  create_intent Sample.gateway_down r db
  = create_intent (Sample.gateway_ok succeeded) r db.
Proof.
  intros db r.
  apply (proj2 (proj2 (proj2 (create_intent_effect (Sample.gateway_ok succeeded) r db)))).
  intros (o & Ho & _ & Hs & _).
  vm_compute in Ho. injection Ho as <-. discriminate.
Defined.

Section PayThenConfirm.

(** [findOne] by intent id finds the order that carries the id when no
    other order carries it. *)
Lemma find_by_intent_unique (os : gmap string Order) id k o :
  os !! k = Some o ->
  stripePaymentIntentId (payment o) = Some id ->
  (forall k' o', os !! k' = Some o' ->
     stripePaymentIntentId (payment o') = Some id -> k' = k) ->
  find_by_intent os id = Some (k, o).
Proof.
  intros Hk Hi Hu. unfold find_by_intent.
  destruct (find _ (map_to_list os)) as [[k' o']|] eqn:E.
  - pose proof (find_by_intent_lookup os id k' o' E) as Hl.
    pose proof (find_by_intent_intent os id k' o' E) as Hi'.
    assert (k' = k) by eauto. subst k'. congruence.
  - exfalso.
    assert (Hin : In (k, o) (map_to_list os)).
    { apply list_elem_of_In. apply elem_of_map_to_list. exact Hk. }
    pose proof (find_none _ _ E _ Hin) as Hf. simpl in Hf.
    rewrite Hi, String.eqb_refl in Hf. discriminate.
Qed.

(** X17.  Paying an order end to end.  The customer creates an intent
    for a pending order and the gateway returns an intent id that no
    stored order carries; when the gateway then reports that intent as
    succeeded, both the confirm call of the customer and the webhook
    event find this order and leave it confirmed, with the payment
    completed and stamped, the confirmation stamped in the tracking, and
    the items and the pricing as they were. *)
Theorem pay_then_confirm gw now r db o rest intent :
  orders db !! pi_order r = Some o ->
  customer_id o = pi_user r ->
  status o = pending ->
  pstatus (payment o) <> pay_completed ->
  restaurants db !! restaurant o = Some rest ->
  paymentIntents_create gw (Js.round (total (pricing o) * 100))
    (attached_method (pi_paymentMethodId r)) = inr intent ->
  intent_id intent <> EmptyString ->
  (forall k' o', orders db !! k' = Some o' ->
     stripePaymentIntentId (payment o') <> Some (intent_id intent)) ->
  let db1 := snd (create_intent gw r db) in
  let paid o2 :=
    status o2 = confirmed /\ pstatus (payment o2) = pay_completed /\
    paidAt (payment o2) = Some now /\
    tracking_stamp confirmed o2 = Some now /\
    stripePaymentIntentId (payment o2) = Some (intent_id intent) /\
    items o2 = items o /\ pricing o2 = pricing o in
  (forall intent',
     paymentIntents_retrieve gw (intent_id intent) = inr (Some intent') ->
     intent_status intent' = succeeded ->
     let res := confirm_payment gw now
                  {| cf_user := pi_user r;
                     cf_paymentIntentId := intent_id intent |} db1 in
     http (fst res) = 200%nat /\
     exists o2, orders (snd res) !! pi_order r = Some o2 /\ paid o2) /\
  (forall w ev,
     webhooks_constructEvent gw (wh_body w) (wh_signature w) = inr ev ->
     ev_type ev = payment_intent_succeeded ->
     ev_object ev = intent_id intent ->
     let res := webhook gw now w db1 in
     fst res = received /\
     exists o2, orders (snd res) !! pi_order r = Some o2 /\ paid o2).
Proof.
  intros Ho Hc Hs Hp Hr Hg Hid Hfresh db1 paid.
  set (o1 := set_payment
               (set_pstatus pay_processing
                  (set_stripePaymentIntentId (intent_id intent) (payment o))) o).
  assert (Hdb1 : db1 = with_orders (<[pi_order r := o1]> (orders db)) db).
  { subst db1. rewrite (create_intent_reaches gw r db o rest Ho Hc Hs Hp Hr), Hg.
    reflexivity. }
  assert (Hfind : find_by_intent (orders db1) (intent_id intent)
                  = Some (pi_order r, o1)).
  { rewrite Hdb1. simpl. apply find_by_intent_unique.
    - apply lookup_insert_eq.
    - reflexivity.
    - intros k' o' Hl Hi.
      destruct (decide (k' = pi_order r)) as [->|Hne]; [reflexivity|].
      rewrite lookup_insert_ne in Hl by congruence.
      exfalso. exact (Hfresh k' o' Hl Hi). }
  split.
  - intros intent' Hret Hst res. subst res.
    rewrite (confirm_payment_found gw now _ db1 intent' (pi_order r) o1);
      try assumption; try exact Hc.
    unfold apply_intent. rewrite Hst. simpl.
    split; [reflexivity|]. eexists. rewrite lookup_insert_eq.
    split; [reflexivity|]. subst paid. simpl. repeat split.
  - intros w ev Hev Hty Hobj res. subst res.
    rewrite (webhook_succeeded_found gw now w db1 ev (pi_order r) o1 Hev Hty);
      [|rewrite Hobj; exact Hfind].
    unfold apply_succeeded_event.
    change (status (mark_paid now (ev_object ev) o1)) with (status o).
    rewrite Hs. simpl.
    split; [reflexivity|]. eexists. rewrite lookup_insert_eq.
    split; [reflexivity|]. subst paid. simpl. repeat split.
Qed.

End PayThenConfirm.

Lemma pay_then_confirm_witness :
  let gw := Sample.gateway_ok succeeded in
  let db := Sample.db_with (Sample.order pending pay_pending None) in
  let r := {| pi_user := "u_cust"; pi_order := "o1"; pi_paymentMethodId := None |} in
  let res := confirm_payment gw 7
               {| cf_user := "u_cust"; cf_paymentIntentId := "pi_1" |}
               (snd (create_intent gw r db)) in
  http (fst res) = 200%nat /\
  exists o2, orders (snd res) !! "o1" = Some o2 /\
    status o2 = confirmed /\ pstatus (payment o2) = pay_completed.
Proof.
  intros gw db r.
  destruct (proj1 (pay_then_confirm gw 7 r db
              (Sample.order pending pay_pending None) Sample.bistro
              {| intent_id := "pi_1"; client_secret := "secret";
                 intent_status := succeeded; intent_amount := 6300 |}
              ltac:(vm_compute; reflexivity) eq_refl eq_refl
              ltac:(discriminate) ltac:(vm_compute; reflexivity)
              ltac:(vm_compute; reflexivity) ltac:(discriminate)
              ltac:(intros k' o' Hl;
                    destruct (decide (k' = "o1")) as [->|Hne];
                    [vm_compute in Hl; injection Hl as <-; discriminate
                    |unfold db, Sample.db_with in Hl; simpl in Hl;
                     rewrite lookup_singleton_ne in Hl by congruence;
                     discriminate]))
              {| intent_id := "pi_1"; client_secret := "secret";
                 intent_status := succeeded; intent_amount := 6300 |}
              eq_refl eq_refl) as (H200 & o2 & Hl & Hst & Hps & _).
  split; [exact H200|]. exists o2. auto.
Defined.

(** ** Refunds and webhook events *)

Section RefundRules.

Local Open Scope Q_scope.

Lemma refund_order_success gw now r db :
  http (fst (refund_order gw now r db)) = 200%nat ->
  exists o intent rf,
    refund_valid r = true /\
    orders db !! rf_order r = Some o /\
    party_authorized db o (rf_user r) (rf_role r) = Some true /\
    pstatus (payment o) = pay_completed /\
    has_intent o = Some intent /\
    refunds_create gw intent (refund_cents (rf_amount r) o) = inr rf.
Proof.
  unfold refund_order. intros H.
  destruct (refund_valid r) eqn:Hv; simpl in H; [|discriminate].
  destruct (orders db !! rf_order r) as [o|] eqn:Ho; [|discriminate].
  destruct (party_authorized db o (rf_user r) (rf_role r)) as [[|]|] eqn:Ha;
    try discriminate.
  destruct (pstatus (payment o)) eqn:Hp; try discriminate. simpl in H.
  destruct (has_intent o) as [intent|] eqn:Hi; [|discriminate].
  destruct (refunds_create gw intent (refund_cents (rf_amount r) o)) as [e|rf] eqn:Hg;
    [discriminate|].
  exists o, intent, rf. repeat split; try assumption; reflexivity.
Qed.

(** The stored refund amount is within half a cent of the amount that
    was asked for. *)
Lemma refund_cents_near a o :
  ~ a == 0 ->
  a - (1 # 200) <= inject_Z (refund_cents (Some a) o) / 100.
Proof.
  intros Ha. unfold refund_cents.
  destruct (Qeq_bool a 0) eqn:E; [apply Qeq_bool_iff in E; contradiction|].
  pose proof (proj2 (cents_half a)). lra.
Qed.

(** X18.  The amount of a refund.  A request whose amount is 0 is
    handled exactly as the request without an amount, which refunds the
    order's total.  An amount other than 0 is not compared with the
    total: when a refund of more than the total (by over a cent) of an
    order is answered with 200, the refund amount stored on the order
    exceeds the order's total. *)
Theorem refund_amount_rule gw now r db a :
  (a == 0 ->
   refund_order gw now (with_amount (Some a) r) db
   = refund_order gw now (with_amount None r) db) /\
  (forall o,
     orders db !! rf_order r = Some o ->
     0 <= total (pricing o) ->
     total (pricing o) + (1 # 100) < a ->
     http (fst (refund_order gw now (with_amount (Some a) r) db)) = 200%nat ->
     exists o' q,
       orders (snd (refund_order gw now (with_amount (Some a) r) db)) !! rf_order r
       = Some o' /\
       refundAmount (payment o') = Some q /\
       total (pricing o) < q).
Proof.
  split.
  - intros Ha. apply Qeq_bool_iff in Ha.
    assert (Hle : Qle_bool 0 a = true).
    { apply Qle_bool_iff. apply Qeq_bool_iff in Ha. lra. }
    unfold refund_order, refund_valid, refund_cents, with_amount. simpl.
    rewrite Ha, Hle. reflexivity.
  - intros o Ho Hpos Hbig H.
    destruct (refund_order_success gw now _ db H)
      as (o0 & intent & rf & Hv & Ho0 & Hau & Hp & Hi & Hg).
    simpl in Ho0. rewrite Ho in Ho0. injection Ho0 as <-.
    destruct (refund_order_effect gw now _ db o intent rf Hv Ho Hau Hp Hi Hg)
      as (_ & o' & Ho' & _ & _ & _ & Hq & _).
    exists o', (inject_Z (refund_cents (Some a) o) / 100).
    split; [exact Ho'|]. split; [exact Hq|].
    assert (Hnz : ~ a == 0) by lra.
    pose proof (refund_cents_near a o Hnz). simpl in *. lra.
Qed.

(** X19.  A refund is not final.  Directly after a refund that was
    answered with 200, every further refund request for that order is
    refused and writes nothing.  But a [payment_intent.succeeded] event
    for the order's intent that arrives afterwards (a replay, for
    instance) sets the payment back to completed while the order stays
    refunded, and the same refund request is then accepted again
    whenever the gateway accepts it. *)
Theorem refund_reopened_by_replay gw now r db o intent :
  orders db !! rf_order r = Some o ->
  has_intent o = Some intent ->
  http (fst (refund_order gw now r db)) = 200%nat ->
  let db1 := snd (refund_order gw now r db) in
  (forall gw' now' r',
     rf_order r' = rf_order r ->
     http (fst (refund_order gw' now' r' db1)) <> 200%nat /\
     snd (refund_order gw' now' r' db1) = db1) /\
  (forall gw1 now1 w ev o1,
     webhooks_constructEvent gw1 (wh_body w) (wh_signature w) = inr ev ->
     ev_type ev = payment_intent_succeeded ->
     find_by_intent (orders db1) (ev_object ev) = Some (rf_order r, o1) ->
     let db2 := snd (webhook gw1 now1 w db1) in
     fst (webhook gw1 now1 w db1) = received /\
     (exists o2, orders db2 !! rf_order r = Some o2 /\
        status o2 = refunded /\ pstatus (payment o2) = pay_completed) /\
     (forall gw2 now2 rf2,
        refunds_create gw2 intent (refund_cents (rf_amount r) o) = inr rf2 ->
        http (fst (refund_order gw2 now2 r db2)) = 200%nat)).
Proof.
  intros Ho Hi H db1.
  destruct (refund_order_success gw now r db H)
    as (o0 & intent0 & rf & Hv & Ho0 & Ha & Hp & Hi0 & Hg).
  rewrite Ho in Ho0. injection Ho0 as <-.
  rewrite Hi in Hi0. injection Hi0 as <-.
  assert (Hdb1 : exists o', db1 = with_orders (<[rf_order r := o']> (orders db)) db /\
                   status o' = refunded /\
                   pstatus (payment o') = pay_refunded /\
                   stripePaymentIntentId (payment o') = stripePaymentIntentId (payment o) /\
                   pricing o' = pricing o /\
                   customer_id o' = customer_id o /\ restaurant o' = restaurant o).
  { subst db1. rewrite (refund_order_reaches gw now r db o intent Hv Ho Ha Hp Hi), Hg.
    eexists. split; [reflexivity|]. repeat split. }
  destruct Hdb1 as (o' & Hd1 & Hst' & Hp' & Hint' & Hpr' & Hc' & Hr').
  split.
  - rewrite Hd1. intros gw' now' r' Hsame. unfold refund_order.
    rewrite Hsame. simpl. rewrite lookup_insert_eq.
    destruct (refund_valid r'); simpl; [|split; [discriminate|reflexivity]].
    destruct (party_authorized _ o' (rf_user r') (rf_role r')) as [[|]|];
      try (split; [discriminate|reflexivity]).
    rewrite Hp'. simpl. split; [discriminate|reflexivity].
  - intros gw1 now1 w ev o1 Hev Hty Hf db2.
    assert (Ho1 : o1 = o').
    { apply find_by_intent_lookup in Hf. rewrite Hd1 in Hf. simpl in Hf.
      rewrite lookup_insert_eq in Hf. congruence. }
    subst o1.
    assert (Hw : webhook gw1 now1 w db1
                 = (received,
                    with_orders
                      (<[rf_order r := mark_paid now1 (ev_object ev) o']> (orders db1))
                      db1)).
    { rewrite (webhook_succeeded_found gw1 now1 w db1 ev _ _ Hev Hty Hf).
      unfold apply_succeeded_event.
      change (status (mark_paid now1 (ev_object ev) o')) with (status o').
      rewrite Hst'. reflexivity. }
    subst db2. rewrite Hw. simpl.
    split; [reflexivity|]. split.
    + eexists. rewrite lookup_insert_eq. split; [reflexivity|].
      split; [exact Hst'|reflexivity].
    + intros gw2 now2 rf2 Hg2.
      assert (Hreach := refund_order_reaches gw2 now2 r
                (with_orders
                   (<[rf_order r := mark_paid now1 (ev_object ev) o']> (orders db1))
                   db1)
                (mark_paid now1 (ev_object ev) o') intent Hv).
      rewrite Hreach.
      * change (refund_cents (rf_amount r) (mark_paid now1 (ev_object ev) o'))
          with (refund_cents (rf_amount r) o').
        assert (Hcents : refund_cents (rf_amount r) o' = refund_cents (rf_amount r) o)
          by (unfold refund_cents; rewrite Hpr'; reflexivity).
        rewrite Hcents, Hg2. reflexivity.
      * simpl. apply lookup_insert_eq.
      * rewrite Hd1. unfold party_authorized, owner_equals in *. simpl.
        rewrite Hc', Hr'. exact Ha.
      * reflexivity.
      * unfold has_intent in *. simpl. rewrite Hint'. exact Hi.
Qed.

End RefundRules.

(** A refund request with amount 0 on a paid order of 63.00 is the
    request without an amount. *)
Lemma refund_amount_rule_witness :
  let db := Sample.db_with (Sample.order delivered pay_completed (Some "pi_1")) in
  let r := {| rf_user := "u_cust"; rf_role := customer; rf_order := "o1";
              rf_amount := Some 0%Q; rf_reason := None |} in
  refund_order (Sample.gateway_ok succeeded) 7 r db
  = refund_order (Sample.gateway_ok succeeded) 7 (with_amount None r) db.
Proof.
  intros db r.
  apply (proj1 (refund_amount_rule (Sample.gateway_ok succeeded) 7 r db 0%Q)).
  reflexivity.
Defined.

(** The customer is refunded, the success event of the payment is
    delivered once more, and the same refund request is accepted a
    second time. *)
Lemma refund_reopened_by_replay_witness :
  let gw := Sample.gateway_ok succeeded in
  let db := Sample.db_with (Sample.order delivered pay_completed (Some "pi_1")) in
  let r := {| rf_user := "u_cust"; rf_role := customer; rf_order := "o1";
              rf_amount := None; rf_reason := None |} in
  let w := {| wh_body := "{}"; wh_signature := "sig" |} in
  let db1 := snd (refund_order gw 7 r db) in
  let db2 := snd (webhook gw 8 w db1) in
  http (fst (refund_order gw 7 r db)) = 200%nat /\
  http (fst (refund_order gw 9 r db1)) <> 200%nat /\
  http (fst (refund_order gw 9 r db2)) = 200%nat.
Proof.
  intros gw db r w db1 db2.
  assert (H1 : http (fst (refund_order gw 7 r db)) = 200%nat)
    by (vm_compute; reflexivity).
  destruct (refund_reopened_by_replay gw 7 r db
              (Sample.order delivered pay_completed (Some "pi_1")) "pi_1"
              ltac:(vm_compute; reflexivity) eq_refl H1) as (Hfirst & Hreplay).
  split; [exact H1|]. split.
  - apply (Hfirst gw 9%Z r eq_refl).
  - assert (Hf : exists o1, find_by_intent (orders db1) "pi_1" = Some ("o1", o1))
      by (eexists; vm_compute; reflexivity).
    destruct Hf as (o1 & Hf).
    destruct (Hreplay gw 8%Z w
                {| ev_type := payment_intent_succeeded; ev_object := "pi_1" |}
                o1 eq_refl eq_refl Hf) as (_ & _ & Hsecond).
    apply (Hsecond gw 9%Z {| refund_id := "re_1"; refund_amount := 6300 |}).
    vm_compute. reflexivity.
Defined.

Section WebhookEvents.

(** X20.  The webhook fails closed and ignores what it does not know:
    an event whose signature does not verify is answered with the 400
    that carries the error; a verified event of another type, and a
    payment event whose intent no stored order carries, are
    acknowledged.  In all three cases nothing is written. *)
Theorem webhook_ignores gw now r db :
  (forall e,
     webhooks_constructEvent gw (wh_body r) (wh_signature r) = inl e ->
     webhook gw now r db = ({| http := 400; message := "Webhook Error: " ++ e |}, db)) /\
  (forall ev,
     webhooks_constructEvent gw (wh_body r) (wh_signature r) = inr ev ->
     ev_type ev = other_event \/
     (forall k o, orders db !! k = Some o ->
        stripePaymentIntentId (payment o) <> Some (ev_object ev)) ->
     webhook gw now r db = (received, db)).
Proof.
  split.
  - intros e He. unfold webhook. rewrite He. reflexivity.
  - intros ev Hev Hcase. unfold webhook. rewrite Hev.
    destruct Hcase as [Ht | Hnone]; [rewrite Ht; reflexivity|].
    assert (Hf : find_by_intent (orders db) (ev_object ev) = None).
    { destruct (find_by_intent (orders db) (ev_object ev)) as [[k o]|] eqn:E;
        [|reflexivity].
      exfalso. apply (Hnone k o).
      - eapply find_by_intent_lookup; eassumption.
      - eapply find_by_intent_intent; eassumption. }
    rewrite Hf. destruct (ev_type ev); reflexivity.
Qed.

(** X21.  A [payment_intent.payment_failed] event sets the payment
    status of the order that carries the intent to failed whatever it
    was before, a completed or a refunded payment included, and changes
    nothing else: the order status, the tracking, the payment time and
    the refund data stay. *)
Theorem webhook_failed_overrides gw now r db ev k o :
  webhooks_constructEvent gw (wh_body r) (wh_signature r) = inr ev ->
  ev_type ev = payment_intent_payment_failed ->
  find_by_intent (orders db) (ev_object ev) = Some (k, o) ->
  exists o',
    webhook gw now r db = (received, with_orders (<[k := o']> (orders db)) db) /\
    orders db !! k = Some o /\
    pstatus (payment o') = pay_failed /\
    status o' = status o /\ tracking o' = tracking o /\
    paidAt (payment o') = paidAt (payment o) /\
    refundedAt (payment o') = refundedAt (payment o) /\
    refundAmount (payment o') = refundAmount (payment o) /\
    stripePaymentIntentId (payment o') = Some (ev_object ev) /\
    items o' = items o /\ pricing o' = pricing o.
Proof.
  intros Hev Ht Hf. unfold webhook. rewrite Hev, Ht, Hf.
  eexists. split; [reflexivity|].
  split; [eapply find_by_intent_lookup; eassumption|].
  simpl. repeat split.
  eapply find_by_intent_intent; eassumption.
Qed.

End WebhookEvents.

Lemma webhook_ignores_witness :
  let db := Sample.db_with (Sample.order pending pay_processing (Some "pi_1")) in
  webhook Sample.gateway_down 7 {| wh_body := "{}"; wh_signature := "forged" |} db
  = ({| http := 400; message := "Webhook Error: connection refused" |}, db).
Proof.
  intros db.
  apply (proj1 (webhook_ignores Sample.gateway_down 7
                  {| wh_body := "{}"; wh_signature := "forged" |} db)
           "connection refused").
  reflexivity.
Defined.

(** A late failure event on a delivered order whose payment is
    completed: the payment becomes failed, the order stays delivered. *)
Lemma webhook_failed_overrides_witness :
  let gw := {| paymentIntents_create := paymentIntents_create Sample.gateway_down;
               paymentIntents_retrieve := paymentIntents_retrieve Sample.gateway_down;
               refunds_create := refunds_create Sample.gateway_down;
               webhooks_constructEvent := fun _ _ =>
                 inr {| ev_type := payment_intent_payment_failed;
                        ev_object := "pi_1" |} |} in
  let o := Sample.order delivered pay_completed (Some "pi_1") in
  exists o',
    webhook gw 7 {| wh_body := "{}"; wh_signature := "sig" |} (Sample.db_with o)
    = (received, with_orders (<[ "o1" := o' ]> (orders (Sample.db_with o)))
                   (Sample.db_with o)) /\
    pstatus (payment o') = pay_failed /\ status o' = delivered.
Proof.
  intros gw o.
  destruct (webhook_failed_overrides gw 7 {| wh_body := "{}"; wh_signature := "sig" |}
              (Sample.db_with o)
              {| ev_type := payment_intent_payment_failed; ev_object := "pi_1" |}
              "o1" o eq_refl eq_refl ltac:(vm_compute; reflexivity))
    as (o' & Hw & _ & Hp & Hs & _).
  exists o'. split; [exact Hw|]. split; [exact Hp|exact Hs].
Defined.

(** ** The address book *)

Section AddressBook.

Lemma defaults_unset l : defaults (map (set_isDefault false) l) = 0.
Proof. unfold defaults. induction l as [|a l IH]; simpl; auto. Qed.

Lemma defaults_app l1 l2 : defaults (l1 ++ l2) = defaults l1 + defaults l2.
Proof. unfold defaults. rewrite List.filter_app, length_app. reflexivity. Qed.

Lemma defaults_single a : defaults [a] = if isDefault a then 1 else 0.
Proof. unfold defaults. simpl. destruct (isDefault a); reflexivity. Qed.

Lemma map_id_unset l : map addr_id (map (set_isDefault false) l) = map addr_id l.
Proof. induction l as [|a l IH]; simpl; congruence. Qed.

Lemma change_first_ids id f l :
  (forall a, addr_id (f a) = addr_id a) ->
  map addr_id (change_first id f l) = map addr_id l.
Proof.
  intros Hf. induction l as [|a l IH]; simpl; [reflexivity|].
  destruct (String.eqb (addr_id a) id); simpl; [rewrite Hf|rewrite IH]; reflexivity.
Qed.

Lemma change_first_defaults id f l :
  (forall a, isDefault (f a) = true -> isDefault a = true) ->
  defaults (change_first id f l) <= defaults l.
Proof.
  intros Hf. unfold defaults. induction l as [|a l IH]; simpl; [lia|].
  destruct (String.eqb (addr_id a) id); simpl.
  - destruct (isDefault (f a)) eqn:E.
    + rewrite (Hf a E). simpl. lia.
    + destruct (isDefault a); simpl; lia.
  - destruct (isDefault a); simpl; lia.
Qed.

(** With distinct ids, at most the address with the given id is left as
    a default when all others are unset. *)
Lemma keep_one_defaults id l :
  NoDup (map addr_id l) ->
  defaults (map (fun a => if String.eqb (addr_id a) id then a
                          else set_isDefault false a) l) <= 1.
Proof.
  unfold defaults. induction l as [|a l IH]; simpl; intros Hn; [lia|].
  inversion Hn as [|? ? Hnotin Hn']; subst.
  rewrite list_elem_of_In in Hnotin.
  destruct (String.eqb (addr_id a) id) eqn:E; simpl.
  - apply String.eqb_eq in E.
    assert (Hz : length (List.filter isDefault
                   (map (fun a0 => if String.eqb (addr_id a0) id then a0
                                   else set_isDefault false a0) l)) = 0).
    { clear IH Hn Hn'. induction l as [|b l IHl]; simpl; [reflexivity|].
      destruct (String.eqb (addr_id b) id) eqn:Eb.
      - apply String.eqb_eq in Eb. exfalso. apply Hnotin. left. congruence.
      - simpl. apply IHl. intros Hin. apply Hnotin. right. exact Hin. }
    destruct (isDefault a); simpl; lia.
  - specialize (IH Hn'). lia.
Qed.

Lemma remove_first_In id l x :
  In x (remove_first id l) -> In x l.
Proof.
  induction l as [|a l IH]; simpl; [tauto|].
  destruct (String.eqb (addr_id a) id); simpl; intuition.
Qed.

Lemma remove_first_ids_In id l x :
  In x (map addr_id (remove_first id l)) -> In x (map addr_id l).
Proof.
  rewrite !in_map_iff. intros (a & Ha & Hin).
  exists a. split; [exact Ha|]. eapply remove_first_In; eassumption.
Qed.

Lemma remove_first_NoDup id l :
  NoDup (map addr_id l) -> NoDup (map addr_id (remove_first id l)).
Proof.
  induction l as [|a l IH]; simpl; intros Hn; [constructor|].
  inversion Hn as [|? ? Hnotin Hn']; subst.
  rewrite list_elem_of_In in Hnotin.
  destruct (String.eqb (addr_id a) id); simpl; [exact Hn'|].
  constructor; [|apply IH; exact Hn'].
  rewrite list_elem_of_In.
  intros Hin. apply Hnotin. eapply remove_first_ids_In; eassumption.
Qed.

Lemma remove_first_defaults id l : defaults (remove_first id l) <= defaults l.
Proof.
  unfold defaults. induction l as [|a l IH]; simpl; [lia|].
  destruct (String.eqb (addr_id a) id); simpl; destruct (isDefault a); simpl; lia.
Qed.

(** X22.  The three address routes keep the address book well formed:
    distinct ids and at most one default address.  Adding needs the new
    id to be new; updating and deleting need nothing. *)
Theorem address_book_wf u :
  book_wf u ->
  (forall newId r,
     ~ In newId (map addr_id (addresses u)) ->
     book_wf (snd (add_address newId r u))) /\
  (forall r, book_wf (snd (update_address r u))) /\
  (forall id, book_wf (snd (delete_address id u))).
Proof.
  intros (Hn & Hd). repeat split.
  - unfold add_address.
    destruct (add_address_valid r); simpl; [|exact Hn].
    rewrite map_app. simpl.
    assert (Hids : map addr_id
                     (if match aa_isDefault r with Some b => b | None => false end
                         || (length (addresses u) =? 0)%nat
                      then map (set_isDefault false) (addresses u)
                      else addresses u) = map addr_id (addresses u)).
    { destruct (_ || _); [apply map_id_unset|reflexivity]. }
    rewrite Hids. apply NoDup_app. repeat split; try assumption.
    + intros x Hx Hy. apply list_elem_of_In in Hx. apply list_elem_of_In in Hy.
      destruct Hy as [<-|[]]. contradiction.
    + repeat constructor. intros Hx. apply list_elem_of_In in Hx. destruct Hx.
  - unfold add_address.
    destruct (add_address_valid r); simpl; [|exact Hd].
    rewrite defaults_app, defaults_single. simpl.
    destruct (_ || _); [rewrite defaults_unset|]; lia.
  - unfold update_address.
    destruct (find _ (addresses u)) as [a|]; [|exact Hn].
    destruct (address_valid (update_fields r a)); simpl; [|exact Hn].
    assert (Hc : map addr_id (change_first (ua_id r) (update_fields r) (addresses u))
                 = map addr_id (addresses u))
      by (apply change_first_ids; reflexivity).
    destruct (ua_isDefault r) as [[|]|]; try (rewrite Hc; exact Hn).
    rewrite map_map.
    rewrite (map_ext _ addr_id); [rewrite Hc; exact Hn|].
    intros x. destruct (String.eqb (addr_id x) (ua_id r)); reflexivity.
  - unfold update_address.
    destruct (find _ (addresses u)) as [a|]; [|exact Hd].
    destruct (address_valid (update_fields r a)); simpl; [|exact Hd].
    destruct (ua_isDefault r) as [[|]|] eqn:E.
    + apply keep_one_defaults.
      rewrite change_first_ids by reflexivity. exact Hn.
    + etransitivity; [apply change_first_defaults|exact Hd].
      intros x. unfold update_fields. rewrite E. simpl. discriminate.
    + etransitivity; [apply change_first_defaults|exact Hd].
      intros x. unfold update_fields. rewrite E. simpl. auto.
  - unfold delete_address.
    destruct (find _ (addresses u)); simpl; [|exact Hn].
    apply remove_first_NoDup. exact Hn.
  - unfold delete_address.
    destruct (find _ (addresses u)); simpl; [|exact Hd].
    etransitivity; [apply remove_first_defaults|exact Hd].
Qed.

End AddressBook.

Section AddressDefaults.

Lemma find_unset_none l : find isDefault (map (set_isDefault false) l) = None.
Proof. induction l as [|a l IH]; simpl; auto. Qed.

Lemma find_app_none {A} (f : A -> bool) l1 l2 :
  find f l1 = None -> find f (l1 ++ l2) = find f l2.
Proof.
  induction l1 as [|a l1 IH]; simpl; [reflexivity|].
  destruct (f a); [discriminate|exact IH].
Qed.

(** X23.  An address that is added is the last of the book and keeps
    the other addresses.  It is the default exactly when the body asks
    for it or the book was empty; it is then the only default and the
    user's default address.  Otherwise the marks of the other addresses
    are untouched.  An invalid body is answered with the 400 and
    changes nothing. *)
Theorem add_address_default newId r u :
  let res := add_address newId r u in
  (add_address_valid r = false -> res = (validation_failed, u)) /\
  (add_address_valid r = true ->
   exists a old,
     http (fst res) = 201%nat /\
     addresses (snd res) = (old ++ [a])%list /\
     addr_id a = newId /\ street a = aa_street r /\ addr_type a = aa_type r /\
     address_valid a = true /\
     map addr_id old = map addr_id (addresses u) /\
     (isDefault a = true <-> aa_isDefault r = Some true \/ addresses u = []) /\
     (isDefault a = true ->
        defaults (addresses (snd res)) = 1 /\ defaultAddress (snd res) = Some a) /\
     (isDefault a = false -> old = addresses u)).
Proof.
  intros res. subst res. unfold add_address. split.
  - intros ->. reflexivity.
  - intros Hv. rewrite Hv. simpl.
    remember (match aa_isDefault r with Some b => b | None => false end
              || (length (addresses u) =? 0)%nat) as isDef eqn:HisDef.
    assert (Hiff : isDef = true <-> aa_isDefault r = Some true \/ addresses u = []).
    { rewrite HisDef. rewrite orb_true_iff. split.
      - intros [H|H].
        + left. destruct (aa_isDefault r) as [[|]|]; congruence.
        + right. apply Nat.eqb_eq in H. destruct (addresses u); [reflexivity|discriminate].
      - intros [H|H]; [left; rewrite H; reflexivity|right; rewrite H; reflexivity]. }
    eexists. exists (if isDef then map (set_isDefault false) (addresses u)
                     else addresses u).
    split; [reflexivity|]. split; [reflexivity|].
    split; [reflexivity|]. split; [reflexivity|]. split; [reflexivity|].
    split; [exact Hv|]. split.
    { destruct isDef; [apply map_id_unset|reflexivity]. }
    split; [exact Hiff|]. simpl. split.
    + intros Hd. rewrite Hd. split.
      * rewrite defaults_app, defaults_unset, defaults_single. reflexivity.
      * unfold defaultAddress. simpl.
        rewrite find_app_none by apply find_unset_none.
        reflexivity.
    + intros Hd. rewrite Hd. reflexivity.
Qed.

Lemma remove_first_other id l x :
  addr_id x <> id -> (In x (remove_first id l) <-> In x l).
Proof.
  intros Hx. split; [apply remove_first_In|].
  induction l as [|a l IH]; simpl; [tauto|].
  destruct (String.eqb (addr_id a) id) eqn:E; simpl.
  - apply String.eqb_eq in E. intros [->|H]; [contradiction|exact H].
  - intros [->|H]; [left; reflexivity|right; apply IH; exact H].
Qed.

Lemma remove_first_gone id l :
  NoDup (map addr_id l) -> ~ In id (map addr_id (remove_first id l)).
Proof.
  induction l as [|a l IH]; simpl; intros Hn; [tauto|].
  inversion Hn as [|? ? Hnotin Hn']; subst.
  rewrite list_elem_of_In in Hnotin.
  destruct (String.eqb (addr_id a) id) eqn:E; simpl.
  - apply String.eqb_eq in E. rewrite <- E. exact Hnotin.
  - apply String.eqb_neq in E. intros [H|H]; [contradiction|].
    exact (IH Hn' H).
Qed.

Lemma remove_first_length id l a :
  find (fun x => String.eqb (addr_id x) id) l = Some a ->
  S (length (remove_first id l)) = length l.
Proof.
  induction l as [|b l IH]; simpl; [discriminate|].
  destruct (String.eqb (addr_id b) id); simpl; [reflexivity|].
  intros H. rewrite (IH H). reflexivity.
Qed.

(** X24.  Deleting an address answers 404 and changes nothing when the
    book has no address with that id.  Otherwise the book loses exactly
    one address: with distinct ids the id is gone and every other
    address stays.  No other address is made the default: when the
    deleted address was the default, the book is left without one and
    the user's default address falls back to the first address. *)
Theorem delete_address_effect id u :
  let res := delete_address id u in
  (~ In id (map addr_id (addresses u)) -> res = (address_not_found, u)) /\
  (In id (map addr_id (addresses u)) ->
   http (fst res) = 200%nat /\
   S (length (addresses (snd res))) = length (addresses u) /\
   (forall x, addr_id x <> id ->
      (In x (addresses (snd res)) <-> In x (addresses u))) /\
   (book_wf u ->
      ~ In id (map addr_id (addresses (snd res))) /\
      (forall a, In a (addresses u) -> addr_id a = id -> isDefault a = true ->
         defaults (addresses (snd res)) = 0 /\
         defaultAddress (snd res) = head (addresses (snd res))))).
Proof.
  intros res. subst res. unfold delete_address. split.
  - intros Hn.
    destruct (find _ (addresses u)) as [a|] eqn:E; [|reflexivity].
    exfalso. apply Hn. apply find_some in E as [Hin Heq].
    apply String.eqb_eq in Heq. apply in_map_iff. exists a. auto.
  - intros Hin.
    destruct (find (fun a => String.eqb (addr_id a) id) (addresses u)) as [a|] eqn:E.
    2:{ exfalso. apply in_map_iff in Hin as (x & Hx & Hxin).
        pose proof (find_none _ _ E x Hxin) as Hf. simpl in Hf.
        rewrite Hx, String.eqb_refl in Hf. discriminate. }
    simpl. split; [reflexivity|].
    split; [eapply remove_first_length; eassumption|].
    split; [intros x Hx; apply remove_first_other; exact Hx|].
    intros (Hnd & Hd). split; [apply remove_first_gone; exact Hnd|].
    intros b Hb Hbid Hbd.
    assert (Hz : defaults (remove_first id (addresses u)) = 0).
    { clear E Hin. revert Hnd Hd Hb.
      unfold defaults. induction (addresses u) as [|c l IH]; simpl; [tauto|].
      intros Hnd Hd Hb. inversion Hnd as [|? ? Hnotin Hnd']; subst.
      rewrite list_elem_of_In in Hnotin.
      destruct (String.eqb (addr_id c) (addr_id b)) eqn:Ec; simpl.
      - apply String.eqb_eq in Ec.
        destruct Hb as [->|Hb].
        + rewrite Hbd in Hd. simpl in Hd. lia.
        + exfalso. apply Hnotin. rewrite Ec. apply in_map. exact Hb.
      - apply String.eqb_neq in Ec.
        destruct Hb as [->|Hb]; [contradiction|].
        destruct (isDefault c); simpl in *.
        + assert (Hl : length (List.filter isDefault l) = 0) by lia.
          exfalso.
          assert (Hbf : In b (List.filter isDefault l)) by (apply filter_In; auto).
          destruct (List.filter isDefault l); [destruct Hbf|discriminate Hl].
        + apply IH; assumption. }
    split; [exact Hz|].
    unfold defaultAddress. simpl.
    destruct (find isDefault (remove_first id (addresses u))) as [d|] eqn:Ef;
      [|reflexivity].
    exfalso. apply find_some in Ef as [Hdin Hdd].
    unfold defaults in Hz.
    assert (Hin' : In d (List.filter isDefault (remove_first id (addresses u))))
      by (apply filter_In; auto).
    destruct (List.filter isDefault (remove_first id (addresses u)));
      [destruct Hin'|discriminate].
Qed.

End AddressDefaults.

Section AddressUpdate.

Lemma change_first_target id f l a x :
  NoDup (map addr_id l) ->
  (forall y, addr_id (f y) = addr_id y) ->
  find (fun y => String.eqb (addr_id y) id) l = Some a ->
  In x (change_first id f l) -> addr_id x = id -> x = f a.
Proof.
  intros Hn Hf. induction l as [|b l IH]; simpl; [discriminate|].
  inversion Hn as [|? ? Hnotin Hn']; subst.
  rewrite list_elem_of_In in Hnotin.
  destruct (String.eqb (addr_id b) id) eqn:E.
  - apply String.eqb_eq in E. intros Hfa [Hx|Hx] Hid.
    + injection Hfa as <-. congruence.
    + exfalso. apply Hnotin. rewrite E, <- Hid. apply in_map. exact Hx.
  - apply String.eqb_neq in E. intros Hfa [Hx|Hx] Hid.
    + subst x. contradiction.
    + apply IH; assumption.
Qed.

Lemma change_first_has id f l a :
  find (fun y => String.eqb (addr_id y) id) l = Some a ->
  In (f a) (change_first id f l).
Proof.
  induction l as [|b l IH]; simpl; [discriminate|].
  destruct (String.eqb (addr_id b) id); simpl.
  - intros H. injection H as <-. left. reflexivity.
  - intros H. right. apply IH. exact H.
Qed.

(** X25.  Updating an address answers 404 when the book has no address
    with that id, and the 500 when the updated address would have an
    unknown type or an empty required field; in both cases nothing
    changes.  Otherwise the ids and the number of addresses stay, and
    when the body sets the default flag, in a book with distinct ids
    the updated address becomes the only default and the user's default
    address. *)
Theorem update_address_effect r u :
  let res := update_address r u in
  (~ In (ua_id r) (map addr_id (addresses u)) -> res = (address_not_found, u)) /\
  (forall a,
     find (fun x => String.eqb (addr_id x) (ua_id r)) (addresses u) = Some a ->
     (address_valid (update_fields r a) = false -> res = (server_error, u)) /\
     (address_valid (update_fields r a) = true ->
        http (fst res) = 200%nat /\
        map addr_id (addresses (snd res)) = map addr_id (addresses u) /\
        (ua_isDefault r = Some true -> NoDup (map addr_id (addresses u)) ->
           defaults (addresses (snd res)) = 1 /\
           defaultAddress (snd res) = Some (update_fields r a) /\
           isDefault (update_fields r a) = true))).
Proof.
  intros res. subst res. unfold update_address. split.
  - intros Hn.
    destruct (find _ (addresses u)) as [a|] eqn:E; [|reflexivity].
    exfalso. apply Hn. apply find_some in E as [Hin Heq].
    apply String.eqb_eq in Heq. apply in_map_iff. exists a. auto.
  - intros a Ha. rewrite Ha. split; [intros ->; reflexivity|].
    intros Hv. rewrite Hv. simpl. split; [reflexivity|].
    assert (Hc : map addr_id (change_first (ua_id r) (update_fields r) (addresses u))
                 = map addr_id (addresses u))
      by (apply change_first_ids; reflexivity).
    split.
    { destruct (ua_isDefault r) as [[|]|]; try exact Hc.
      rewrite map_map. rewrite (map_ext _ addr_id); [exact Hc|].
      intros x. destruct (String.eqb (addr_id x) (ua_id r)); reflexivity. }
    intros Hdef Hnd. rewrite Hdef.
    set (g := fun a0 : Address =>
                if String.eqb (addr_id a0) (ua_id r) then a0
                else set_isDefault false a0).
    set (l1 := change_first (ua_id r) (update_fields r) (addresses u)).
    assert (Hup : isDefault (update_fields r a) = true)
      by (unfold update_fields; rewrite Hdef; reflexivity).
    assert (Hida : addr_id a = ua_id r).
    { apply find_some in Ha as [_ Heq]. apply String.eqb_eq in Heq. exact Heq. }
    assert (Hin : In (update_fields r a) (map g l1)).
    { apply in_map_iff. exists (update_fields r a). split.
      - unfold g. simpl. rewrite Hida, String.eqb_refl. reflexivity.
      - apply change_first_has. exact Ha. }
    assert (Honly : forall d, In d (map g l1) -> isDefault d = true ->
                              d = update_fields r a).
    { intros d Hd Hdd. apply in_map_iff in Hd as (x & Hx & Hxin).
      unfold g in Hx. destruct (String.eqb (addr_id x) (ua_id r)) eqn:Ex.
      - subst d. apply String.eqb_eq in Ex.
        eapply change_first_target; eauto.
      - subst d. discriminate. }
    assert (Hle : defaults (map g l1) <= 1).
    { apply keep_one_defaults. subst l1. rewrite Hc. exact Hnd. }
    assert (Hge : 1 <= defaults (map g l1)).
    { unfold defaults.
      assert (Hf : In (update_fields r a) (List.filter isDefault (map g l1)))
        by (apply filter_In; auto).
      destruct (List.filter isDefault (map g l1)); [destruct Hf|simpl; lia]. }
    split; [lia|]. split; [|reflexivity].
    unfold defaultAddress. simpl.
    destruct (find isDefault (map g l1)) as [d|] eqn:Ef.
    + apply find_some in Ef as [Hdin Hdd]. f_equal. apply Honly; assumption.
    + pose proof (find_none _ _ Ef _ Hin) as Hno. congruence.
Qed.

End AddressUpdate.

Section Favorites.

Lemma favorite_member rid l :
  existsb (String.eqb rid) l = true <-> In rid l.
Proof.
  rewrite existsb_exists. split.
  - intros (x & Hx & Heq). apply String.eqb_eq in Heq. congruence.
  - intros H. exists rid. split; [exact H|apply String.eqb_refl].
Qed.

Lemma without_mem rid l x :
  In x (List.filter (fun id => negb (String.eqb id rid)) l) <-> In x l /\ x <> rid.
Proof.
  rewrite filter_In. split; intros [H1 H2]; split; try assumption.
  - intros ->. rewrite String.eqb_refl in H2. discriminate.
  - apply negb_true_iff. apply String.eqb_neq. exact H2.
Qed.

Lemma without_absent rid l :
  ~ In rid l -> List.filter (fun id => negb (String.eqb id rid)) l = l.
Proof.
  induction l as [|x l IH]; simpl; intros Hn; [reflexivity|].
  destruct (String.eqb x rid) eqn:E; simpl.
  - apply String.eqb_eq in E. exfalso. apply Hn. left. exact E.
  - rewrite IH; [reflexivity|]. intros H. apply Hn. right. exact H.
Qed.

Lemma without_NoDup rid (l : list string) :
  NoDup l -> NoDup (List.filter (fun id => negb (String.eqb id rid)) l).
Proof.
  induction 1 as [|x l Hx Hn IH]; simpl; [constructor|].
  destruct (negb (String.eqb x rid)); [|exact IH].
  constructor; [|exact IH].
  rewrite list_elem_of_In in *. intros H. apply Hx.
  apply without_mem in H. tauto.
Qed.

Lemma add_favorite_cases rid db u :
  (is_Some (restaurants db !! rid) /\ ~ In rid (favoriteRestaurants u) /\
   add_favorite rid db u
   = ({| http := 200; message := "Restaurant added to favorites" |},
      set_favoriteRestaurants (favoriteRestaurants u ++ [rid])%list u)) \/
  (~ (is_Some (restaurants db !! rid) /\ ~ In rid (favoriteRestaurants u)) /\
   http (fst (add_favorite rid db u)) <> 200%nat /\
   snd (add_favorite rid db u) = u).
Proof.
  unfold add_favorite.
  destruct (restaurants db !! rid) as [rest|] eqn:Hr.
  - destruct (existsb (String.eqb rid) (favoriteRestaurants u)) eqn:He.
    + right. apply favorite_member in He.
      split; [tauto|]. split; [discriminate|reflexivity].
    + left. split; [eauto|]. split; [|reflexivity].
      intros H. apply favorite_member in H. congruence.
  - right. split; [|split; [discriminate|reflexivity]].
    intros [[x Hx] _]. discriminate.
Qed.

(** X26.  The favorites behave as a set of restaurant ids.  Adding
    answers 200 exactly when the restaurant exists and is not yet a
    favorite, and then the favorites are the old ones and the new id;
    otherwise nothing changes.  Removing leaves exactly the other ids
    and is idempotent.  Both keep the list free of duplicates, and
    removing a favorite that was just added gives back the user as it
    was. *)
Theorem favorites_set rid db u :
  let added := add_favorite rid db u in
  let removed := remove_favorite rid u in
  (http (fst added) = 200%nat <->
     is_Some (restaurants db !! rid) /\ ~ In rid (favoriteRestaurants u)) /\
  (http (fst added) = 200%nat ->
     forall x, In x (favoriteRestaurants (snd added)) <->
               In x (favoriteRestaurants u) \/ x = rid) /\
  (http (fst added) <> 200%nat -> snd added = u) /\
  (forall x, In x (favoriteRestaurants (snd removed)) <->
             In x (favoriteRestaurants u) /\ x <> rid) /\
  snd (remove_favorite rid (snd removed)) = snd removed /\
  (NoDup (favoriteRestaurants u) ->
     NoDup (favoriteRestaurants (snd added)) /\
     NoDup (favoriteRestaurants (snd removed))) /\
  (http (fst added) = 200%nat -> snd (remove_favorite rid (snd added)) = u).
Proof.
  intros added removed. subst added removed.
  pose proof (add_favorite_cases rid db u) as Hcases.
  split; [|split; [|split; [|split; [|split; [|split]]]]].
  - destruct Hcases as [(H1 & H2 & ->) | (Hn & H200 & _)]; simpl; [tauto|].
    split; [contradiction|tauto].
  - destruct Hcases as [(_ & _ & ->) | (_ & H200 & _)]; [|contradiction].
    intros _ x. simpl. rewrite in_app_iff. simpl. split.
    + intros [H|[H|[]]]; auto.
    + intros [H| ->]; auto.
  - destruct Hcases as [(_ & _ & ->) | (_ & _ & Hs)]; [|intros _; exact Hs].
    simpl. congruence.
  - intros x. apply without_mem.
  - unfold remove_favorite. simpl.
    rewrite without_absent; [reflexivity|].
    intros H. apply without_mem in H. tauto.
  - intros Hnd. split.
    + destruct Hcases as [(_ & Hni & ->) | (_ & _ & ->)]; [|exact Hnd].
      simpl. apply NoDup_app. repeat split; try assumption.
      * intros x Hx Hy. apply list_elem_of_In in Hx. apply list_elem_of_In in Hy.
        destruct Hy as [<-|[]]. contradiction.
      * repeat constructor. intros Hx. apply list_elem_of_In in Hx. destruct Hx.
    + simpl. apply without_NoDup. exact Hnd.
  - destruct Hcases as [(_ & Hni & ->) | (_ & H200 & _)]; [|contradiction].
    intros _. unfold remove_favorite. simpl.
    rewrite List.filter_app. simpl. rewrite String.eqb_refl. simpl.
    rewrite app_nil_r, without_absent by exact Hni. destruct u; reflexivity.
Qed.

End Favorites.

Lemma sample_book_wf : book_wf Sample.alice.
Proof.
  split.
  - simpl. repeat constructor; rewrite list_elem_of_In; simpl; intuition discriminate.
  - unfold defaults. simpl. lia.
Qed.

Lemma address_book_wf_witness :
  book_wf (snd (add_address "a3"
                  {| aa_type := "other"; aa_street := "5 Oak Ave";
                     aa_city := "Shelbyville"; aa_state := "IL";
                     aa_zipCode := "62565"; aa_isDefault := Some true |}
                  Sample.alice)).
Proof.
  apply (proj1 (address_book_wf Sample.alice sample_book_wf)).
  simpl. intuition discriminate.
Defined.

Lemma add_address_default_witness :
  let r := {| aa_type := "other"; aa_street := "5 Oak Ave";
              aa_city := "Shelbyville"; aa_state := "IL";
              aa_zipCode := "62565"; aa_isDefault := Some true |} in
  exists a, defaultAddress (snd (add_address "a3" r Sample.alice)) = Some a /\
    addr_id a = "a3" /\ defaults (addresses (snd (add_address "a3" r Sample.alice))) = 1.
Proof.
  intros r.
  destruct (proj2 (add_address_default "a3" r Sample.alice) eq_refl)
    as (a & old & _ & _ & Hid & _ & _ & _ & _ & Hiff & Hdef & _).
  destruct (Hdef (proj2 Hiff (or_introl eq_refl))) as [Hone Hda].
  exists a. auto.
Defined.

Lemma delete_address_effect_witness :
  defaults (addresses (snd (delete_address "a1" Sample.alice))) = 0 /\
  defaultAddress (snd (delete_address "a1" Sample.alice))
  = head (addresses (snd (delete_address "a1" Sample.alice))).
Proof.
  destruct (proj2 (delete_address_effect "a1" Sample.alice))
    as (_ & _ & _ & Hwf).
  - simpl. auto.
  - apply (proj2 (Hwf sample_book_wf) Sample.home).
    + simpl. auto.
    + reflexivity.
    + reflexivity.
Defined.

Lemma update_address_effect_witness :
  let r := {| ua_id := "a2"; ua_type := None; ua_street := Some "10 Elm St";
              ua_city := None; ua_state := None; ua_zipCode := None;
              ua_isDefault := Some true |} in
  defaults (addresses (snd (update_address r Sample.alice))) = 1 /\
  defaultAddress (snd (update_address r Sample.alice))
  = Some (update_fields r Sample.office).
Proof.
  intros r.
  destruct (proj2 (proj2 (update_address_effect r Sample.alice) Sample.office eq_refl)
              eq_refl) as (_ & _ & Hdef).
  destruct (Hdef eq_refl (proj1 sample_book_wf)) as (H1 & H2 & _).
  split; assumption.
Defined.

Lemma favorites_set_witness :
  snd (remove_favorite "r1" (snd (add_favorite "r1" Sample.db0 Sample.alice)))
  = Sample.alice.
Proof.
  apply (proj2 (proj2 (proj2 (proj2 (proj2 (proj2
           (favorites_set "r1" Sample.db0 Sample.alice))))))).
  vm_compute. reflexivity.
Defined.
